(** * table-planner: the table-state engine

    A shallow embedding of the signup state machine (views.py, modals.py),
    the record store (storage.py) and the rate limiter
    (command_handlers/utils.py), with the properties of the design
    document stated and proved against it. *)

From Stdlib Require Import ZArith Lia Bool Sorting.Sorted.
From stdpp Require Import gmap strings list fin_maps.

Set Warnings "-register-all".

Local Open Scope string_scope.
Local Open Scope list_scope.
Local Open Scope Z_scope.

(* ===================================================================== *)
(** * Data model (types.py)                                               *)
(* ===================================================================== *)

(** [class ArchiveReason(str, Enum)]. *)
Inductive ArchiveReason := MOD | OWNER | NO_ACCESS | KICK.

(** [ArchiveReason.value]. *)
Definition reason_value (r : ArchiveReason) : string :=
  match r with
  | MOD => "MOD" | OWNER => "OWNER" | NO_ACCESS => "NO_ACCESS" | KICK => "KICK"
  end.

(** [class PlayerEntry(TypedDict)]: [display_name] is [NotRequired], so the
    key is either absent ([None]) or holds a string. [joined_at] is the ISO
    text produced by [datetime.now(timezone.utc).isoformat()]. *)
Record PlayerEntry := mkPlayerEntry {
  id : Z;
  joined_at : string;
  display_name : option string
}.

(** [class TableData(TypedDict)]. The fields typed [X | None] are options. *)
Record TableData := mkTableData {
  system : string;
  infos : string;
  schedule : string;
  created_at : option string;
  max_players : Z;
  players : list PlayerEntry;
  waitlist : list PlayerEntry;
  creator_id : Z;
  message_id : Z;
  channel_id : Z;
  guild_id : Z;
  archive_reason : option ArchiveReason;
  archived_at : option string;
  archived_by : option Z
}.

(** In-place field assignments [table_data["k"] = v]. *)
Definition set_players (v : list PlayerEntry) (t : TableData) : TableData :=
  mkTableData (system t) (infos t) (schedule t) (created_at t) (max_players t)
    v (waitlist t) (creator_id t) (message_id t) (channel_id t) (guild_id t)
    (archive_reason t) (archived_at t) (archived_by t).

Definition set_waitlist (v : list PlayerEntry) (t : TableData) : TableData :=
  mkTableData (system t) (infos t) (schedule t) (created_at t) (max_players t)
    (players t) v (creator_id t) (message_id t) (channel_id t) (guild_id t)
    (archive_reason t) (archived_at t) (archived_by t).

Definition set_archive_reason (v : option ArchiveReason) (t : TableData) : TableData :=
  mkTableData (system t) (infos t) (schedule t) (created_at t) (max_players t)
    (players t) (waitlist t) (creator_id t) (message_id t) (channel_id t)
    (guild_id t) v (archived_at t) (archived_by t).

(** The four assignments at the start of an edit:
    [system], [schedule], [infos], [max_players]. *)
Definition set_edit_fields (sys sched inf : string) (cap : Z) (t : TableData) : TableData :=
  mkTableData sys inf sched (created_at t) cap
    (players t) (waitlist t) (creator_id t) (message_id t) (channel_id t)
    (guild_id t) (archive_reason t) (archived_at t) (archived_by t).

Definition set_display_name (v : option string) (e : PlayerEntry) : PlayerEntry :=
  mkPlayerEntry (id e) (joined_at e) v.

(* ===================================================================== *)
(** * Ordering of [joined_at]                                             *)
(* ===================================================================== *)

(** [joined_at] values are compared as Python strings, that is
    lexicographically by code point; on the UTF-8 bytes of a [string] this
    is [String.leb]. *)
Definition joined_le (a b : PlayerEntry) : Prop :=
  String.leb (joined_at a) (joined_at b) = true.

(** [list.sort(key=lambda item: item["joined_at"])]: a stable sort. An
    entry is put in front of the first entry whose key is not smaller, so
    entries with equal keys keep their order. *)
Fixpoint insert_by_joined_at (e : PlayerEntry) (l : list PlayerEntry) : list PlayerEntry :=
  match l with
  | [] => [e]
  | x :: l' =>
      if String.leb (joined_at e) (joined_at x) then e :: x :: l'
      else x :: insert_by_joined_at e l'
  end.

Fixpoint sort_by_joined_at (l : list PlayerEntry) : list PlayerEntry :=
  match l with
  | [] => []
  | e :: l' => insert_by_joined_at e (sort_by_joined_at l')
  end.

(** A waitlist ordered by [joined_at] ascending. *)
Definition waitlist_sorted (l : list PlayerEntry) : Prop := Sorted joined_le l.

(** The same, as a test that computes. *)
Fixpoint waitlist_sortedb (l : list PlayerEntry) : bool :=
  match l with
  | [] => true
  | a :: l' =>
      match l' with
      | [] => true
      | b :: _ => String.leb (joined_at a) (joined_at b) && waitlist_sortedb l'
      end
  end.

(* ===================================================================== *)
(** * The store as the callbacks see it (storage.py through [TableData])  *)
(* ===================================================================== *)

(** The two partitions on disk, holding well-typed records, and the number
    of [save_tables] calls made so far: every read and every write succeeds.
    The document-level model of the same functions, with files that are
    malformed or cannot be read, is in module [Disk] below. *)
Record World := mkWorld {
  active_file : gmap string TableData;
  archived_file : gmap string TableData;
  writes : nat
}.

(** A computation that reads and writes the store. *)
Definition M (A : Type) : Type := World -> A * World.

Definition ret {A : Type} (a : A) : M A := fun w => (a, w).

Definition bind {A B : Type} (c : M A) (k : A -> M B) : M B :=
  fun w => let (a, w') := c w in k a w'.

Notation "x <- c ;; k" := (bind c (fun x => k))
  (at level 100, c at next level, right associativity).
Notation "c ;;; k" := (bind c (fun _ => k))
  (at level 100, right associativity).

(** [load_tables()]. *)
Definition load_tables : M (gmap string TableData * gmap string TableData) :=
  fun w => ((active_file w, archived_file w), w).

(** [save_tables(active, archived)]: every record written to the active
    side gets [archive_reason = None]; the archived side is written as it
    is. *)
Definition save_tables (active archived : gmap string TableData) : M unit :=
  fun w => (tt, mkWorld (set_archive_reason None <$> active) archived (S (writes w))).

(* ===================================================================== *)
(** * Signup view (views.py)                                              *)
(* ===================================================================== *)

(** Python truthiness of [entry.get("display_name")] and of a resolved
    name: absent, [None] and the empty string are false. *)
Definition truthy (o : option string) : bool :=
  match o with
  | Some s => negb (String.eqb s "")
  | None => false
  end.

(** One iteration of the loop of [_populate_display_names]. [resolve] stands
    for [_resolve_display_name], a lookup on the platform that may fail. *)
Definition populate_entry (resolve : Z -> option string) (e : PlayerEntry) : PlayerEntry :=
  if truthy (display_name e) then e
  else if truthy (resolve (id e)) then set_display_name (resolve (id e)) e
  else e.

(** [any(entry["id"] == user.id for entry in bucket)]. *)
Definition any_id (uid : Z) (bucket : list PlayerEntry) : bool :=
  existsb (fun entry => id entry =? uid) bucket.

(** [[entry for entry in bucket if entry["id"] != user.id]]. *)
Definition without_id (uid : Z) (bucket : list PlayerEntry) : list PlayerEntry :=
  List.filter (fun entry => negb (id entry =? uid)) bucket.

(** What [join_callback] answers. *)
Inductive JoinResult :=
| JoinNoTable          (* "This table no longer exists." *)
| AlreadySignedUp      (* "You are already signed up!" *)
| AlreadyOnWaitlist    (* "You are already on the waitlist!" *)
| Waitlisted
| Seated.

(** What [leave_callback] answers. *)
Inductive LeaveResult :=
| LeaveNoTable                         (* table id not active *)
| Left (promoted : option PlayerEntry) (* "You have left the table." *)
| LeftWaitlist                         (* "You have been removed from the waitlist." *)
| NotSignedUp.                         (* "You weren't signed up in the first place." *)

Module SignupView.

(** [_populate_display_names]: both buckets, entries updated in place. *)
Definition _populate_display_names (resolve : Z -> option string) (t : TableData) : TableData :=
  set_waitlist (map (populate_entry resolve) (waitlist t))
    (set_players (map (populate_entry resolve) (players t)) t).

(** [SignupView.join_callback]. [uid] and [uname] are [user.id] and
    [getattr(user, "display_name", user.name)], [now] the text of
    [datetime.now(timezone.utc).isoformat()]. The message edits and direct
    messages that follow the save touch no table data and are left out. *)
Definition join_callback (table_id : string) (uid : Z) (uname : string)
    (now : string) (resolve : Z -> option string) : M JoinResult :=
  tables <- load_tables ;;
  let (active_tables, archived_tables) := (tables : gmap string TableData * gmap string TableData) in
  match active_tables !! table_id with
  | None => ret JoinNoTable
  | Some table_data =>
      if any_id uid (players table_data) then ret AlreadySignedUp
      else if any_id uid (waitlist table_data) then ret AlreadyOnWaitlist
      else if Z.of_nat (length (players table_data)) >=? max_players table_data then
        let table_data :=
          set_waitlist (waitlist table_data ++ [mkPlayerEntry uid now (Some uname)]) table_data in
        let table_data := _populate_display_names resolve table_data in
        save_tables (<[table_id := table_data]> active_tables) archived_tables ;;;
        ret Waitlisted
      else
        let table_data :=
          set_players (players table_data ++ [mkPlayerEntry uid now (Some uname)]) table_data in
        let table_data := _populate_display_names resolve table_data in
        save_tables (<[table_id := table_data]> active_tables) archived_tables ;;;
        ret Seated
  end.

(** [SignupView.leave_callback]. [waitlist.pop(0)] takes the head of the
    list that [table_data["waitlist"]] still refers to. *)
Definition leave_callback (table_id : string) (uid : Z)
    (resolve : Z -> option string) : M LeaveResult :=
  tables <- load_tables ;;
  let (active_tables, archived_tables) := (tables : gmap string TableData * gmap string TableData) in
  match active_tables !! table_id with
  | None => ret LeaveNoTable
  | Some table_data =>
      if any_id uid (players table_data) then
        let table_data := set_players (without_id uid (players table_data)) table_data in
        let (promoted, table_data) :=
          match waitlist table_data with
          | [] => (None, table_data)
          | first :: rest =>
              (Some first,
               set_players (players table_data ++ [first]) (set_waitlist rest table_data))
          end in
        let table_data := _populate_display_names resolve table_data in
        save_tables (<[table_id := table_data]> active_tables) archived_tables ;;;
        ret (Left promoted)
      else if any_id uid (waitlist table_data) then
        let table_data := set_waitlist (without_id uid (waitlist table_data)) table_data in
        let table_data := _populate_display_names resolve table_data in
        save_tables (<[table_id := table_data]> active_tables) archived_tables ;;;
        ret LeftWaitlist
      else ret NotSignedUp
  end.

End SignupView.

(** What [ArchiveView.select_callback] answers. *)
Inductive ArchiveResult :=
| ArchiveNotForYou     (* "This is not for you!" *)
| ArchiveNoSelection   (* "No selection detected." *)
| ArchiveNoAction      (* the placeholder option was chosen *)
| ArchiveMissing       (* "This table cannot be archived." *)
| ArchiveForbidden     (* "You are not allowed to archive this table." *)
| Archived (reason : ArchiveReason).

Module ArchiveView.

(** [ArchiveView.select_callback]. [view_user_id] is [self.user_id], [uid]
    is [interaction.user.id], [values] the selected options, and
    [manage_messages channel_id uid] is the answer of the platform to the
    permission lookup ([False] when the channel or the member is unknown). *)
Definition select_callback (view_user_id uid : Z) (values : list string)
    (manage_messages : Z -> Z -> bool) : M ArchiveResult :=
  if negb (uid =? view_user_id) then ret ArchiveNotForYou
  else match values with
  | [] => ret ArchiveNoSelection
  | table_id :: _ =>
      if String.eqb table_id "no_tables" then ret ArchiveNoAction
      else
        tables <- load_tables ;;
        let (active_tables, archived_tables) :=
          (tables : gmap string TableData * gmap string TableData) in
        match active_tables !! table_id with
        | None => ret ArchiveMissing
        | Some table_data =>
            let finish (reason : ArchiveReason) : M ArchiveResult :=
              let table_data := set_archive_reason (Some reason) table_data in
              save_tables (delete table_id active_tables)
                          (<[table_id := table_data]> archived_tables) ;;;
              ret (Archived reason) in
            if negb (uid =? creator_id table_data) then
              if manage_messages (channel_id table_data) uid then finish MOD
              else ret ArchiveForbidden
            else finish OWNER
        end
  end.

End ArchiveView.

(** The loop body of [archive_tables] (storage.py):
    [record = active_tables.pop(table_id, None)] and what follows. *)
Definition archive_one (reason : ArchiveReason)
    (st : gmap string TableData * gmap string TableData * nat) (table_id : string)
    : gmap string TableData * gmap string TableData * nat :=
  let '(active_tables, archived_tables, archived_count) := st in
  match active_tables !! table_id with
  | None => st
  | Some record =>
      (delete table_id active_tables,
       <[table_id := set_archive_reason (Some reason) record]> archived_tables,
       S archived_count)
  end.

(** [archive_tables(table_ids, reason)]. *)
Definition archive_tables (table_ids : list string) (reason : ArchiveReason) : M nat :=
  tables <- load_tables ;;
  let (active_tables, archived_tables) :=
    (tables : gmap string TableData * gmap string TableData) in
  let '(active_tables, archived_tables, archived_count) :=
    fold_left (archive_one reason) table_ids (active_tables, archived_tables, O) in
  match archived_count with
  | O => ret archived_count
  | S _ => save_tables active_tables archived_tables ;;; ret archived_count
  end.

(* ===================================================================== *)
(** * Text ([str])                                                        *)
(* ===================================================================== *)

(** A [str] is held as the bytes of its UTF-8 encoding, which is also how a
    literal of this file is read. A byte of the form [10xxxxxx] continues
    the code point that was begun before it; every other byte begins one.
    Equality and the order of two texts are those of their code points. *)
Definition is_continuation (c : Ascii.ascii) : bool :=
  let n := Ascii.N_of_ascii c in ((128 <=? n) && (n <? 192))%N.

(** The number of code points of a text. *)
Fixpoint code_points (value : string) : nat :=
  match value with
  | EmptyString => O
  | String c rest =>
      if is_continuation c then code_points rest else S (code_points rest)
  end.

(** [len(value)]. *)
Definition len (value : string) : Z := Z.of_nat (code_points value).

(** The first [count] code points of a text. *)
Fixpoint take_points (count : nat) (value : string) : string :=
  match value with
  | EmptyString => EmptyString
  | String c rest =>
      if is_continuation c then String c (take_points count rest)
      else match count with
           | O => EmptyString
           | S count' => String c (take_points count' rest)
           end
  end.

(** [value[:stop]]: a negative [stop] counts from the end. *)
Definition slice_to (value : string) (stop : Z) : string :=
  let stop := if stop <? 0 then Z.max 0 (len value + stop) else stop in
  take_points (Z.to_nat stop) value.

(** The UTF-8 bytes of a code point below U+10000, surrogates apart. *)
Definition utf8 (point : N) : string :=
  if (point <? 128)%N then String (Ascii.ascii_of_N point) ""
  else if (point <? 2048)%N then
    String (Ascii.ascii_of_N (192 + point / 64))
      (String (Ascii.ascii_of_N (128 + point mod 64)) "")
  else
    String (Ascii.ascii_of_N (224 + point / 4096))
      (String (Ascii.ascii_of_N (128 + (point / 64) mod 64))
         (String (Ascii.ascii_of_N (128 + point mod 64)) "")).

(** The code points [str.strip] takes for white space, those for which
    [str.isspace] holds. *)
Definition white_space : list N :=
  [ 9; 10; 11; 12; 13; 28; 29; 30; 31; 32; 133; 160; 5760;
    8192; 8193; 8194; 8195; 8196; 8197; 8198; 8199; 8200; 8201; 8202;
    8232; 8233; 8239; 8287; 12288 ]%N.

(** What is left of a text after the white space code point it begins
    with, [None] when it begins with none. The code points for which
    [str.isspace] holds are U+0009 to U+000D, U+001C to U+0020, U+0085,
    U+00A0, U+1680, U+2000 to U+200A, U+2028, U+2029, U+202F, U+205F and
    U+3000. *)
Definition after_space (value : string) : option string :=
  match value with
  | EmptyString => None
  | String c rest =>
      let b := Ascii.N_of_ascii c in
      if (((9 <=? b) && (b <=? 13)) || ((28 <=? b) && (b <=? 32)))%N then Some rest
      else
        match rest with
        | EmptyString => None
        | String c1 rest1 =>
            let b1 := Ascii.N_of_ascii c1 in
            if ((b =? 194) && ((b1 =? 133) || (b1 =? 160)))%N then Some rest1
            else
              match rest1 with
              | EmptyString => None
              | String c2 rest2 =>
                  let b2 := Ascii.N_of_ascii c2 in
                  if ((b =? 225) && (b1 =? 154) && (b2 =? 128))%N then Some rest2
                  else if ((b =? 226) && (b1 =? 128)
                           && (((128 <=? b2) && (b2 <=? 138))
                               || (b2 =? 168) || (b2 =? 169) || (b2 =? 175)))%N
                  then Some rest2
                  else if ((b =? 226) && (b1 =? 129) && (b2 =? 159))%N then Some rest2
                  else if ((b =? 227) && (b1 =? 128) && (b2 =? 128))%N then Some rest2
                  else None
              end
        end
  end.

(** [value.lstrip()]. Every step takes at least one byte off, so that the
    length of the text is steps enough. *)
Fixpoint lstrip_steps (steps : nat) (value : string) : string :=
  match steps with
  | O => value
  | S steps' =>
      match after_space value with
      | Some rest => lstrip_steps steps' rest
      | None => value
      end
  end.

Definition lstrip (value : string) : string :=
  lstrip_steps (String.length value) value.

(** [value.rstrip()]: the text up to the point from which only white space
    follows. *)
Fixpoint rstrip (value : string) : string :=
  match value with
  | EmptyString => EmptyString
  | String c rest =>
      if String.eqb (lstrip value) "" then EmptyString else String c (rstrip rest)
  end.

(** [value.strip()]. *)
Definition strip (value : string) : string := rstrip (lstrip value).

(** A text made of white space code points and nothing else. *)
Inductive spaces_only : string -> Prop :=
| spaces_only_empty : spaces_only ""
| spaces_only_more (value rest : string) :
    after_space value = Some rest -> spaces_only rest -> spaces_only value.

(** A text that ends with a white space code point. *)
Definition ends_with_space (value : string) : Prop :=
  exists before space, value = before +:+ space /\ after_space space = Some "".

(* ===================================================================== *)
(** * Creation and edit forms (modals.py)                                 *)
(* ===================================================================== *)

(** The reasons for which a submitted form is turned down. *)
Inductive FormError :=
| BadMaxPlayers   (* not a number between 1 and 20 *)
| EmptySystem | EmptySchedule | EmptyInfos
| SystemTooLong | ScheduleTooLong | InfosTooLong.

(** The checks that open both [on_submit] methods, in their order. The text
    values are the fields after [.strip()]; [max_players] is [None] when
    [int(...)] raises [ValueError]. *)
Definition check_form (system_value schedule_value infos_value : string)
    (max_players : option Z) : FormError + Z :=
  match max_players with
  | None => inl BadMaxPlayers
  | Some max_players_int =>
      if max_players_int <=? 0 then inl BadMaxPlayers
      else if max_players_int >? 20 then inl BadMaxPlayers
      else if String.eqb system_value "" then inl EmptySystem
      else if String.eqb schedule_value "" then inl EmptySchedule
      else if String.eqb infos_value "" then inl EmptyInfos
      else if len system_value >? 100 then inl SystemTooLong
      else if len schedule_value >? 120 then inl ScheduleTooLong
      else if len infos_value >? 1024 then inl InfosTooLong
      else inr max_players_int
  end.

(** How posting the signup card ended. *)
Inductive PostResult :=
| NotTextChannel
| SendFailed
| Posted (message_id channel_id : Z).

Inductive CreateResult :=
| CreateRejected (e : FormError)
| CreateNotPosted
| Created.

Module NewTableModal.

(** [NewTableModal.on_submit]. [table_id] is [str(uuid.uuid4())], [now] the
    creation time text, [guild] is [interaction.guild_id]. *)
Definition on_submit (uid : Z) (system_value schedule_value infos_value : string)
    (max_players : option Z) (table_id now : string) (guild : option Z)
    (post : PostResult) : M CreateResult :=
  match check_form system_value schedule_value infos_value max_players with
  | inl e => ret (CreateRejected e)
  | inr max_players_int =>
      tables <- load_tables ;;
      let (active_tables, archived_tables) :=
        (tables : gmap string TableData * gmap string TableData) in
      match post with
      | NotTextChannel | SendFailed => ret CreateNotPosted
      | Posted message_id channel_id =>
          let new_table :=
            mkTableData system_value infos_value schedule_value (Some now)
              max_players_int [] [] uid message_id channel_id
              (default 0 guild) None None None in
          save_tables (<[table_id := new_table]> active_tables) archived_tables ;;;
          ret Created
      end
  end.

End NewTableModal.

(** The loop [while len(players) > max_players_int: players.pop() ...]. It
    runs at most [len(players)] times, which is the fuel given to it. *)
Fixpoint pop_excess (fuel : nat) (max_players_int : Z)
    (players moved_to_waitlist : list PlayerEntry)
    : list PlayerEntry * list PlayerEntry :=
  match fuel with
  | O => (players, moved_to_waitlist)
  | S fuel' =>
      if Z.of_nat (length players) >? max_players_int then
        match last players with
        | None => (players, moved_to_waitlist)
        | Some entry_to_move =>
            pop_excess fuel' max_players_int (removelast players)
              (moved_to_waitlist ++ [entry_to_move])
        end
      else (players, moved_to_waitlist)
  end.

Inductive EditResult :=
| EditRejected (e : FormError)
| EditNoTable          (* "This table no longer exists or was archived." *)
| Edited (moved_to_waitlist : list PlayerEntry).

Module EditTableModal.

(** [EditTableModal.on_submit]. *)
Definition on_submit (table_id : string)
    (system_value schedule_value infos_value : string) (max_players : option Z)
    : M EditResult :=
  match check_form system_value schedule_value infos_value max_players with
  | inl e => ret (EditRejected e)
  | inr max_players_int =>
      tables <- load_tables ;;
      let (active_tables, archived_tables) :=
        (tables : gmap string TableData * gmap string TableData) in
      match active_tables !! table_id with
      | None => ret EditNoTable
      | Some table_data =>
          let table_data :=
            set_edit_fields system_value schedule_value infos_value max_players_int
              table_data in
          let (table_data, moved_to_waitlist) :=
            if Z.of_nat (length (players table_data)) >? max_players_int then
              let (players', moved) :=
                pop_excess (length (players table_data)) max_players_int
                  (players table_data) [] in
              let combined_waitlist := sort_by_joined_at (waitlist table_data ++ moved) in
              (set_waitlist combined_waitlist (set_players players' table_data), moved)
            else (table_data, []) in
          save_tables (<[table_id := table_data]> active_tables) archived_tables ;;;
          ret (Edited moved_to_waitlist)
      end
  end.

End EditTableModal.

(* ===================================================================== *)
(** * Rate limiter (command_handlers/utils.py)                            *)
(* ===================================================================== *)

(** A [datetime] is an instant counted in microseconds, its resolution,
    from [datetime.min], the first instant of year 1; a [timedelta] is a
    number of microseconds. *)
Definition timedelta_seconds (seconds : Z) : Z := seconds * 1000000.

(** [datetime.max], the last microsecond of year 9999: 3652059 days after
    [datetime.min], less one microsecond. *)
Definition datetime_max : Z := 3652059 * 86400 * 1000000 - 1.

(** The instants a [datetime] can hold. A sum or a difference that is none
    of them raises [OverflowError]. *)
Definition is_datetime (instant : Z) : Prop := 0 <= instant <= datetime_max.

(** An instant with a whole window between it and either end of the range
    of [datetime]: the window is then a [timedelta] ([timedelta] raises
    [OverflowError] beyond 999999999 days), and the window can be taken
    from the instant and added to it. *)
Definition window_fits (window_seconds instant : Z) : Prop :=
  is_datetime (instant - timedelta_seconds window_seconds) /\
  is_datetime instant /\
  is_datetime (instant + timedelta_seconds window_seconds).

(** The arithmetic of a check made at [now] on the stamps [timestamps] stays
    within [datetime]. The checks below compute on all of [Z], where
    nothing overflows: they are the checks of the code where this holds, and
    what is said of the code is said there. *)
Definition in_range (window_seconds now : Z) (timestamps : list Z) : Prop :=
  window_fits window_seconds now /\ Forall (window_fits window_seconds) timestamps.

(** [num / den] rounded to the nearest integer, a tie going to the even
    one, for a positive [den]. *)
Definition round_half_even (num den : Z) : Z :=
  let q := num / den in
  let r := num mod den in
  if 2 * r <? den then q
  else if den <? 2 * r then q + 1
  else if Z.even q then q else q + 1.

(** [n / d] for two positive [int]: the [float] nearest to the quotient, a
    tie going to the even mantissa, given as [(m, e)] for [m * 2**e] with a
    mantissa of 53 bits. [b] is the exponent of the quotient,
    [2**b <= n / d < 2**(b + 1)]. *)
Definition true_divide (n d : Z) : Z * Z :=
  let s := Z.log2 n - Z.log2 d in
  let b := if (if 0 <=? s then d * 2 ^ s <=? n else d <=? n * 2 ^ (- s))
           then s else s - 1 in
  let e := b - 52 in
  let m := if 0 <=? e then round_half_even n (d * 2 ^ e)
           else round_half_even (n * 2 ^ (- e)) d in
  (m, e).

(** [int(x)] for a positive [float] [m * 2**e]: the fraction is dropped. *)
Definition int_of_float (x : Z * Z) : Z :=
  let (m, e) := x in if 0 <=? e then m * 2 ^ e else m / 2 ^ (- e).

(** [int(delta.total_seconds())]: [total_seconds] divides the microseconds
    by [10**6] into a [float], and [int] drops the fraction, rounding toward
    zero. No [timedelta] is so long or so short that the quotient leaves the
    normal range of [float]. *)
Definition int_total_seconds (delta : Z) : Z :=
  if delta =? 0 then 0
  else if 0 <? delta then int_of_float (true_divide delta 1000000)
  else - int_of_float (true_divide (- delta) 1000000).

(** [while timestamps and timestamps[0] < cutoff: timestamps.popleft()]. *)
Fixpoint prune (cutoff : Z) (timestamps : list Z) : list Z :=
  match timestamps with
  | [] => []
  | oldest :: rest => if oldest <? cutoff then prune cutoff rest else timestamps
  end.

(** The module-level dictionaries of admitted timestamps. *)
Record Limits := mkLimits {
  _user_rate_limits : gmap Z (list Z);
  _guild_rate_limits : gmap Z (list Z)
}.

(** The body shared, line for line, by [check_user_rate_limit] and
    [check_guild_rate_limit], on the dictionary of one scope. [limit] is what
    the configuration getter of the scope returns,
    [(max_commands, window_seconds)]. The answer is [None] when
    [timestamps[0]] raises [IndexError], which needs [max_commands <= 0].
    The instants are taken [in_range]: the [OverflowError] of [timedelta],
    of [now - window] and of [oldest + window] is not part of the
    function. *)
Definition check_rate_limit (limit : Z * Z) (key now : Z) (store : gmap Z (list Z))
    : option (bool * Z) * gmap Z (list Z) :=
  let (max_commands, window_seconds) := limit in
  let window := timedelta_seconds window_seconds in
  let timestamps := default [] (store !! key) in
  let cutoff := now - window in
  let timestamps := prune cutoff timestamps in
  if Z.of_nat (length timestamps) >=? max_commands then
    match timestamps with
    | [] => (None, <[key := timestamps]> store)
    | oldest :: _ =>
        let wait_seconds := Z.max 0 (int_total_seconds (oldest + window - now)) in
        (Some (false, wait_seconds), <[key := timestamps]> store)
    end
  else (Some (true, 0), <[key := timestamps ++ [now]]> store).

Definition check_user_rate_limit (limit : Z * Z) (user_id now : Z) (s : Limits)
    : option (bool * Z) * Limits :=
  let (r, d) := check_rate_limit limit user_id now (_user_rate_limits s) in
  (r, mkLimits d (_guild_rate_limits s)).

Definition check_guild_rate_limit (limit : Z * Z) (guild_id now : Z) (s : Limits)
    : option (bool * Z) * Limits :=
  let (r, d) := check_rate_limit limit guild_id now (_guild_rate_limits s) in
  (r, mkLimits (_user_rate_limits s) d).

(** The smallest integer not below [delta / 10**6] seconds. *)
Definition ceil_seconds (delta : Z) : Z := - ((- delta) / 1000000).

(* ===================================================================== *)
(** * The record store on documents (storage.py)                          *)
(* ===================================================================== *)

Module Disk.

(** Python values as they occur in the table documents. A dictionary keeps
    its items in insertion order; its keys are distinct. Floating-point
    numbers do not occur in table data and are left out. *)
Inductive pyval :=
| PyNone
| PyBool (b : bool)
| PyInt (z : Z)
| PyStr (s : string)
| PyList (l : list pyval)
| PyDict (d : list (string * pyval))
| PyReason (r : ArchiveReason).

(** A record as the storage functions see it: a [dict]. *)
Abbreviation record := (list (string * pyval)).

(** [TablesDB = Dict[str, TableData]]. *)
Abbreviation TablesDB := (list (string * record)).

(** [d.get(k)]. *)
Fixpoint dict_get {V : Type} (k : string) (d : list (string * V)) : option V :=
  match d with
  | [] => None
  | (k', v) :: d' => if String.eqb k k' then Some v else dict_get k d'
  end.

(** [d[k] = v]: an existing key keeps its place, a new key goes last. *)
Fixpoint dict_set {V : Type} (k : string) (v : V) (d : list (string * V)) : list (string * V) :=
  match d with
  | [] => [(k, v)]
  | (k', v') :: d' =>
      if String.eqb k k' then (k, v) :: d' else (k', v') :: dict_set k v d'
  end.

(** What [json.dump] writes and [json.load] reads back: the value itself,
    with a member of the string enumeration written as its string. *)
Fixpoint json_dump (v : pyval) : pyval :=
  match v with
  | PyList l => PyList (map json_dump l)
  | PyDict d => PyDict (map (fun kv => (fst kv, json_dump (snd kv))) d)
  | PyReason r => PyStr (reason_value r)
  | _ => v
  end.

(** The exceptions that leave [json.load] and are no
    [json.JSONDecodeError]. *)
Inductive load_error :=
| UnicodeDecodeError   (* bytes that are not UTF-8 text *)
| IntegerTooLong       (* [ValueError]: a number of more digits than [int]
                          converts, 4300 unless the limit was changed *)
| RecursionError.      (* brackets nested deeper than the interpreter allows *)

(** A file, by what [os.path.exists], [open] and [json.load] do with it:
    absent; there, but not to be opened ([OSError]); one on which
    [json.load] raises something else than [json.JSONDecodeError]; a text
    that is not JSON ([json.JSONDecodeError]); or a JSON document, with the
    value [json.load] returns for it. *)
Inductive file :=
| NoFile
| Unreadable
| Unloadable (e : load_error)
| Unparsable
| Document (raw : pyval).

(** The files on which [json.load] is not left by an exception other than
    [json.JSONDecodeError]. *)
Definition loads (f : file) : bool :=
  match f with
  | Unloadable _ => false
  | _ => true
  end.

Record disk := mkDisk {
  ACTIVE_DATA_FILE : file;
  ARCHIVED_DATA_FILE : file
}.

Inductive exn :=
| KeyError (key : string)
| ValueError (value : pyval)   (* [ArchiveReason(value)] *)
| LoadError (e : load_error)
| OSError.

Inductive warning :=
| CouldNotDecode      (* "Could not decode JSON from %s. Returning empty data." *)
| NotADictionary.     (* "Data in %s is not a dictionary. Returning empty data." *)

(** [ArchiveReason(reason)]: lookup of a member by value. *)
Definition ArchiveReason_of (reason : pyval) : exn + ArchiveReason :=
  match reason with
  | PyReason r => inr r
  | PyStr s =>
      if String.eqb s "MOD" then inr MOD
      else if String.eqb s "OWNER" then inr OWNER
      else if String.eqb s "NO_ACCESS" then inr NO_ACCESS
      else if String.eqb s "KICK" then inr KICK
      else inl (ValueError reason)
  | _ => inl (ValueError reason)
  end.

(** The loop [for key, value in raw.items()] of [_read_json]. *)
Fixpoint read_items (items : list (string * pyval)) (normalized : TablesDB)
    : exn + TablesDB :=
  match items with
  | [] => inr normalized
  | (key, value) :: rest =>
      match value with
      | PyDict entry =>
          match dict_get "archive_reason" entry with
          | None => inl (KeyError "archive_reason")
          | Some PyNone =>
              read_items rest (dict_set key (dict_set "archive_reason" PyNone entry) normalized)
          | Some reason =>
              match ArchiveReason_of reason with
              | inl e => inl e
              | inr r =>
                  read_items rest
                    (dict_set key (dict_set "archive_reason" (PyReason r) entry) normalized)
              end
          end
      | _ => read_items rest normalized
      end
  end.

(** [_read_json(path)]: the warnings logged, and the collection returned or
    the exception raised. The [except] clause names [json.JSONDecodeError]
    and [TypeError] only: an [OSError] of [open] and the other exceptions of
    [json.load] (a [UnicodeDecodeError] is a [ValueError], not a
    [JSONDecodeError]) leave the function. *)
Definition _read_json (f : file) : list warning * (exn + TablesDB) :=
  match f with
  | NoFile => ([], inr [])
  | Unreadable => ([], inl OSError)
  | Unloadable e => ([], inl (LoadError e))
  | Unparsable => ([CouldNotDecode], inr [])
  | Document (PyDict raw) => ([], read_items raw [])
  | Document _ => ([NotADictionary], inr [])
  end.

(** The loop of [_write_json] that builds [serializable]. *)
Fixpoint write_items (items : TablesDB) (serializable : list (string * pyval))
    : list (string * pyval) :=
  match items with
  | [] => serializable
  | (key, value) :: rest =>
      let entry :=
        match dict_get "archive_reason" value with
        | Some (PyReason reason) =>
            dict_set "archive_reason" (PyStr (reason_value reason)) value
        | _ => value
        end in
      write_items rest (dict_set key (PyDict entry) serializable)
  end.

(** [_write_json(path, data)]: the new content of the file at [path]. The
    temporary file and the rename make the replacement atomic. *)
Definition _write_json (data : TablesDB) : file :=
  Document (json_dump (PyDict (write_items data []))).

(** [load_tables()]: the active file is read first. *)
Definition load_tables (d : disk) : list warning * (exn + TablesDB * TablesDB) :=
  let (w1, r1) := _read_json (ACTIVE_DATA_FILE d) in
  match r1 with
  | inl e => (w1, inl e)
  | inr active =>
      let (w2, r2) := _read_json (ARCHIVED_DATA_FILE d) in
      match r2 with
      | inl e => (w1 ++ w2, inl e)
      | inr archived => (w1 ++ w2, inr (active, archived))
      end
  end.

(** The loop of [save_tables] that builds [normalized_active]. *)
Fixpoint normalize_active (items : TablesDB) (normalized_active : TablesDB) : TablesDB :=
  match items with
  | [] => normalized_active
  | (key, value) :: rest =>
      normalize_active rest
        (dict_set key (dict_set "archive_reason" PyNone value) normalized_active)
  end.

(** [save_tables(active, archived)]. *)
Definition save_tables (active archived : TablesDB) : disk :=
  mkDisk (_write_json (normalize_active active [])) (_write_json archived).

(** ** Records that carry the declared fields *)

Definition encode_option {A : Type} (f : A -> pyval) (o : option A) : pyval :=
  match o with
  | Some a => f a
  | None => PyNone
  end.

(** A [PlayerEntry] dictionary; the key [display_name] is absent when the
    entry has none. *)
Definition encode_entry (e : PlayerEntry) : pyval :=
  PyDict ([("id", PyInt (id e)); ("joined_at", PyStr (joined_at e))]
          ++ match display_name e with
             | Some name => [("display_name", PyStr name)]
             | None => []
             end).

(** A [TableData] dictionary, with the keys in the order of the literal in
    [NewTableModal.on_submit]. *)
Definition encode_table (t : TableData) : record :=
  [ ("system", PyStr (system t));
    ("infos", PyStr (infos t));
    ("schedule", PyStr (schedule t));
    ("created_at", encode_option PyStr (created_at t));
    ("max_players", PyInt (max_players t));
    ("players", PyList (map encode_entry (players t)));
    ("waitlist", PyList (map encode_entry (waitlist t)));
    ("creator_id", PyInt (creator_id t));
    ("message_id", PyInt (message_id t));
    ("channel_id", PyInt (channel_id t));
    ("guild_id", PyInt (guild_id t));
    ("archive_reason", encode_option PyReason (archive_reason t));
    ("archived_at", encode_option PyStr (archived_at t));
    ("archived_by", encode_option PyInt (archived_by t)) ].

Definition encode_tables (db : list (string * TableData)) : TablesDB :=
  map (fun kv => (fst kv, encode_table (snd kv))) db.

(** The active collection as [save_tables] writes it. *)
Definition cleared (db : list (string * TableData)) : list (string * TableData) :=
  map (fun kv => (fst kv, set_archive_reason None (snd kv))) db.

(** The JSON object that stands for a record in a partition file: the
    reason is written by name. *)
Definition stored_table (t : TableData) : record :=
  dict_set "archive_reason"
    (encode_option (fun r => PyStr (reason_value r)) (archive_reason t))
    (encode_table t).

(** The item of a partition document that stands for a record. *)
Definition stored_item (kv : string * TableData) : string * pyval :=
  (fst kv, PyDict (stored_table (snd kv))).

(** ** What the loader keeps of a document *)

(** The entry as the loop of [_read_json] stores it, when the loop gets
    past it: the reason name replaced by the member. [None] when the lookup
    of the key or of the member raises. *)
Definition normalized_entry (entry : record) : option record :=
  match dict_get "archive_reason" entry with
  | None => None
  | Some PyNone => Some (dict_set "archive_reason" PyNone entry)
  | Some reason =>
      match ArchiveReason_of reason with
      | inl _ => None
      | inr r => Some (dict_set "archive_reason" (PyReason r) entry)
      end
  end.

(** The items of a document that are dictionaries, normalized, in order. *)
Fixpoint kept_items (items : list (string * pyval)) : TablesDB :=
  match items with
  | [] => []
  | (key, PyDict entry) :: rest =>
      match normalized_entry entry with
      | Some entry' => (key, entry') :: kept_items rest
      | None => kept_items rest
      end
  | _ :: rest => kept_items rest
  end.

Definition is_dict (v : pyval) : bool :=
  match v with
  | PyDict _ => true
  | _ => false
  end.

(** Sample documents. *)
Definition sparse_document : pyval :=
  PyDict [ ("table-1", PyInt 5);
           ("table-2", PyDict [("archive_reason", PyNone)]) ].

Definition reasonless_document : pyval :=
  PyDict [ ("table-1", PyDict [("system", PyStr "Test System")]) ].

Definition misnamed_document : pyval :=
  PyDict [ ("table-1", PyDict [("archive_reason", PyStr "owner")]) ].

End Disk.

(** The two partitions of a store, as collections in key order. *)
Definition items_of (m : gmap string TableData) : list (string * TableData) :=
  map_to_list m.

(* ===================================================================== *)
(** * Histories of one signup card                                        *)
(* ===================================================================== *)

(** An interaction with the card of a table. *)
Inductive event :=
| Join (table_id : string) (uid : Z) (uname now : string) (resolve : Z -> option string)
| Leave (table_id : string) (uid : Z) (resolve : Z -> option string)
| Edit (table_id : string) (system_value schedule_value infos_value : string)
       (max_players : option Z).

Definition run_event (ev : event) : M unit :=
  match ev with
  | Join table_id uid uname now resolve =>
      SignupView.join_callback table_id uid uname now resolve ;;; ret tt
  | Leave table_id uid resolve =>
      SignupView.leave_callback table_id uid resolve ;;; ret tt
  | Edit table_id system_value schedule_value infos_value max_players =>
      EditTableModal.on_submit table_id system_value schedule_value infos_value
        max_players ;;; ret tt
  end.

Fixpoint run_events (evs : list event) : M unit :=
  match evs with
  | [] => ret tt
  | ev :: evs' => run_event ev ;;; run_events evs'
  end.

(** The store after a save of the active partition with [table_data] under
    [table_id]. *)
Definition saved (table_id : string) (table_data : TableData) (w : World) : World :=
  mkWorld (set_archive_reason None <$> <[table_id := table_data]> (active_file w))
    (archived_file w) (S (writes w)).

(** The user ids of a bucket. *)
Definition ids (bucket : list PlayerEntry) : list Z := map id bucket.

(** The identity and join time of an entry: what a bucket records besides
    the cached display name. *)
Definition stamp (e : PlayerEntry) : Z * string := (id e, joined_at e).

(** One press of the join button: who, under which name, when, and what the
    platform answers to name lookups at that moment. *)
Record JoinCall := mkJoinCall {
  call_uid : Z;
  call_uname : string;
  call_now : string;
  call_resolve : Z -> option string
}.

Definition join_calls (table_id : string) (calls : list JoinCall) : list event :=
  map (fun c => Join table_id (call_uid c) (call_uname c) (call_now c) (call_resolve c))
      calls.

Definition call_stamp (c : JoinCall) : Z * string := (call_uid c, call_now c).

(** Timestamps in ascending order. *)
Definition nondecreasing (stamps : list string) : Prop :=
  Sorted (fun a b => String.leb a b = true) stamps.

(** No user id occurs twice in the roster and the waitlist taken together. *)
Definition unique_ids (t : TableData) : Prop :=
  NoDup (ids (players t) ++ ids (waitlist t)).

(* ===================================================================== *)
(** * Sample data                                                         *)
(* ===================================================================== *)

Module Sample.

Definition no_names : Z -> option string := fun _ => None.

(** 2025-01-01T10:00:00+00:00 as an instant: 739251 days and ten hours
    after [datetime.min]. *)
Definition morning : Z := (739251 * 86400 + 10 * 3600) * 1000000.

Definition alice : PlayerEntry :=
  mkPlayerEntry 1 "2025-01-01T10:00:00+00:00" (Some "Alice").
Definition bob : PlayerEntry :=
  mkPlayerEntry 2 "2025-01-01T11:00:00+00:00" (Some "Bob").
(** An entry that never got a cached display name. *)
Definition carol : PlayerEntry :=
  mkPlayerEntry 3 "2025-01-01T12:00:00.250000+00:00" None.

(** [_sample_table()] of tests/test_storage.py. *)
Definition sample_table : TableData :=
  mkTableData "Test System" "Test" "Soon" (Some "2025-01-01T00:00:00Z") 4
    [] [] 123 456 789 101112 None None None.

(** Capacity 1, A seated, B waiting. *)
Definition full_table : TableData :=
  mkTableData "Test System" "Test" "Soon" (Some "2025-01-01T00:00:00Z") 1
    [alice] [bob] 123 456 789 101112 None None None.

(** Capacity 3 with A, B and C seated in that order. *)
Definition trio_table : TableData :=
  mkTableData "Test System" "Test" "Soon" (Some "2025-01-01T00:00:00Z") 3
    [alice; bob; carol] [] 123 456 789 101112 None None None.

(** Capacity 2, nobody signed up yet. *)
Definition duo_table : TableData :=
  mkTableData "Test System" "Test" "Soon" (Some "2025-01-01T00:00:00Z") 2
    [] [] 123 456 789 101112 None None None.

(** An archived record as tests/test_storage.py builds it. *)
Definition archived_table : TableData := set_archive_reason (Some OWNER) sample_table.

(** A table with a seated and a waiting player, one without cached name. *)
Definition busy_table : TableData :=
  mkTableData "Test System" "Test" "Soon" None 1
    [alice] [carol] 123 456 789 101112 None None None.

Definition empty_world : World := mkWorld ∅ ∅ 0.
Definition duo_world : World := mkWorld {[ "table-1" := duo_table ]} ∅ 0.
Definition sample_world : World := mkWorld {[ "table-1" := sample_table ]} ∅ 0.
Definition full_world : World := mkWorld {[ "table-1" := full_table ]} ∅ 0.
Definition trio_world : World := mkWorld {[ "table-1" := trio_table ]} ∅ 0.

(** The store after [create] by user 123 on an empty store. *)
Definition created_world : World :=
  snd (NewTableModal.on_submit 123 "Test System" "Soon" "Test" (Some 4) "table-1"
         "2025-01-01T00:00:00+00:00" (Some 101112) (Posted 456 789) empty_world).

Definition three_calls : list JoinCall :=
  [ mkJoinCall 1 "Alice" "2025-01-01T10:00:00+00:00" no_names;
    mkJoinCall 2 "Bob" "2025-01-01T11:00:00+00:00" no_names;
    mkJoinCall 3 "Carol" "2025-01-01T12:00:00.250000+00:00" no_names ].

(** A history: a join, the same join again, a cut of the capacity, a
    second player, and the first one leaving. *)
Definition history : list event :=
  [ Join "table-1" 1 "Alice" "2025-01-01T10:00:00+00:00" no_names;
    Join "table-1" 1 "Alice" "2025-01-01T10:05:00+00:00" no_names;
    Edit "table-1" "Test System" "Soon" "Test" (Some 1);
    Join "table-1" 2 "Bob" "2025-01-01T11:00:00+00:00" no_names;
    Leave "table-1" 1 no_names ].

(** A history after which the roster is not in the order of the joins: the
    capacity is cut to one seat, Alice is seated and Bob waits; a second
    seat lets Carol in; Alice leaves and Bob moves up, behind Carol. *)
Definition promotion_history : list event :=
  [ Edit "table-1" "Test System" "Soon" "Test" (Some 1);
    Join "table-1" 1 "Alice" "2025-01-01T10:00:00+00:00" no_names;
    Join "table-1" 2 "Bob" "2025-01-01T11:00:00+00:00" no_names;
    Edit "table-1" "Test System" "Soon" "Test" (Some 2);
    Join "table-1" 3 "Carol" "2025-01-01T12:00:00+00:00" no_names;
    Leave "table-1" 1 no_names ].

End Sample.

(* ===================================================================== *)
(** * Clean-up of the store (storage.py, bot.py)                          *)
(* ===================================================================== *)

(** [load_active_tables()]. *)
Definition load_active_tables : M (gmap string TableData) :=
  tables <- load_tables ;; ret (fst tables).

(** [load_archived_tables()]. *)
Definition load_archived_tables : M (gmap string TableData) :=
  tables <- load_tables ;; ret (snd tables).

(** [[table_id for table_id, info in active_tables.items() if test(info)]].
    The items come in the order of the dictionary; nothing proved below
    depends on which order that is. *)
Definition ids_where (test : TableData -> bool) (active_tables : gmap string TableData)
    : list string :=
  map fst (List.filter (fun item => test (snd item)) (map_to_list active_tables)).

(** [remove_tables_for_channel(channel_id)]. *)
Definition remove_tables_for_channel (channel : Z) : M nat :=
  tables <- load_tables ;;
  let table_ids := ids_where (fun info => channel_id info =? channel) (fst tables) in
  archive_tables table_ids KICK.

(** [remove_tables_for_guild(guild_id)]. *)
Definition remove_tables_for_guild (guild : Z) : M nat :=
  tables <- load_tables ;;
  let table_ids := ids_where (fun info => guild_id info =? guild) (fst tables) in
  archive_tables table_ids KICK.

Module TablePlannerBot.

(** The tests of the loop of [setup_hook] that a table passes to get its
    view back: guild and channel ids are not zero, the channel is found and
    is a text channel, and it belongs to the guild of the record.
    [text_channel_guild channel] is the guild of the text channel with that
    id, [None] when [get_channel] and [fetch_channel] find none or find a
    channel of another kind. The conversions [int(info["guild_id"])] and
    [int(info["channel_id"])] cannot fail on a record whose two fields are
    integers, as they are here. *)
Definition restorable (text_channel_guild : Z -> option Z) (info : TableData) : bool :=
  if (guild_id info =? 0) || (channel_id info =? 0) then false
  else match text_channel_guild (channel_id info) with
       | None => false
       | Some guild => guild =? guild_id info
       end.

(** One turn of the loop: the ids collected for the archive and the views
    added so far, as pairs of [table_id] and [max_players]. *)
Definition setup_step (text_channel_guild : Z -> option Z)
    (st : list string * list (string * Z)) (item : string * TableData)
    : list string * list (string * Z) :=
  let (tables_to_archive, views) := st in
  if restorable text_channel_guild (snd item)
  then (tables_to_archive, views ++ [(fst item, max_players (snd item))])
  else (tables_to_archive ++ [fst item], views).

(** [TablePlannerBot.setup_hook]: the persistent views that were added. The
    count logged is their number. *)
Definition setup_hook (text_channel_guild : Z -> option Z) : M (list (string * Z)) :=
  active_tables <- load_active_tables ;;
  let (tables_to_archive, views) :=
    fold_left (setup_step text_channel_guild) (map_to_list active_tables) ([], []) in
  match tables_to_archive with
  | [] => ret views
  | _ :: _ => archive_tables tables_to_archive NO_ACCESS ;;; ret views
  end.

(** [on_guild_remove] and [on_guild_channel_delete]. *)
Definition on_guild_remove (guild : Z) : M nat := remove_tables_for_guild guild.

Definition on_guild_channel_delete (channel : Z) : M nat :=
  remove_tables_for_channel channel.

End TablePlannerBot.

(* ===================================================================== *)
(** * The archive and edit commands (command_handlers, views.py)          *)
(* ===================================================================== *)

(** The test of the loops of [archive_table] and [edit_table]: the table is
    the user's own or lies in a channel where the user manages messages. *)
Definition eligible (uid : Z) (manage_messages : Z -> Z -> bool) (info : TableData) : bool :=
  (creator_id info =? uid) || manage_messages (channel_id info) uid.

(** What the two commands answer: nothing to choose from, or a selector
    over [user_tables] that only [uid] may use. *)
Inductive Offer :=
| NoEligibleTables
| Offered (user_tables : gmap string TableData) (view_user_id : Z)
| ServerChannelOnly.

(** [archive_table] of /archive-table. *)
Definition archive_table (uid : Z) (manage_messages : Z -> Z -> bool) : M Offer :=
  data <- load_active_tables ;;
  let user_tables :=
    filter (fun item => eligible uid manage_messages (snd item) = true) data in
  if decide (user_tables = ∅) then ret NoEligibleTables
  else ret (Offered user_tables uid).

(** [edit_table] of /edit-table; [in_server_channel] is
    [interaction.guild is not None and interaction.channel is not None]. *)
Definition edit_table (uid : Z) (in_server_channel : bool)
    (manage_messages : Z -> Z -> bool) : M Offer :=
  if negb in_server_channel then ret ServerChannelOnly
  else
    data <- load_active_tables ;;
    let user_tables :=
      filter (fun item => eligible uid manage_messages (snd item) = true) data in
    if decide (user_tables = ∅) then ret NoEligibleTables
    else ret (Offered user_tables uid).

(** What [EditTableView.select_callback] answers. *)
Inductive EditSelectResult :=
| EditNotForYou        (* "This is not for you!" *)
| EditNoSelection      (* "No selection detected." *)
| EditNoAction         (* the placeholder option was chosen *)
| EditGone             (* "This table can no longer be edited." *)
| ModalOpened (table_id : string) (table_data : TableData).

Module EditTableView.

(** [EditTableView.select_callback]. *)
Definition select_callback (view_user_id uid : Z) (values : list string)
    : M EditSelectResult :=
  if negb (uid =? view_user_id) then ret EditNotForYou
  else match values with
  | [] => ret EditNoSelection
  | table_id :: _ =>
      if String.eqb table_id "no_tables" then ret EditNoAction
      else
        tables <- load_tables ;;
        let active_tables := fst tables in
        match active_tables !! table_id with
        | None => ret EditGone
        | Some table_data => ret (ModalOpened table_id table_data)
        end
  end.

End EditTableView.

(* ===================================================================== *)
(** * The steps of a table                                                *)
(* ===================================================================== *)

(** The table an event is addressed to. *)
Definition event_table (ev : event) : string :=
  match ev with
  | Join table_id _ _ _ _ => table_id
  | Leave table_id _ _ => table_id
  | Edit table_id _ _ _ _ => table_id
  end.

(** The record an event saves in place of the one it found, case by case,
    as the branches of [join_callback], [leave_callback] and
    [EditTableModal.on_submit] build it. *)
Inductive table_step : event -> TableData -> TableData -> Prop :=
| step_seat table_id uid uname now resolve t :
    uid ∉ ids (players t) -> uid ∉ ids (waitlist t) ->
    Z.of_nat (length (players t)) < max_players t ->
    table_step (Join table_id uid uname now resolve) t
      (SignupView._populate_display_names resolve
         (set_players (players t ++ [mkPlayerEntry uid now (Some uname)]) t))
| step_queue table_id uid uname now resolve t :
    uid ∉ ids (players t) -> uid ∉ ids (waitlist t) ->
    max_players t <= Z.of_nat (length (players t)) ->
    table_step (Join table_id uid uname now resolve) t
      (SignupView._populate_display_names resolve
         (set_waitlist (waitlist t ++ [mkPlayerEntry uid now (Some uname)]) t))
| step_leave_roster table_id uid resolve t :
    uid ∈ ids (players t) -> waitlist t = [] ->
    table_step (Leave table_id uid resolve) t
      (SignupView._populate_display_names resolve
         (set_players (without_id uid (players t)) t))
| step_promote table_id uid resolve t first rest :
    uid ∈ ids (players t) -> waitlist t = first :: rest ->
    table_step (Leave table_id uid resolve) t
      (SignupView._populate_display_names resolve
         (set_players (without_id uid (players t) ++ [first]) (set_waitlist rest t)))
| step_leave_waitlist table_id uid resolve t :
    uid ∉ ids (players t) -> uid ∈ ids (waitlist t) ->
    table_step (Leave table_id uid resolve) t
      (SignupView._populate_display_names resolve
         (set_waitlist (without_id uid (waitlist t)) t))
| step_edit_demote table_id system_value schedule_value infos_value max_players_value c t :
    check_form system_value schedule_value infos_value max_players_value = inr c ->
    c < Z.of_nat (length (players t)) ->
    table_step (Edit table_id system_value schedule_value infos_value max_players_value) t
      (set_waitlist
         (sort_by_joined_at (waitlist t ++ rev (skipn (Z.to_nat c) (players t))))
         (set_players (firstn (Z.to_nat c) (players t))
            (set_edit_fields system_value schedule_value infos_value c t)))
| step_edit_plain table_id system_value schedule_value infos_value max_players_value c t :
    check_form system_value schedule_value infos_value max_players_value = inr c ->
    Z.of_nat (length (players t)) <= c ->
    table_step (Edit table_id system_value schedule_value infos_value max_players_value) t
      (set_edit_fields system_value schedule_value infos_value c t).

(** The roster holds no more entries than the capacity allows. *)
Definition within_capacity (t : TableData) : Prop :=
  Z.of_nat (length (players t)) <= max_players t.

(** The times at which the joins of a history were made. *)
Fixpoint join_times (evs : list event) : list string :=
  match evs with
  | [] => []
  | Join _ _ _ now _ :: evs' => now :: join_times evs'
  | _ :: evs' => join_times evs'
  end.

(** The clock after an event: a join shows the time it was made at. *)
Definition clock_after (clock : string) (ev : event) : string :=
  match ev with
  | Join _ _ _ now _ => now
  | _ => clock
  end.

(** The waitlist is in [joined_at] order and nobody in the table has a
    stamp later than [clock]. *)
Definition timely (clock : string) (t : TableData) : Prop :=
  waitlist_sorted (waitlist t) /\
  Forall (fun e => String.leb (joined_at e) clock = true) (players t ++ waitlist t).

(* ===================================================================== *)
(** * Checks in a row                                                     *)
(* ===================================================================== *)

(** The checks of one key at the instants [nows], one after the other, each
    on the dictionary as the check before it left it. *)
Fixpoint check_in_turn (limit : Z * Z) (key : Z) (nows : list Z)
    (store : gmap Z (list Z)) : list (option (bool * Z)) * gmap Z (list Z) :=
  match nows with
  | [] => ([], store)
  | now :: rest =>
      let (r, store) := check_rate_limit limit key now store in
      let (rs, store) := check_in_turn limit key rest store in
      (r :: rs, store)
  end.

(** The instants of the checks that were allowed. *)
Fixpoint admitted (nows : list Z) (results : list (option (bool * Z))) : list Z :=
  match nows, results with
  | now :: nows', Some (true, _) :: results' => now :: admitted nows' results'
  | _ :: nows', _ :: results' => admitted nows' results'
  | _, _ => []
  end.

(** The stamps of [stamps] that lie in the window that ends at [now]. *)
Definition in_window (window now : Z) (stamps : list Z) : list Z :=
  List.filter (fun t => now - window <=? t) stamps.

(** What the dictionary of a key holds between two checks: the stamps
    admitted so far that lay in the window of the last check. *)
Definition window_kept (max_commands window_seconds key : Z)
    (store : gmap Z (list Z)) (stamps : list Z) (clock : Z) : Prop :=
  exists earlier,
    earlier <= clock /\
    default [] (store !! key) = in_window (timedelta_seconds window_seconds) earlier stamps /\
    StronglySorted Z.le stamps /\
    Forall (fun t => t <= clock) stamps /\
    Z.of_nat (length (default [] (store !! key))) <= max_commands.

(* ===================================================================== *)
(** * The join button (views.py)                                          *)
(* ===================================================================== *)

(** The label [SignupView.update_message] gives the join button of a view
    that was made with [view_max_players], for the record [data] it is
    called with. *)
Definition join_btn_label (view_max_players : Z) (data : TableData) : string :=
  let is_full := Z.of_nat (length (players data)) >=? view_max_players in
  if is_full then "Join Waitlist" else "Sign Up".

(* ===================================================================== *)
(** * Records of any shape through the active file                        *)
(* ===================================================================== *)

(** The items of a dictionary as [json.dump] writes them and [json.load]
    reads them back. *)
Definition dumped (entry : Disk.record) : Disk.record :=
  map (fun kv => (fst kv, Disk.json_dump (snd kv))) entry.

(** An active collection after [save_tables] and [load_tables]: each record
    with a null [archive_reason] and its values as JSON keeps them. *)
Definition reloaded (active : Disk.TablesDB) : Disk.TablesDB :=
  map (fun kv => (fst kv, dumped (Disk.dict_set "archive_reason" Disk.PyNone (snd kv))))
    active.

(* ===================================================================== *)
(** * Configuration (config.py)                                           *)
(* ===================================================================== *)

Module Config.

(** [_load_config()]: the dictionary in the configuration file; empty when
    the file is absent, cannot be opened, is not JSON, or holds something
    else than a dictionary. The [except] clause names [json.JSONDecodeError]
    and [OSError]: the other exceptions of [json.load], as the
    [UnicodeDecodeError] of a file that is not UTF-8 text, leave the
    function. *)
Definition _load_config (CONFIG_FILE : Disk.file)
    : Disk.exn + list (string * Disk.pyval) :=
  match CONFIG_FILE with
  | Disk.Unloadable e => inl (Disk.LoadError e)
  | Disk.Document (Disk.PyDict data) => inr data
  | _ => inr []
  end.

(** [isinstance(candidate, int) and candidate > 0], with the number that is
    then used. [candidate] is the answer of a [.get], [None] for a missing
    key. [True] is an [int] and counts as 1. A number with a fraction, which
    [Disk.pyval] leaves out, is no [int] and fares as a string does. *)
Definition positive_int (candidate : option Disk.pyval) : option Z :=
  match candidate with
  | Some (Disk.PyInt z) => if z >? 0 then Some z else None
  | Some (Disk.PyBool true) => Some 1
  | _ => None
  end.

Definition _DEFAULT_LIST_TABLE_WIDTHS : list (string * Z) :=
  [("system", 20); ("schedule", 24); ("gm", 24); ("players", 10)].

Definition _DEFAULT_MY_TABLE_WIDTHS : list (string * Z) :=
  [("system", 20); ("schedule", 24); ("gm", 24); ("players", 10); ("status", 10)].

Definition _DEFAULT_USER_COMMAND_LIMIT : Z := 3.
Definition _DEFAULT_USER_COMMAND_WINDOW_SECONDS : Z := 10.
Definition _DEFAULT_GUILD_COMMAND_LIMIT : Z := 12.
Definition _DEFAULT_GUILD_COMMAND_WINDOW_SECONDS : Z := 10.

(** The module-level caches. *)
Record Caches := mkCaches {
  _column_widths_cache : option (list (string * Z));
  _my_tables_widths_cache : option (list (string * Z));
  _user_command_rate_limit_cache : option (Z * Z);
  _guild_command_rate_limit_cache : option (Z * Z)
}.

(** The caches of a process that has just started. *)
Definition no_caches : Caches := mkCaches None None None None.

(** The loop [for key, default_value in defaults.items()] of the two width
    getters. *)
Fixpoint override_widths (defaults : list (string * Z))
    (widths : list (string * Disk.pyval)) (result : list (string * Z))
    : list (string * Z) :=
  match defaults with
  | [] => result
  | (key, _) :: rest =>
      match positive_int (Disk.dict_get key widths) with
      | Some override => override_widths rest widths (Disk.dict_set key override result)
      | None => override_widths rest widths result
      end
  end.

(** [get_list_table_column_widths()]. An exception of [_load_config]
    leaves the getter before the cache is set. *)
Definition get_list_table_column_widths (CONFIG_FILE : Disk.file) (c : Caches)
    : (Disk.exn + list (string * Z)) * Caches :=
  match _column_widths_cache c with
  | Some cached => (inr cached, c)
  | None =>
      match _load_config CONFIG_FILE with
      | inl e => (inl e, c)
      | inr config =>
          let result := _DEFAULT_LIST_TABLE_WIDTHS in
          let result :=
            match Disk.dict_get "list_tables" config with
            | Some (Disk.PyDict list_tables_cfg) =>
                match Disk.dict_get "column_widths" list_tables_cfg with
                | Some (Disk.PyDict widths) =>
                    override_widths _DEFAULT_LIST_TABLE_WIDTHS widths result
                | _ => result
                end
            | _ => result
            end in
          (inr result,
           mkCaches (Some result) (_my_tables_widths_cache c)
             (_user_command_rate_limit_cache c) (_guild_command_rate_limit_cache c))
      end
  end.

(** [get_my_table_column_widths()]. *)
Definition get_my_table_column_widths (CONFIG_FILE : Disk.file) (c : Caches)
    : (Disk.exn + list (string * Z)) * Caches :=
  match _my_tables_widths_cache c with
  | Some cached => (inr cached, c)
  | None =>
      match _load_config CONFIG_FILE with
      | inl e => (inl e, c)
      | inr config =>
          let result := _DEFAULT_MY_TABLE_WIDTHS in
          let result :=
            match Disk.dict_get "my_tables" config with
            | Some (Disk.PyDict my_tables_cfg) =>
                match Disk.dict_get "column_widths" my_tables_cfg with
                | Some (Disk.PyDict widths) =>
                    override_widths _DEFAULT_MY_TABLE_WIDTHS widths result
                | _ => result
                end
            | _ => result
            end in
          (inr result,
           mkCaches (_column_widths_cache c) (Some result)
             (_user_command_rate_limit_cache c) (_guild_command_rate_limit_cache c))
      end
  end.

(** [get_user_command_rate_limit()]. *)
Definition get_user_command_rate_limit (CONFIG_FILE : Disk.file) (c : Caches)
    : (Disk.exn + Z * Z) * Caches :=
  match _user_command_rate_limit_cache c with
  | Some cached => (inr cached, c)
  | None =>
      match _load_config CONFIG_FILE with
      | inl e => (inl e, c)
      | inr config =>
          let rate_cfg := Disk.dict_get "rate_limits" config in
          let max_commands := _DEFAULT_USER_COMMAND_LIMIT in
          let window_seconds := _DEFAULT_USER_COMMAND_WINDOW_SECONDS in
          let (max_commands, window_seconds) :=
            match rate_cfg with
            | Some (Disk.PyDict rate_cfg) =>
                let candidate_limit := Disk.dict_get "user_command_limit" rate_cfg in
                let candidate_window :=
                  Disk.dict_get "user_command_window_seconds" rate_cfg in
                (default max_commands (positive_int candidate_limit),
                 default window_seconds (positive_int candidate_window))
            | _ => (max_commands, window_seconds)
            end in
          (inr (max_commands, window_seconds),
           mkCaches (_column_widths_cache c) (_my_tables_widths_cache c)
             (Some (max_commands, window_seconds)) (_guild_command_rate_limit_cache c))
      end
  end.

(** [get_guild_command_rate_limit()]. *)
Definition get_guild_command_rate_limit (CONFIG_FILE : Disk.file) (c : Caches)
    : (Disk.exn + Z * Z) * Caches :=
  match _guild_command_rate_limit_cache c with
  | Some cached => (inr cached, c)
  | None =>
      match _load_config CONFIG_FILE with
      | inl e => (inl e, c)
      | inr config =>
          let rate_cfg := Disk.dict_get "rate_limits" config in
          let max_commands := _DEFAULT_GUILD_COMMAND_LIMIT in
          let window_seconds := _DEFAULT_GUILD_COMMAND_WINDOW_SECONDS in
          let (max_commands, window_seconds) :=
            match rate_cfg with
            | Some (Disk.PyDict rate_cfg) =>
                let candidate_limit := Disk.dict_get "guild_command_limit" rate_cfg in
                let candidate_window :=
                  Disk.dict_get "guild_command_window_seconds" rate_cfg in
                (default max_commands (positive_int candidate_limit),
                 default window_seconds (positive_int candidate_window))
            | _ => (max_commands, window_seconds)
            end in
          (inr (max_commands, window_seconds),
           mkCaches (_column_widths_cache c) (_my_tables_widths_cache c)
             (_user_command_rate_limit_cache c) (Some (max_commands, window_seconds)))
      end
  end.

End Config.

(** The two rate caches hold what the getters put there: nothing yet, or a
    pair of positive numbers. *)
Definition rate_caches_filled_by_getters (c : Config.Caches) : Prop :=
  (forall limit, Config._user_command_rate_limit_cache c = Some limit ->
     0 < fst limit /\ 0 < snd limit) /\
  (forall limit, Config._guild_command_rate_limit_cache c = Some limit ->
     0 < fst limit /\ 0 < snd limit).

(* ===================================================================== *)
(** * Admission of a command (command_handlers)                           *)
(* ===================================================================== *)

(** How the checks that open /list-tables, /my-tables and /show-tables
    end. *)
Inductive Admission :=
| UserLimited (wait_seconds : Z)   (* "Please wait ... more second(s) ..." *)
| GuildBusy (guild_wait : Z)       (* "This server is busy. ..." *)
| Allowed.

(** The opening of the three commands: the check of the user and, in a
    server, the check of the guild, each with the limit its getter returns,
    which is the first thing the check asks for. [guild] is
    [interaction.guild.id], [None] in a direct message. The answer is [None]
    when the handler is left by an exception: that of a getter, or the
    [IndexError] of a check. *)
Definition admission (CONFIG_FILE : Disk.file) (user_id : Z) (guild : option Z) (now : Z)
    (st : Config.Caches * Limits) : option Admission * (Config.Caches * Limits) :=
  let (c, s) := st in
  let (user_limit, c) := Config.get_user_command_rate_limit CONFIG_FILE c in
  match user_limit with
  | inl _ => (None, (c, s))
  | inr user_limit =>
      let (r, s) := check_user_rate_limit user_limit user_id now s in
      match r with
      | None => (None, (c, s))
      | Some (false, wait_seconds) => (Some (UserLimited wait_seconds), (c, s))
      | Some (true, _) =>
          match guild with
          | None => (Some Allowed, (c, s))
          | Some guild_id =>
              let (guild_limit, c) :=
                Config.get_guild_command_rate_limit CONFIG_FILE c in
              match guild_limit with
              | inl _ => (None, (c, s))
              | inr guild_limit =>
                  let (r, s) := check_guild_rate_limit guild_limit guild_id now s in
                  match r with
                  | None => (None, (c, s))
                  | Some (false, guild_wait) => (Some (GuildBusy guild_wait), (c, s))
                  | Some (true, _) => (Some Allowed, (c, s))
                  end
              end
          end
      end
  end.

(** The instants of the opening checks are within the range of
    [datetime], for the windows the getters answer with: the user check
    works on the stamps of the user, the guild check on those of the
    guild. *)
Definition admission_in_range (CONFIG_FILE : Disk.file) (user_id : Z)
    (guild : option Z) (now : Z) (c : Config.Caches) (s : Limits) : Prop :=
  (forall limit,
     fst (Config.get_user_command_rate_limit CONFIG_FILE c) = inr limit ->
     in_range (snd limit) now (default [] (_user_rate_limits s !! user_id))) /\
  (forall guild_id_value limit,
     guild = Some guild_id_value ->
     fst (Config.get_guild_command_rate_limit CONFIG_FILE c) = inr limit ->
     in_range (snd limit) now (default [] (_guild_rate_limits s !! guild_id_value))).

(* ===================================================================== *)
(** * /list-tables (command_handlers/list_tables.py)                      *)
(* ===================================================================== *)

(** [LIST_TABLES_COOLDOWN = timedelta(minutes=1)]. *)
Definition LIST_TABLES_COOLDOWN : Z := 60 * 1000000.

Inductive ListResult :=
| ListRefused (why : Admission)
| ListThrottled (remaining_seconds : Z)
| ListNoTables             (* "There are no active tables in this context." *)
| ListNotSent (channel_tables : gmap string TableData)
| ListPosted (channel_tables : gmap string TableData).

(** The state [list_tables] works on: the caches of the configuration, the
    stamps of the rate limiter, [_channel_rate_limits] and the store. *)
Record ListState := mkListState {
  caches : Config.Caches;
  limits : Limits;
  _channel_rate_limits : gmap Z Z;
  world : World
}.

(** [list_tables], up to the choice of the tables that are listed and the
    record of the run. [is_guild_channel] and [channel_id] are the two values
    the handler computes from [interaction.channel]; [visible_in_dm] says
    which tables [filter_tables_for_dm] keeps; [sent] is the answer of
    [safe_response_send] for the listing. The answer is [None] when the
    opening checks, or the getter of the column widths the listing is laid
    out with, are left by an exception. *)
Definition list_tables (CONFIG_FILE : Disk.file) (user_id : Z) (guild : option Z)
    (is_guild_channel : bool) (channel_id_value : Z) (now : Z)
    (visible_in_dm : TableData -> bool) (sent : bool) (st : ListState)
    : option ListResult * ListState :=
  let (r, checked) := admission CONFIG_FILE user_id guild now (caches st, limits st) in
  let st := mkListState (fst checked) (snd checked) (_channel_rate_limits st) (world st) in
  match r with
  | None => (None, st)
  | Some (UserLimited wait_seconds) => (Some (ListRefused (UserLimited wait_seconds)), st)
  | Some (GuildBusy guild_wait) => (Some (ListRefused (GuildBusy guild_wait)), st)
  | Some Allowed =>
      let throttled :=
        match _channel_rate_limits st !! channel_id_value with
        | Some last_run =>
            if now - last_run <? LIST_TABLES_COOLDOWN
            then Some (int_total_seconds (LIST_TABLES_COOLDOWN - (now - last_run)))
            else None
        | None => None
        end in
      match throttled with
      | Some remaining => (Some (ListThrottled remaining), st)
      | None =>
          let (active_tables, w) := load_active_tables (world st) in
          let channel_tables : gmap string TableData :=
            if is_guild_channel
            then filter (fun item => channel_id (snd item) = channel_id_value) active_tables
            else filter (fun item => visible_in_dm (snd item) = true) active_tables in
          if decide (channel_tables = ∅) then (Some ListNoTables, st)
          else
            let (widths, c) :=
              Config.get_list_table_column_widths CONFIG_FILE (caches st) in
            let st := mkListState c (limits st) (_channel_rate_limits st) (world st) in
            match widths with
            | inl _ => (None, st)
            | inr _ =>
                if sent then
                  (Some (ListPosted channel_tables),
                   mkListState (caches st) (limits st)
                     (<[channel_id_value := now]> (_channel_rate_limits st)) (world st))
                else (Some (ListNotSent channel_tables), st)
            end
      end
  end.

(* ===================================================================== *)
(** * /my-tables (command_handlers/my_tables.py)                          *)
(* ===================================================================== *)

(** The status the loop of [my_tables] gives a table, [None] for a table
    the user has no part in. *)
Definition my_status (user_id : Z) (info : TableData) : option string :=
  if creator_id info =? user_id then Some "DM"
  else if any_id user_id (players info) then Some "Player"
  else if any_id user_id (waitlist info) then Some "Waiting"
  else None.

Inductive MyTablesResult :=
| MyRefused (why : Admission)
| MultipleServers   (* "You have tables on multiple servers. ..." *)
| NoTablesOfYours   (* "You are not currently running or signed up ..." *)
| MyTablesShown (relevant : gmap string (TableData * string)).

(** The tables of [relevant] and their choice by guild, as [my_tables] makes
    it once the checks are passed. *)
Definition my_tables_relevant (user_id : Z) (guild : option Z)
    (active_tables : gmap string TableData) : MyTablesResult :=
  let relevant : gmap string (TableData * string) :=
    omap (fun info => match my_status user_id info with
                      | Some status => Some (info, status)
                      | None => None
                      end) active_tables in
  let chosen : option (gmap string (TableData * string)) :=
    match guild with
    | Some guild_id_value =>
        Some (filter (fun item => guild_id (fst (snd item)) = guild_id_value) relevant)
    | None =>
        let guild_ids : gset Z :=
          list_to_set (map (fun item => guild_id (fst (snd item))) (map_to_list relevant)) in
        if (1 <? size guild_ids)%nat then None
        else match elements guild_ids with
             | target_guild_id :: _ =>
                 Some (filter (fun item => guild_id (fst (snd item)) = target_guild_id)
                         relevant)
             | [] => Some relevant
             end
    end in
  match chosen with
  | None => MultipleServers
  | Some relevant =>
      if decide (relevant = ∅) then NoTablesOfYours else MyTablesShown relevant
  end.

(** [my_tables], up to the choice of the tables that are shown. The answer
    is [None] when the opening checks, or the getter of the column widths
    the tables are laid out with, are left by an exception. *)
Definition my_tables (CONFIG_FILE : Disk.file) (user_id : Z) (guild : option Z) (now : Z)
    (st : Config.Caches * Limits) (w : World)
    : option MyTablesResult * (Config.Caches * Limits) :=
  let (r, st) := admission CONFIG_FILE user_id guild now st in
  match r with
  | None => (None, st)
  | Some (UserLimited wait_seconds) => (Some (MyRefused (UserLimited wait_seconds)), st)
  | Some (GuildBusy guild_wait) => (Some (MyRefused (GuildBusy guild_wait)), st)
  | Some Allowed =>
      match my_tables_relevant user_id guild (fst (load_active_tables w)) with
      | MyTablesShown relevant =>
          let (widths, c) := Config.get_my_table_column_widths CONFIG_FILE (fst st) in
          match widths with
          | inl _ => (None, (c, snd st))
          | inr _ => (Some (MyTablesShown relevant), (c, snd st))
          end
      | answer => (Some answer, st)
      end
  end.

(* ===================================================================== *)
(** * Cells and labels (command_handlers/utils.py, views.py)              *)
(* ===================================================================== *)

(** [" " * count]. *)
Fixpoint spaces (count : nat) : string :=
  match count with
  | O => EmptyString
  | S count' => String (Ascii.ascii_of_nat 32) (spaces count')
  end.

(** [value.ljust(width)]. *)
Definition ljust (value : string) (width : Z) : string :=
  String.append value (spaces (Z.to_nat (width - len value))).

(** [format_cell(value, width)]. *)
Definition format_cell (value : string) (width : Z) : string :=
  if len value <=? width then ljust value width
  else if width <=? 3 then slice_to value width
  else ljust (String.append (slice_to value (width - 3)) "...") width.

(** [max(4, widths.get(key, fallback))]. *)
Definition column_width (widths : list (string * Z)) (key : string) (fallback : Z) : Z :=
  Z.max 4 (default fallback (Disk.dict_get key widths)).

(** The header line of /list-tables and the line of one table, from the
    texts of its four cells. *)
Definition list_header (widths : list (string * Z)) : string :=
  let system_width := column_width widths "system" 20 in
  let schedule_width := column_width widths "schedule" 24 in
  let gm_width := column_width widths "gm" 24 in
  let players_width := column_width widths "players" 10 in
  String.append (ljust "System" system_width)
    (String.append " " (String.append (ljust "Schedule" schedule_width)
       (String.append " " (String.append (ljust "GM" gm_width)
          (String.append " " (ljust "Players" players_width)))))).

Definition list_row (widths : list (string * Z))
    (safe_system safe_schedule gm_display seats : string) : string :=
  let system_width := column_width widths "system" 20 in
  let schedule_width := column_width widths "schedule" 24 in
  let gm_width := column_width widths "gm" 24 in
  let players_width := column_width widths "players" 10 in
  let system_cell := format_cell safe_system system_width in
  let schedule_cell := format_cell safe_schedule schedule_width in
  let gm_cell := format_cell gm_display gm_width in
  let players_cell := format_cell seats players_width in
  String.append system_cell
    (String.append " " (String.append schedule_cell
       (String.append " " (String.append gm_cell
          (String.append " " players_cell))))).

(** [_truncate_label(value, max_length)] of views.py; [max_length] is 100
    where the views call it. *)
Definition _truncate_label (value : string) (max_length : Z) : string :=
  let trimmed := strip value in
  if len trimmed <=? max_length then
    (if String.eqb trimmed "" then "(untitled)" else trimmed)
  else if max_length <=? 3 then slice_to trimmed max_length
  else String.append (slice_to trimmed (max_length - 3)) "...".

(* ===================================================================== *)
(** * Further sample data                                                 *)
(* ===================================================================== *)

Module Cases.

(** A table of another creator, in another channel of another guild. *)
Definition far_table : TableData :=
  mkTableData "Other System" "Other" "Later" None 2
    [Sample.carol] [] 124 457 790 101113 None None None.

(** A table whose channel can no longer be told. *)
Definition lost_table : TableData :=
  mkTableData "Lost System" "Lost" "Never" None 2
    [] [] 125 458 0 101112 None None None.

Definition two_tables_world : World :=
  mkWorld {[ "table-1" := Sample.full_table; "table-2" := far_table ]} ∅ 0.

Definition lost_world : World :=
  mkWorld {[ "table-1" := Sample.full_table; "table-3" := lost_table ]} ∅ 0.

(** The platform knows the text channel 789 of guild 101112 and no other. *)
Definition one_channel (channel : Z) : option Z :=
  if channel =? 789 then Some 101112 else None.

(** User 7 manages the messages of channel 789; nobody else manages any. *)
Definition one_moderator (channel uid : Z) : bool :=
  (channel =? 789) && (uid =? 7).

(** A configuration with a user limit of 2 commands, a window given as
    [true], a guild limit that is not positive and a width for one column. *)
Definition config_file : Disk.file :=
  Disk.Document
    (Disk.PyDict
       [ ("rate_limits",
          Disk.PyDict [ ("user_command_limit", Disk.PyInt 2);
                        ("user_command_window_seconds", Disk.PyBool true);
                        ("guild_command_limit", Disk.PyInt 0) ]);
         ("list_tables",
          Disk.PyDict [ ("column_widths",
                         Disk.PyDict [ ("system", Disk.PyInt 30);
                                       ("gm", Disk.PyStr "wide") ]) ]) ]).

Definition no_stamps : Limits := mkLimits ∅ ∅.

(** A process in which channel 789 had its listing at ten o'clock. *)
Definition listed_state : ListState :=
  mkListState Config.no_caches no_stamps {[ 789 := Sample.morning ]} Sample.full_world.

(** An active collection with a record that lacks every declared field. *)
Definition sparse_active : Disk.TablesDB :=
  [ ("table-1", [("system", Disk.PyStr "Test System")]) ].

End Cases.

(* ===================================================================== *)
(** * Order of timestamps and the stable sort                             *)
(* ===================================================================== *)

Section StringOrder.

Lemma ascii_compare_lt_trans (a b c : Ascii.ascii) :
  Ascii.compare a b = Lt -> Ascii.compare b c = Lt -> Ascii.compare a c = Lt.
Proof.
  unfold Ascii.compare. rewrite !N.compare_lt_iff. lia.
Qed.

Lemma string_compare_lt_trans (s1 s2 s3 : string) :
  String.compare s1 s2 = Lt -> String.compare s2 s3 = Lt ->
  String.compare s1 s3 = Lt.
Proof.
  revert s2 s3. induction s1 as [|a s1 IH]; intros [|b s2] [|c s3]; simpl;
    try congruence.
  destruct (Ascii.compare a b) eqn:Hab; try congruence;
    destruct (Ascii.compare b c) eqn:Hbc; try congruence; intros H1 H2.
  - apply Ascii.compare_eq_iff in Hab, Hbc. subst.
    replace (Ascii.compare c c) with Eq
      by (symmetry; unfold Ascii.compare; apply N.compare_refl).
    eauto.
  - apply Ascii.compare_eq_iff in Hab. subst. now rewrite Hbc.
  - apply Ascii.compare_eq_iff in Hbc. subst. now rewrite Hab.
  - now rewrite (ascii_compare_lt_trans _ _ _ Hab Hbc).
Qed.

Lemma string_leb_cases (s1 s2 : string) :
  String.leb s1 s2 = true <-> String.compare s1 s2 = Lt \/ s1 = s2.
Proof.
  unfold String.leb. split.
  - destruct (String.compare s1 s2) eqn:H; try discriminate; auto.
    right. now apply String.compare_eq_iff.
  - intros [-> | ->]; [reflexivity|].
    destruct (String.compare s2 s2) eqn:H; try reflexivity.
    pose proof (String.compare_antisym s2 s2) as Ha. rewrite H in Ha.
    discriminate.
Qed.

Lemma string_leb_refl (s : string) : String.leb s s = true.
Proof. apply string_leb_cases. now right. Qed.

Lemma string_leb_trans (s1 s2 s3 : string) :
  String.leb s1 s2 = true -> String.leb s2 s3 = true -> String.leb s1 s3 = true.
Proof.
  rewrite !string_leb_cases. intros [H1 | ->] [H2 | ->]; auto.
  left. eapply string_compare_lt_trans; eauto.
Qed.

Lemma string_leb_false (s1 s2 : string) :
  String.leb s1 s2 = false -> String.leb s2 s1 = true.
Proof.
  intros H. destruct (String.leb_total s1 s2) as [H' | H']; congruence.
Qed.

Lemma string_ltb_leb_false (s1 s2 : string) :
  String.ltb s1 s2 = true -> String.leb s2 s1 = false.
Proof.
  unfold String.ltb, String.leb. rewrite (String.compare_antisym s2 s1).
  destruct (String.compare s1 s2); simpl; congruence.
Qed.

Lemma string_ltb_leb (s1 s2 : string) :
  String.ltb s1 s2 = true -> String.leb s1 s2 = true.
Proof.
  unfold String.ltb, String.leb. destruct (String.compare s1 s2); congruence.
Qed.

End StringOrder.

#[local] Instance joined_le_trans : Transitive joined_le.
Proof. intros a b c. unfold joined_le. apply string_leb_trans. Qed.

Lemma waitlist_sortedb_spec (l : list PlayerEntry) :
  waitlist_sortedb l = true <-> waitlist_sorted l.
Proof.
  unfold waitlist_sorted. induction l as [|a [|b l] IH].
  - split; auto.
  - split; auto.
  - change (waitlist_sortedb (a :: b :: l))
      with (String.leb (joined_at a) (joined_at b) && waitlist_sortedb (b :: l)).
    rewrite andb_true_iff, IH. split.
    + intros [H1 H2]. constructor; auto.
    + intros H. apply Sorted_inv in H as [H1 H2]. inversion H2; subst. auto.
Qed.

Section StableSort.

Lemma insert_by_joined_at_perm (e : PlayerEntry) (l : list PlayerEntry) :
  insert_by_joined_at e l ≡ₚ e :: l.
Proof.
  induction l as [|x l IH]; simpl; [reflexivity|].
  destruct (String.leb (joined_at e) (joined_at x)); [reflexivity|].
  rewrite IH. apply perm_swap.
Qed.

Lemma sort_by_joined_at_perm (l : list PlayerEntry) :
  sort_by_joined_at l ≡ₚ l.
Proof.
  induction l as [|e l IH]; simpl; [reflexivity|].
  rewrite insert_by_joined_at_perm. now rewrite IH.
Qed.

Lemma insert_by_joined_at_hd (e a : PlayerEntry) (l : list PlayerEntry) :
  joined_le a e -> HdRel joined_le a l -> HdRel joined_le a (insert_by_joined_at e l).
Proof.
  intros Hae Hl. destruct l as [|x l]; simpl.
  - now constructor.
  - destruct (String.leb (joined_at e) (joined_at x)); constructor; auto.
    now inversion Hl.
Qed.

Lemma insert_by_joined_at_sorted (e : PlayerEntry) (l : list PlayerEntry) :
  waitlist_sorted l -> waitlist_sorted (insert_by_joined_at e l).
Proof.
  unfold waitlist_sorted. induction l as [|x l IH]; simpl; intros Hs.
  - repeat constructor.
  - apply Sorted_inv in Hs as [Hs Hhd].
    destruct (String.leb (joined_at e) (joined_at x)) eqn:Hex.
    + constructor; [constructor; auto|]. now constructor.
    + constructor; [auto|]. apply insert_by_joined_at_hd; auto.
      now apply string_leb_false.
Qed.

Lemma sort_by_joined_at_sorted (l : list PlayerEntry) :
  waitlist_sorted (sort_by_joined_at l).
Proof.
  induction l as [|e l IH]; simpl.
  - constructor.
  - now apply insert_by_joined_at_sorted.
Qed.

(** The sort is stable: a list already in order is left as it is. *)
Lemma sort_by_joined_at_id (l : list PlayerEntry) :
  waitlist_sorted l -> sort_by_joined_at l = l.
Proof.
  unfold waitlist_sorted. induction l as [|e l IH]; simpl; intros Hs; [reflexivity|].
  apply Sorted_inv in Hs as [Hs Hhd]. rewrite IH by assumption.
  destruct Hhd as [|x l' Hex]; simpl; [reflexivity|].
  unfold joined_le in Hex. now rewrite Hex.
Qed.

(** The head of an ordered waitlist joined no later than anyone in it. *)
Lemma waitlist_sorted_head (first : PlayerEntry) (rest : list PlayerEntry) :
  waitlist_sorted (first :: rest) -> Forall (joined_le first) rest.
Proof.
  intros Hs. apply Sorted_StronglySorted in Hs; [|apply joined_le_trans].
  now apply StronglySorted_inv in Hs as [_ H].
Qed.

Lemma waitlist_sorted_tail (first : PlayerEntry) (rest : list PlayerEntry) :
  waitlist_sorted (first :: rest) -> waitlist_sorted rest.
Proof. intros Hs. now apply Sorted_inv in Hs as [H _]. Qed.

(** Appending an entry that joined no earlier than the last one keeps the
    order. *)
Lemma waitlist_sorted_snoc (l : list PlayerEntry) (e : PlayerEntry) :
  waitlist_sorted l -> Forall (fun x => joined_le x e) l ->
  waitlist_sorted (l ++ [e]).
Proof.
  unfold waitlist_sorted. induction l as [|x l IH]; simpl; intros Hs Hall.
  - repeat constructor.
  - apply Sorted_inv in Hs as [Hs Hhd]. inversion Hall as [|? ? Hxe Hall']; subst.
    constructor; [auto|].
    destruct l as [|y l]; simpl; constructor; auto. now inversion Hhd.
Qed.

Lemma waitlist_sorted_snoc_inv (l : list PlayerEntry) (e : PlayerEntry) :
  waitlist_sorted (l ++ [e]) -> Forall (fun x => joined_le x e) l.
Proof.
  intros Hs. apply Sorted_StronglySorted in Hs; [|apply joined_le_trans].
  induction l as [|x l IH]; simpl in *; [constructor|].
  apply StronglySorted_inv in Hs as [Hs Hall]. constructor; auto.
  rewrite Forall_forall in Hall. apply Hall. set_solver.
Qed.

End StableSort.

(* ===================================================================== *)
(** * Buckets: membership, removal, display names                         *)
(* ===================================================================== *)

Section Buckets.

Variable resolve : Z -> option string.

Lemma populate_entry_id (e : PlayerEntry) : id (populate_entry resolve e) = id e.
Proof.
  unfold populate_entry.
  destruct (truthy (display_name e)); [reflexivity|].
  destruct (truthy (resolve (id e))); reflexivity.
Qed.

Lemma populate_entry_joined_at (e : PlayerEntry) :
  joined_at (populate_entry resolve e) = joined_at e.
Proof.
  unfold populate_entry.
  destruct (truthy (display_name e)); [reflexivity|].
  destruct (truthy (resolve (id e))); reflexivity.
Qed.

Lemma ids_populate (l : list PlayerEntry) :
  ids (map (populate_entry resolve) l) = ids l.
Proof.
  unfold ids. rewrite map_map. apply map_ext. intros e. apply populate_entry_id.
Qed.

Lemma joined_at_populate (l : list PlayerEntry) :
  map joined_at (map (populate_entry resolve) l) = map joined_at l.
Proof. rewrite map_map. apply map_ext. intros e. apply populate_entry_joined_at. Qed.

Lemma populate_sorted (l : list PlayerEntry) :
  waitlist_sorted l -> waitlist_sorted (map (populate_entry resolve) l).
Proof.
  unfold waitlist_sorted. induction l as [|x l IH]; simpl; intros Hs; [constructor|].
  apply Sorted_inv in Hs as [Hs Hhd]. constructor; [auto|].
  destruct Hhd as [|y l' Hxy]; simpl; constructor.
  unfold joined_le in *. now rewrite !populate_entry_joined_at.
Qed.

Lemma populate_length (l : list PlayerEntry) :
  length (map (populate_entry resolve) l) = length l.
Proof. apply length_map. Qed.

End Buckets.

Lemma any_id_true (uid : Z) (bucket : list PlayerEntry) :
  any_id uid bucket = true <-> uid ∈ ids bucket.
Proof.
  unfold any_id, ids. induction bucket as [|e l IH]; simpl.
  - split; [discriminate | intros H; inversion H].
  - rewrite orb_true_iff, IH, Z.eqb_eq, elem_of_cons. split; intros [H | H]; auto.
Qed.

Lemma any_id_false (uid : Z) (bucket : list PlayerEntry) :
  any_id uid bucket = false <-> uid ∉ ids bucket.
Proof.
  rewrite <- any_id_true. destruct (any_id uid bucket); split; congruence.
Qed.

Lemma ids_app (l1 l2 : list PlayerEntry) : ids (l1 ++ l2) = ids l1 ++ ids l2.
Proof. apply map_app. Qed.

Lemma elem_of_ids_without (uid x : Z) (bucket : list PlayerEntry) :
  x ∈ ids (without_id uid bucket) <-> x ∈ ids bucket /\ x <> uid.
Proof.
  unfold ids, without_id. induction bucket as [|e l IH]; simpl.
  - split; [intros H; inversion H | intros [H _]; inversion H].
  - destruct (id e =? uid) eqn:He; simpl.
    + apply Z.eqb_eq in He. rewrite IH, elem_of_cons. split.
      * intros [H1 H2]. auto.
      * intros [[-> | H1] H2]; [congruence | auto].
    + apply Z.eqb_neq in He. rewrite !elem_of_cons, IH. split.
      * intros [-> | [H1 H2]]; auto.
      * intros [[-> | H1] H2]; auto.
Qed.

Lemma without_id_gone (uid : Z) (bucket : list PlayerEntry) :
  uid ∉ ids (without_id uid bucket).
Proof. rewrite elem_of_ids_without. intros [_ H]. congruence. Qed.

Lemma without_id_NoDup (uid : Z) (bucket : list PlayerEntry) :
  NoDup (ids bucket) -> NoDup (ids (without_id uid bucket)).
Proof.
  unfold ids, without_id. induction bucket as [|e l IH]; simpl; intros Hnd; [constructor|].
  apply NoDup_cons in Hnd as [Hnin Hnd].
  destruct (id e =? uid); simpl; [auto|].
  apply NoDup_cons. split; [|auto].
  intros Hin. apply Hnin. apply (elem_of_ids_without uid) in Hin. tauto.
Qed.

Lemma without_id_absent (uid : Z) (bucket : list PlayerEntry) :
  uid ∉ ids bucket -> without_id uid bucket = bucket.
Proof.
  unfold ids, without_id. induction bucket as [|e l IH]; simpl; intros Hnin; [reflexivity|].
  rewrite not_elem_of_cons in Hnin. destruct Hnin as [Hne Hnin].
  destruct (id e =? uid) eqn:He.
  - apply Z.eqb_eq in He. congruence.
  - simpl. now rewrite IH.
Qed.

Lemma without_id_sorted (uid : Z) (bucket : list PlayerEntry) :
  waitlist_sorted bucket -> waitlist_sorted (without_id uid bucket).
Proof.
  intros Hs. apply Sorted_StronglySorted in Hs; [|apply joined_le_trans].
  apply StronglySorted_Sorted. unfold without_id.
  induction Hs as [|x l Hs IH Hall]; simpl; [constructor|].
  destruct (negb (id x =? uid)); [|assumption].
  constructor; [assumption|].
  rewrite List.Forall_forall in *. intros y Hy. apply Hall.
  apply List.filter_In in Hy. tauto.
Qed.

(* ===================================================================== *)
(** * What each callback does to the store                                *)
(* ===================================================================== *)

Lemma lookup_saved (table_id : string) (table_data : TableData) (w : World) :
  active_file (saved table_id table_data w) !! table_id
  = Some (set_archive_reason None table_data).
Proof. unfold saved. simpl. now rewrite lookup_fmap, lookup_insert_eq. Qed.

Lemma lookup_saved_ne (table_id other : string) (table_data : TableData) (w : World) :
  table_id <> other ->
  active_file (saved table_id table_data w) !! other
  = set_archive_reason None <$> active_file w !! other.
Proof.
  intros Hne. unfold saved. simpl. now rewrite lookup_fmap, lookup_insert_ne.
Qed.

Lemma join_callback_missing table_id uid uname now resolve (w : World) :
  active_file w !! table_id = None ->
  SignupView.join_callback table_id uid uname now resolve w = (JoinNoTable, w).
Proof.
  intros H. unfold SignupView.join_callback, bind, load_tables, ret. simpl.
  now rewrite H.
Qed.

Lemma join_callback_found table_id uid uname now resolve (w : World) (t : TableData) :
  active_file w !! table_id = Some t ->
  SignupView.join_callback table_id uid uname now resolve w =
    if any_id uid (players t) then (AlreadySignedUp, w)
    else if any_id uid (waitlist t) then (AlreadyOnWaitlist, w)
    else if Z.of_nat (length (players t)) >=? max_players t then
      (Waitlisted,
       saved table_id
         (SignupView._populate_display_names resolve
            (set_waitlist (waitlist t ++ [mkPlayerEntry uid now (Some uname)]) t)) w)
    else
      (Seated,
       saved table_id
         (SignupView._populate_display_names resolve
            (set_players (players t ++ [mkPlayerEntry uid now (Some uname)]) t)) w).
Proof.
  intros H. unfold SignupView.join_callback, bind, load_tables, ret. simpl.
  rewrite H.
  destruct (any_id uid (players t)); [reflexivity|].
  destruct (any_id uid (waitlist t)); [reflexivity|].
  destruct (Z.of_nat (length (players t)) >=? max_players t); reflexivity.
Qed.

Lemma leave_callback_missing table_id uid resolve (w : World) :
  active_file w !! table_id = None ->
  SignupView.leave_callback table_id uid resolve w = (LeaveNoTable, w).
Proof.
  intros H. unfold SignupView.leave_callback, bind, load_tables, ret. simpl.
  now rewrite H.
Qed.

Lemma leave_callback_found table_id uid resolve (w : World) (t : TableData) :
  active_file w !! table_id = Some t ->
  SignupView.leave_callback table_id uid resolve w =
    if any_id uid (players t) then
      match waitlist t with
      | [] =>
          (Left None,
           saved table_id
             (SignupView._populate_display_names resolve
                (set_players (without_id uid (players t)) t)) w)
      | first :: rest =>
          (Left (Some first),
           saved table_id
             (SignupView._populate_display_names resolve
                (set_players (without_id uid (players t) ++ [first])
                   (set_waitlist rest t))) w)
      end
    else if any_id uid (waitlist t) then
      (LeftWaitlist,
       saved table_id
         (SignupView._populate_display_names resolve
            (set_waitlist (without_id uid (waitlist t)) t)) w)
    else (NotSignedUp, w).
Proof.
  intros H. unfold SignupView.leave_callback, bind, load_tables, ret. simpl.
  rewrite H.
  destruct (any_id uid (players t)).
  - destruct (waitlist t) eqn:Hw; simpl; rewrite ?Hw; reflexivity.
  - destruct (any_id uid (waitlist t)); reflexivity.
Qed.

(* ===================================================================== *)
(** * Leaving a table                                                     *)
(* ===================================================================== *)

(** The refresh of a cached display name keeps the id and the join time of
    an entry, gives it no other name than the one it has or the one the
    platform resolves, and keeps the name of an entry that has one. *)
Lemma populate_entry_keeps (resolve : Z -> option string) (entry : PlayerEntry) :
  id (populate_entry resolve entry) = id entry /\
  joined_at (populate_entry resolve entry) = joined_at entry /\
  (display_name (populate_entry resolve entry) = display_name entry \/
   display_name (populate_entry resolve entry) = resolve (id entry)) /\
  (forall name, display_name entry = Some name -> name <> "" ->
     populate_entry resolve entry = entry).
Proof.
  unfold populate_entry.
  destruct (truthy (display_name entry)) eqn:Hcached.
  - repeat split; auto.
  - assert (Hnone : forall name, display_name entry = Some name -> name <> "" ->
                      False).
    { intros name Hname Hfull. rewrite Hname in Hcached. cbn in Hcached.
      apply String.eqb_neq in Hfull. rewrite Hfull in Hcached. discriminate. }
    destruct (truthy (resolve (id entry))); destruct entry as [i j d];
      cbn in *; repeat split; auto;
      intros name Hname Hfull; destruct (Hnone name Hname Hfull).
Qed.

(** C2. On an active table whose waitlist is in [joined_at] order, [leave]
    by a roster member removes that member from the roster, where the other
    entries stay in their order, and, when the waitlist is not empty, takes
    its head, which joined no later than any other waiting entry, off the
    waitlist and puts it at the end of the roster; by an actor who is only
    waiting, it removes the actor from the waitlist and promotes nobody; by
    an actor in neither list it is refused and nothing is saved. With roster
    [A] and waitlist [B], after A leaves the roster is [B] and the waitlist
    is empty. Entries are the stored ones up to the refresh of cached
    display names, which keeps the id and the join time of an entry, and the
    name of an entry that has one. *)
Theorem leave_removes_and_promotes
    (table_id : string) (uid : Z) (resolve : Z -> option string)
    (w : World) (t : TableData) :
  active_file w !! table_id = Some t ->
  waitlist_sorted (waitlist t) ->
  let r := SignupView.leave_callback table_id uid resolve w in
  let fresh := map (populate_entry resolve) in
  let others := List.filter (fun entry => negb (id entry =? uid)) in
  (uid ∈ ids (players t) ->
     (uid ∉ ids (others (players t))) /\
     exists t', active_file (snd r) !! table_id = Some t' /\
       match waitlist t with
       | [] =>
           fst r = Left None /\
           players t' = fresh (others (players t)) /\
           waitlist t' = []
       | first :: rest =>
           fst r = Left (Some first) /\
           Forall (joined_le first) rest /\
           players t' = fresh (others (players t) ++ [first]) /\
           waitlist t' = fresh rest
       end) /\
  (uid ∉ ids (players t) -> uid ∈ ids (waitlist t) ->
     (uid ∉ ids (others (waitlist t))) /\
     fst r = LeftWaitlist /\
     exists t', active_file (snd r) !! table_id = Some t' /\
       players t' = fresh (players t) /\
       waitlist t' = fresh (others (waitlist t))) /\
  (uid ∉ ids (players t) -> uid ∉ ids (waitlist t) -> r = (NotSignedUp, w)) /\
  (forall A B : PlayerEntry,
     max_players t = 1 -> players t = [A] -> waitlist t = [B] -> uid = id A ->
     exists t', active_file (snd r) !! table_id = Some t' /\
       players t' = [populate_entry resolve B] /\ waitlist t' = [] /\
       ids (players t') = [id B]) /\
  (forall entry : PlayerEntry,
     id (populate_entry resolve entry) = id entry /\
     joined_at (populate_entry resolve entry) = joined_at entry /\
     (display_name (populate_entry resolve entry) = display_name entry \/
      display_name (populate_entry resolve entry) = resolve (id entry)) /\
     (forall name, display_name entry = Some name -> name <> "" ->
        populate_entry resolve entry = entry)).
Proof.
  intros Hlook Hsorted r fresh others. subst r others.
  rewrite (leave_callback_found _ _ _ _ _ Hlook). unfold without_id.
  split; [|split; [|split; [|split]]].
  - intros Hin. split; [apply without_id_gone|].
    apply any_id_true in Hin. rewrite Hin.
    destruct (waitlist t) as [|first rest] eqn:Hw; cbn [fst snd];
      rewrite lookup_saved; eexists; (split; [reflexivity|]); simpl.
    + rewrite Hw. auto.
    + repeat split. now apply waitlist_sorted_head.
  - intros Hnin Hin. split; [apply without_id_gone|].
    apply any_id_false in Hnin. apply any_id_true in Hin. rewrite Hnin, Hin.
    cbn [fst snd]. split; [reflexivity|].
    rewrite lookup_saved. eexists. split; [reflexivity|]. simpl. auto.
  - intros Hnin1 Hnin2. apply any_id_false in Hnin1, Hnin2. now rewrite Hnin1, Hnin2.
  - intros A B Hcap Hp Hwl ->.
    rewrite Hp, Hwl. unfold any_id. simpl existsb. rewrite Z.eqb_refl.
    simpl List.filter. rewrite Z.eqb_refl. cbn [orb negb app fst snd].
    rewrite lookup_saved. eexists. split; [reflexivity|]. simpl.
    repeat split. unfold ids. simpl. now rewrite populate_entry_id.
  - apply populate_entry_keeps.
Qed.

(* ===================================================================== *)
(** * Joining a table                                                     *)
(* ===================================================================== *)

Lemma map_stamp_populate (resolve : Z -> option string) (l : list PlayerEntry) :
  map stamp (map (populate_entry resolve) l) = map stamp l.
Proof.
  rewrite map_map. apply map_ext. intros e. unfold stamp.
  now rewrite populate_entry_id, populate_entry_joined_at.
Qed.

Lemma ids_of_stamps (l : list PlayerEntry) : ids l = map fst (map stamp l).
Proof. unfold ids. rewrite map_map. reflexivity. Qed.

Lemma joined_at_of_stamps (l : list PlayerEntry) :
  map joined_at l = map snd (map stamp l).
Proof. rewrite map_map. reflexivity. Qed.

Lemma waitlist_sorted_joined_at (l : list PlayerEntry) :
  waitlist_sorted l <-> nondecreasing (map joined_at l).
Proof.
  unfold waitlist_sorted, nondecreasing. induction l as [|a l IH]; simpl.
  - split; constructor.
  - split; intros H; apply Sorted_inv in H as [H1 H2]; constructor;
      try (apply IH; assumption);
      destruct l; simpl in *; constructor; now inversion H2.
Qed.

Lemma nondecreasing_skipn (n : nat) (l : list string) :
  nondecreasing l -> nondecreasing (skipn n l).
Proof.
  unfold nondecreasing. revert l. induction n as [|n IH]; intros l Hs; simpl; [assumption|].
  destruct l as [|a l]; [constructor|]. apply IH. now apply Sorted_inv in Hs as [H _].
Qed.

Lemma run_events_app (evs1 evs2 : list event) (w : World) :
  snd (run_events (evs1 ++ evs2) w) = snd (run_events evs2 (snd (run_events evs1 w))).
Proof.
  revert w. induction evs1 as [|ev evs1 IH]; intros w; simpl; [reflexivity|].
  unfold bind. destruct (run_event ev w) as [u w1]. apply IH.
Qed.

Lemma run_join (table_id : string) (c : JoinCall) (w : World) :
  snd (run_events (join_calls table_id [c]) w)
  = snd (SignupView.join_callback table_id (call_uid c) (call_uname c) (call_now c)
           (call_resolve c) w).
Proof.
  simpl. unfold bind, ret.
  destruct (SignupView.join_callback _ _ _ _ _ w) as [r w1]. reflexivity.
Qed.

(** Joins by distinct actors on a table that starts empty fill the roster
    in join order up to the capacity and queue the rest in join order. *)
Lemma joins_fill_then_queue (table_id : string) (w : World) (t0 : TableData) :
  active_file w !! table_id = Some t0 ->
  players t0 = [] -> waitlist t0 = [] -> 0 <= max_players t0 ->
  forall calls : list JoinCall,
    NoDup (map call_uid calls) ->
    exists t,
      active_file (snd (run_events (join_calls table_id calls) w)) !! table_id = Some t /\
      max_players t = max_players t0 /\
      map stamp (players t) = firstn (Z.to_nat (max_players t0)) (map call_stamp calls) /\
      map stamp (waitlist t) = skipn (Z.to_nat (max_players t0)) (map call_stamp calls).
Proof.
  intros Hlook Hp Hw Hcap calls. induction calls as [|c calls IH] using rev_ind; intros Hnd.
  - exists t0. simpl. rewrite Hp, Hw, firstn_nil, skipn_nil. auto.
  - rewrite map_app in Hnd. apply NoDup_app in Hnd as (Hnd & Hfresh & _).
    destruct (IH Hnd) as (t & Ht & Hmax & Hps & Hws).
    unfold join_calls in *. rewrite map_app, run_events_app.
    fold (join_calls table_id calls) in *. fold (join_calls table_id [c]).
    set (w1 := snd (run_events (join_calls table_id calls) w)) in *.
    rewrite run_join, (join_callback_found _ _ _ _ _ _ _ Ht).
    assert (Hall : ids (players t) ++ ids (waitlist t) = map call_uid calls).
    { rewrite !ids_of_stamps, Hps, Hws, <- map_app, firstn_skipn, map_map. reflexivity. }
    assert (Hnew : call_uid c ∉ map call_uid calls).
    { intros Hin. apply (Hfresh _ Hin). simpl. left. }
    assert (Hn1 : any_id (call_uid c) (players t) = false).
    { apply any_id_false. intros Hin. apply Hnew. rewrite <- Hall.
      apply elem_of_app. auto. }
    assert (Hn2 : any_id (call_uid c) (waitlist t) = false).
    { apply any_id_false. intros Hin. apply Hnew. rewrite <- Hall.
      apply elem_of_app. auto. }
    rewrite Hn1, Hn2.
    assert (Hlen : length (players t)
                   = Nat.min (Z.to_nat (max_players t0)) (length calls)).
    { rewrite <- (length_map stamp), Hps, length_firstn, length_map. reflexivity. }
    rewrite map_app. simpl map.
    destruct (Z.of_nat (length (players t)) >=? max_players t) eqn:Hfull;
      cbn [snd]; rewrite lookup_saved; eexists; (split; [reflexivity|]); simpl;
      rewrite !map_stamp_populate, ?map_app, Hps, Hws, Hmax; (split; [reflexivity|]).
    + assert (Hge : (Z.to_nat (max_players t0) <= length calls)%nat) by lia.
      rewrite firstn_app, skipn_app, length_map.
      replace (Z.to_nat (max_players t0) - length calls)%nat with O by lia.
      simpl. rewrite app_nil_r. auto.
    + assert (Hlt : (length calls < Z.to_nat (max_players t0))%nat) by lia.
      rewrite (firstn_all2 (map call_stamp calls)) by (rewrite length_map; lia).
      rewrite (firstn_all2 (map call_stamp calls ++ _))
        by (rewrite length_app, length_map; simpl; lia).
      rewrite (skipn_all2 (map call_stamp calls)) by (rewrite length_map; lia).
      rewrite (skipn_all2 (map call_stamp calls ++ _))
        by (rewrite length_app, length_map; simpl; lia).
      auto.
Qed.

Lemma check_form_accepts (system_value schedule_value infos_value : string)
    (max_players : option Z) (c : Z) :
  check_form system_value schedule_value infos_value max_players = inr c ->
  max_players = Some c /\ 1 <= c <= 20 /\
  system_value <> "" /\ schedule_value <> "" /\ infos_value <> "" /\
  len system_value <= 100 /\
  len schedule_value <= 120 /\
  len infos_value <= 1024.
Proof.
  unfold check_form. destruct max_players as [m|]; [|discriminate].
  destruct (m <=? 0) eqn:H1; [discriminate|].
  destruct (m >? 20) eqn:H2; [discriminate|].
  destruct (String.eqb system_value "") eqn:H3; [discriminate|].
  destruct (String.eqb schedule_value "") eqn:H4; [discriminate|].
  destruct (String.eqb infos_value "") eqn:H5; [discriminate|].
  destruct (len system_value >? 100) eqn:H6; [discriminate|].
  destruct (len schedule_value >? 120) eqn:H7; [discriminate|].
  destruct (len infos_value >? 1024) eqn:H8; [discriminate|].
  intros [= <-]. apply String.eqb_neq in H3, H4, H5.
  repeat split; auto; lia.
Qed.

(** A table that was just created: no roster, no waitlist, the capacity of
    the form, and no archive stamp. *)
Lemma on_submit_created (uid : Z) (system_value schedule_value infos_value : string)
    (max_players_value : option Z) (table_id now : string) (guild : option Z)
    (post : PostResult) (w w1 : World) :
  NewTableModal.on_submit uid system_value schedule_value infos_value max_players_value
    table_id now guild post w = (Created, w1) ->
  exists t0 c,
    max_players_value = Some c /\ 1 <= c <= 20 /\
    active_file w1 !! table_id = Some t0 /\
    players t0 = [] /\ waitlist t0 = [] /\ max_players t0 = c /\
    archive_reason t0 = None /\ archived_at t0 = None /\ archived_by t0 = None.
Proof.
  unfold NewTableModal.on_submit.
  destruct (check_form system_value schedule_value infos_value max_players_value) as [e|c] eqn:Hc.
  - unfold ret. intros [=].
  - apply check_form_accepts in Hc as (-> & Hr & _).
    unfold bind, load_tables, ret, save_tables.
    destruct post as [| |message_id channel_id]; intros [= <-].
    cbn [active_file]. rewrite lookup_fmap, lookup_insert_eq. simpl.
    eexists _, c. repeat split; try reflexivity; lia.
Qed.

(** C3 (as the code has it). [join] is refused, and nothing is saved, when
    the actor is already in the roster or on the waitlist. Otherwise the actor is put at the end
    of the roster with [joined_at = now] and seated when the roster is
    shorter than the capacity, and put at the end of the waitlist and
    waitlisted when it is not; the waitlist stays in [joined_at] order when
    [now] is not earlier than the stamps already on it. Hence, on a table
    just created, joins by distinct actors that outnumber the capacity leave
    a roster whose length is the capacity, holding the first actors, and the
    others on the waitlist in the order of their joins, which is the order
    of their stamps when the clock did not run backwards. Entries are the
    stored ones up to the refresh of cached display names, which keeps the
    id and the join time of an entry, and the name of an entry that has
    one. *)
Theorem join_seats_then_waitlists
    (table_id : string) (w : World) (t : TableData) :
  active_file w !! table_id = Some t ->
  (forall (uid : Z) (uname now : string) (resolve : Z -> option string),
     let r := SignupView.join_callback table_id uid uname now resolve w in
     let fresh := map (populate_entry resolve) in
     let entry := mkPlayerEntry uid now (Some uname) in
     (uid ∈ ids (players t) -> r = (AlreadySignedUp, w)) /\
     (uid ∉ ids (players t) -> uid ∈ ids (waitlist t) -> r = (AlreadyOnWaitlist, w)) /\
     (uid ∉ ids (players t) -> uid ∉ ids (waitlist t) ->
        exists t', active_file (snd r) !! table_id = Some t' /\
          max_players t' = max_players t /\
          (Z.of_nat (length (players t)) < max_players t ->
             fst r = Seated /\
             players t' = fresh (players t ++ [entry]) /\
             waitlist t' = fresh (waitlist t)) /\
          (max_players t <= Z.of_nat (length (players t)) ->
             fst r = Waitlisted /\
             players t' = fresh (players t) /\
             waitlist t' = fresh (waitlist t ++ [entry]) /\
             (waitlist_sorted (waitlist t) ->
              Forall (fun e => String.leb (joined_at e) now = true) (waitlist t) ->
              waitlist_sorted (waitlist t'))))) /\
  (players t = [] -> waitlist t = [] -> 0 <= max_players t ->
   forall calls : list JoinCall,
     NoDup (map call_uid calls) ->
     Z.of_nat (length calls) > max_players t ->
     exists t',
       active_file (snd (run_events (join_calls table_id calls) w)) !! table_id = Some t' /\
       Z.of_nat (length (players t')) = max_players t' /\
       max_players t' = max_players t /\
       map stamp (players t') = firstn (Z.to_nat (max_players t)) (map call_stamp calls) /\
       map stamp (waitlist t') = skipn (Z.to_nat (max_players t)) (map call_stamp calls) /\
       (nondecreasing (map call_now calls) -> waitlist_sorted (waitlist t'))) /\
  (forall (resolve : Z -> option string) (entry : PlayerEntry),
     id (populate_entry resolve entry) = id entry /\
     joined_at (populate_entry resolve entry) = joined_at entry /\
     (display_name (populate_entry resolve entry) = display_name entry \/
      display_name (populate_entry resolve entry) = resolve (id entry)) /\
     (forall name, display_name entry = Some name -> name <> "" ->
        populate_entry resolve entry = entry)).
Proof.
  intros Hlook. split; [|split; [|apply populate_entry_keeps]].
  - intros uid uname now resolve r fresh entry. subst r.
    rewrite (join_callback_found _ _ _ _ _ _ _ Hlook).
    split; [|split].
    + intros Hin. apply any_id_true in Hin. now rewrite Hin.
    + intros Hnin Hin. apply any_id_false in Hnin. apply any_id_true in Hin.
      now rewrite Hnin, Hin.
    + intros Hn1 Hn2. apply any_id_false in Hn1, Hn2. rewrite Hn1, Hn2.
      destruct (Z.of_nat (length (players t)) >=? max_players t) eqn:Hfull;
        cbn [fst snd]; rewrite lookup_saved; eexists; (split; [reflexivity|]);
        simpl; (split; [reflexivity|]); split; intros Hcmp; try lia.
      * repeat split. intros Hs Hall. apply populate_sorted.
        apply waitlist_sorted_snoc; assumption.
      * repeat split.
  - intros Hp Hw Hcap calls Hnd Hmany.
    destruct (joins_fill_then_queue table_id w t Hlook Hp Hw Hcap calls Hnd)
      as (t' & Ht' & Hmax & Hps & Hws).
    exists t'. repeat split; try assumption.
    + rewrite <- (length_map stamp), Hps, length_firstn, length_map, Hmax. lia.
    + intros Hmono. apply waitlist_sorted_joined_at.
      rewrite joined_at_of_stamps, Hws, <- skipn_map, map_map. simpl.
      now apply nondecreasing_skipn.
Qed.

(** C3, the claim as worded fails: [join] puts the actor at the end of the
    waitlist and sorts nothing. On a full table whose waitlist, in order,
    holds a stamp of eleven o'clock, a join made at half past ten is put
    behind it, and the waitlist is no longer in [joined_at] order. *)
Lemma join_leaves_the_waitlist_out_of_order :
  let now := "2025-01-01T10:30:00+00:00" in
  let r := SignupView.join_callback "table-1" 3 "Carol" now Sample.no_names
             Sample.full_world in
  active_file Sample.full_world !! "table-1" = Some Sample.full_table /\
  waitlist_sorted (waitlist Sample.full_table) /\
  fst r = Waitlisted /\
  exists t',
    active_file (snd r) !! "table-1" = Some t' /\
    waitlist t' = [Sample.bob; mkPlayerEntry 3 now (Some "Carol")] /\
    ~ waitlist_sorted (waitlist t').
Proof.
  cbv zeta. split; [reflexivity|].
  split; [apply waitlist_sortedb_spec; reflexivity|].
  split; [reflexivity|].
  eexists. split; [vm_compute; reflexivity|].
  split; [reflexivity|].
  intros Hsorted. apply waitlist_sortedb_spec in Hsorted. discriminate.
Qed.

(* ===================================================================== *)
(** * Editing a table                                                     *)
(* ===================================================================== *)

Lemma pop_excess_app (cap : Z) (kept : list PlayerEntry) :
  Z.of_nat (length kept) = cap ->
  forall (excess moved : list PlayerEntry) (fuel : nat),
    (length excess <= fuel)%nat ->
    pop_excess fuel cap (kept ++ excess) moved = (kept, moved ++ rev excess).
Proof.
  intros Hkept excess. induction excess as [|x excess IH] using rev_ind;
    intros moved fuel Hfuel.
  - rewrite !app_nil_r. destruct fuel; simpl; [reflexivity|].
    replace (Z.of_nat (length kept) >? cap) with false by lia. reflexivity.
  - rewrite length_app in Hfuel. simpl in Hfuel.
    destruct fuel as [|fuel]; [lia|]. simpl.
    replace (Z.of_nat (length (kept ++ excess ++ [x])) >? cap) with true
      by (symmetry; apply Z.gtb_lt; rewrite !length_app; cbn [length]; lia).
    rewrite app_assoc, last_snoc, removelast_last, IH by lia.
    rewrite rev_unit, <- app_assoc. reflexivity.
Qed.

Lemma pop_excess_firstn (cap : Z) (roster : list PlayerEntry) :
  0 <= cap < Z.of_nat (length roster) ->
  pop_excess (length roster) cap roster []
  = (firstn (Z.to_nat cap) roster, rev (skipn (Z.to_nat cap) roster)).
Proof.
  intros Hcap. rewrite <- (firstn_skipn (Z.to_nat cap) roster) at 2.
  rewrite pop_excess_app.
  - reflexivity.
  - rewrite length_firstn. lia.
  - rewrite length_skipn. lia.
Qed.

Lemma edit_on_submit_found (table_id : string)
    (system_value schedule_value infos_value : string) (max_players : option Z)
    (c : Z) (w : World) (t : TableData) :
  check_form system_value schedule_value infos_value max_players = inr c ->
  active_file w !! table_id = Some t ->
  EditTableModal.on_submit table_id system_value schedule_value infos_value
    max_players w =
    let t1 := set_edit_fields system_value schedule_value infos_value c t in
    if Z.of_nat (length (players t)) >? c then
      (Edited (rev (skipn (Z.to_nat c) (players t))),
       saved table_id
         (set_waitlist
            (sort_by_joined_at (waitlist t ++ rev (skipn (Z.to_nat c) (players t))))
            (set_players (firstn (Z.to_nat c) (players t)) t1)) w)
    else (Edited [], saved table_id t1 w).
Proof.
  intros Hc Hlook. pose proof (check_form_accepts _ _ _ _ _ Hc) as (_ & Hr & _).
  unfold EditTableModal.on_submit. rewrite Hc.
  unfold bind, load_tables, ret. simpl. rewrite Hlook.
  destruct (Z.of_nat (length (players t)) >? c) eqn:Hgt.
  - rewrite pop_excess_firstn by lia. reflexivity.
  - reflexivity.
Qed.

(** In a roster in [joined_at] order, the entries beyond a position joined
    no earlier than those before it. *)
Lemma sorted_roster_end (n : nat) (l : list PlayerEntry) :
  Sorted joined_le l ->
  Forall (fun moved => Forall (fun kept => joined_le kept moved) (take n l))
    (rev (drop n l)).
Proof.
  intros Hs. apply Sorted_StronglySorted in Hs; [|apply joined_le_trans].
  rewrite <- (take_drop n l) in Hs.
  apply Forall_forall. intros moved Hmoved.
  apply list_elem_of_In, List.in_rev, list_elem_of_In in Hmoved.
  apply Forall_forall. intros kept Hkept.
  revert Hs Hkept. generalize (take n l) as before.
  induction before as [|first before IH]; intros Hs Hkept; [inversion Hkept|].
  cbn [app] in Hs. apply StronglySorted_inv in Hs as [Hs Hfirst].
  apply elem_of_cons in Hkept as [-> | Hkept]; [|now apply IH].
  rewrite Forall_forall in Hfirst. apply Hfirst. apply elem_of_app. now right.
Qed.

(** C4 (as the code has it). A valid edit whose new capacity is below the
    roster length takes exactly [len(roster) - capacity] entries off the end
    of the roster, last one first, returns them in that order, and stores as
    waitlist the old waitlist with those entries added, sorted by
    [joined_at] by a stable sort. The entries at the end of the roster are
    the last that were seated; they are the last that joined when the roster
    is in [joined_at] order, which a promotion from the waitlist can undo.
    For a roster [A, B, C] with B stamped before C and an empty waitlist, an
    edit to capacity 1 demotes [C, B] and leaves the waitlist [B, C]. *)
Theorem edit_demotes_from_the_end
    (table_id : string) (system_value schedule_value infos_value : string)
    (c : Z) (w : World) (t : TableData) :
  check_form system_value schedule_value infos_value (Some c) = inr c ->
  active_file w !! table_id = Some t ->
  c < Z.of_nat (length (players t)) ->
  let r := EditTableModal.on_submit table_id system_value schedule_value
             infos_value (Some c) w in
  let demoted := rev (skipn (Z.to_nat c) (players t)) in
  exists t',
    fst r = Edited demoted /\
    active_file (snd r) !! table_id = Some t' /\
    max_players t' = c /\
    Z.of_nat (length demoted) = Z.of_nat (length (players t)) - c /\
    players t = players t' ++ rev demoted /\
    Z.of_nat (length (players t')) = c /\
    waitlist t' = sort_by_joined_at (waitlist t ++ demoted) /\
    waitlist t' ≡ₚ waitlist t ++ demoted /\
    waitlist_sorted (waitlist t') /\
    (Sorted joined_le (players t) ->
     Forall (fun moved => Forall (fun kept => joined_le kept moved) (players t'))
       demoted) /\
    (forall A B C : PlayerEntry,
       players t = [A; B; C] -> waitlist t = [] -> c = 1 ->
       String.ltb (joined_at B) (joined_at C) = true ->
       demoted = [C; B] /\ waitlist t' = [B; C]).
Proof.
  intros Hc Hlook Hlt r demoted. subst r demoted.
  pose proof (check_form_accepts _ _ _ _ _ Hc) as (_ & Hr & _).
  rewrite (edit_on_submit_found _ _ _ _ _ _ _ _ Hc Hlook). cbv zeta.
  replace (Z.of_nat (length (players t)) >? c) with true by lia.
  cbn [fst snd]. rewrite lookup_saved. eexists. split; [reflexivity|].
  split; [reflexivity|]. simpl.
  split; [reflexivity|].
  split; [rewrite length_rev, length_skipn; lia|].
  split; [now rewrite rev_involutive, firstn_skipn|].
  split; [rewrite length_firstn; lia|].
  split; [reflexivity|].
  split; [apply sort_by_joined_at_perm|].
  split; [apply sort_by_joined_at_sorted|].
  split; [apply sorted_roster_end|].
  intros A B C Hp Hw -> HBC. rewrite Hp, Hw. simpl.
  rewrite (string_ltb_leb_false _ _ HBC). auto.
Qed.

(** C4, the claim as worded fails: the end of the roster is not always the
    most recent join. Alice is seated at ten and Bob waits from eleven; a
    second seat lets Carol in at twelve; Alice leaves and Bob moves up,
    behind Carol. An edit to one seat then demotes Bob, who joined before
    Carol, and Carol, the most recent join, keeps the seat. *)
Lemma edit_demotes_an_earlier_join :
  let w := snd (run_events Sample.promotion_history Sample.created_world) in
  let r := EditTableModal.on_submit "table-1" "Test System" "Soon" "Test" (Some 1) w in
  let bob := mkPlayerEntry 2 "2025-01-01T11:00:00+00:00" (Some "Bob") in
  let carol := mkPlayerEntry 3 "2025-01-01T12:00:00+00:00" (Some "Carol") in
  exists t t',
    active_file w !! "table-1" = Some t /\
    players t = [carol; bob] /\ waitlist t = [] /\ max_players t = 2 /\
    String.ltb (joined_at bob) (joined_at carol) = true /\
    fst r = Edited [bob] /\
    active_file (snd r) !! "table-1" = Some t' /\
    players t' = [carol] /\ waitlist t' = [bob].
Proof.
  cbv zeta. eexists _, _.
  split; [vm_compute; reflexivity|].
  split; [reflexivity|]. split; [reflexivity|]. split; [reflexivity|].
  split; [reflexivity|].
  split; [vm_compute; reflexivity|].
  split; [vm_compute; reflexivity|].
  split; reflexivity.
Qed.

(* ===================================================================== *)
(** * Uniqueness of participants                                          *)
(* ===================================================================== *)

Lemma without_id_sublist (uid : Z) (bucket : list PlayerEntry) :
  ids (without_id uid bucket) `sublist_of` ids bucket.
Proof.
  unfold ids, without_id. induction bucket as [|e l IH]; simpl; [constructor|].
  destruct (negb (id e =? uid)); simpl; now constructor.
Qed.

Lemma unique_ids_populate (resolve : Z -> option string) (t : TableData) :
  unique_ids t -> unique_ids (SignupView._populate_display_names resolve t).
Proof. unfold unique_ids. simpl. now rewrite !ids_populate. Qed.

Lemma unique_ids_clear (t : TableData) :
  unique_ids t -> unique_ids (set_archive_reason None t).
Proof. auto. Qed.

Lemma unique_ids_seat (e : PlayerEntry) (t : TableData) :
  id e ∉ ids (players t) -> id e ∉ ids (waitlist t) ->
  unique_ids t -> unique_ids (set_players (players t ++ [e]) t).
Proof.
  unfold unique_ids. simpl. intros H1 H2 Hnd.
  rewrite ids_app. simpl.
  assert (Hp : (ids (players t) ++ [id e]) ++ ids (waitlist t)
               ≡ₚ id e :: (ids (players t) ++ ids (waitlist t))).
  { rewrite <- app_assoc. simpl. now rewrite <- Permutation_middle. }
  rewrite Hp. apply NoDup_cons. split; [|assumption].
  rewrite elem_of_app. tauto.
Qed.

Lemma unique_ids_queue (e : PlayerEntry) (t : TableData) :
  id e ∉ ids (players t) -> id e ∉ ids (waitlist t) ->
  unique_ids t -> unique_ids (set_waitlist (waitlist t ++ [e]) t).
Proof.
  unfold unique_ids. simpl. intros H1 H2 Hnd.
  rewrite ids_app. simpl.
  assert (Hp : ids (players t) ++ ids (waitlist t) ++ [id e]
               ≡ₚ id e :: (ids (players t) ++ ids (waitlist t))).
  { rewrite app_assoc. now rewrite <- Permutation_cons_append. }
  rewrite Hp. apply NoDup_cons. split; [|assumption].
  rewrite elem_of_app. tauto.
Qed.

Lemma unique_ids_leave_roster (uid : Z) (t : TableData) :
  unique_ids t ->
  unique_ids (set_players (without_id uid (players t)) t) /\
  forall first rest, waitlist t = first :: rest ->
    unique_ids (set_players (without_id uid (players t) ++ [first])
                  (set_waitlist rest t)).
Proof.
  unfold unique_ids. simpl. intros Hnd. split.
  - eapply sublist_NoDup; [exact Hnd|].
    apply sublist_app; [apply without_id_sublist | reflexivity].
  - intros first rest Hw. rewrite Hw in Hnd. simpl in Hnd.
    rewrite ids_app, <- app_assoc. simpl.
    eapply sublist_NoDup; [exact Hnd|].
    apply sublist_app; [apply without_id_sublist | reflexivity].
Qed.

Lemma unique_ids_leave_waitlist (uid : Z) (t : TableData) :
  unique_ids t -> unique_ids (set_waitlist (without_id uid (waitlist t)) t).
Proof.
  unfold unique_ids. simpl. intros Hnd.
  eapply sublist_NoDup; [exact Hnd|].
  apply sublist_app; [reflexivity | apply without_id_sublist].
Qed.

Lemma unique_ids_demote (n : nat) (sys sched inf : string) (c : Z) (t : TableData) :
  unique_ids t ->
  unique_ids
    (set_waitlist (sort_by_joined_at (waitlist t ++ rev (skipn n (players t))))
       (set_players (firstn n (players t))
          (set_edit_fields sys sched inf c t))).
Proof.
  unfold unique_ids. simpl. intros Hnd.
  assert (Hp : ids (firstn n (players t))
               ++ ids (sort_by_joined_at (waitlist t ++ rev (skipn n (players t))))
               ≡ₚ ids (players t) ++ ids (waitlist t)).
  { unfold ids. rewrite sort_by_joined_at_perm, map_app, map_rev, <- Permutation_rev.
    rewrite (Permutation_app_comm (map id (waitlist t))), app_assoc, <- map_app.
    now rewrite firstn_skipn. }
  now rewrite Hp.
Qed.

(** Whatever an event does, it either saves nothing, or saves the active
    partition with one table replaced by a table that has unique ids if the
    replaced one had. *)
Lemma run_event_cases (ev : event) (w : World) :
  snd (run_event ev w) = w \/
  exists table_id t0 t1,
    active_file w !! table_id = Some t0 /\
    snd (run_event ev w) = saved table_id t1 w /\
    (unique_ids t0 -> unique_ids t1).
Proof.
  destruct ev as [table_id uid uname now resolve | table_id uid resolve
                 | table_id sys sched inf mp]; simpl; unfold bind, ret.
  - destruct (active_file w !! table_id) as [t|] eqn:Hlook.
    + rewrite (join_callback_found _ _ _ _ _ _ _ Hlook).
      destruct (any_id uid (players t)) eqn:H1; [now left|].
      destruct (any_id uid (waitlist t)) eqn:H2; [now left|].
      apply any_id_false in H1, H2.
      destruct (Z.of_nat (length (players t)) >=? max_players t);
        right; exists table_id, t; eexists; (split; [assumption|]);
        (split; [reflexivity|]); intros Hu; apply unique_ids_populate.
      * now apply unique_ids_queue.
      * now apply unique_ids_seat.
    + rewrite (join_callback_missing _ _ _ _ _ _ Hlook). now left.
  - destruct (active_file w !! table_id) as [t|] eqn:Hlook.
    + rewrite (leave_callback_found _ _ _ _ _ Hlook).
      destruct (any_id uid (players t)) eqn:H1.
      * destruct (waitlist t) as [|first rest] eqn:Hw;
          right; exists table_id, t; eexists; (split; [assumption|]);
          (split; [reflexivity|]); intros Hu; apply unique_ids_populate.
        -- now apply unique_ids_leave_roster.
        -- apply (unique_ids_leave_roster uid t Hu). assumption.
      * destruct (any_id uid (waitlist t)) eqn:H2; [|now left].
        right; exists table_id, t; eexists; (split; [assumption|]);
          (split; [reflexivity|]); intros Hu; apply unique_ids_populate.
        now apply unique_ids_leave_waitlist.
    + rewrite (leave_callback_missing _ _ _ _ Hlook). now left.
  - destruct (check_form sys sched inf mp) as [e|c] eqn:Hc.
    + unfold EditTableModal.on_submit. rewrite Hc. now left.
    + destruct (active_file w !! table_id) as [t|] eqn:Hlook.
      * rewrite (edit_on_submit_found _ _ _ _ _ _ _ _ Hc Hlook). cbv zeta.
        destruct (Z.of_nat (length (players t)) >? c);
          right; exists table_id, t; eexists; (split; [assumption|]);
          (split; [reflexivity|]); intros Hu.
        -- now apply unique_ids_demote.
        -- exact Hu.
      * unfold EditTableModal.on_submit. rewrite Hc.
        unfold bind, load_tables, ret. simpl. rewrite Hlook. now left.
Qed.

Lemma unique_ids_step (table_id : string) (ev : event) (w : World) :
  (forall t, active_file w !! table_id = Some t -> unique_ids t) ->
  forall t, active_file (snd (run_event ev w)) !! table_id = Some t -> unique_ids t.
Proof.
  intros Hinv t.
  destruct (run_event_cases ev w) as [-> | (tid & t0 & t1 & Hlook & -> & Hkeep)];
    [apply Hinv|].
  destruct (decide (tid = table_id)) as [-> | Hne].
  - rewrite lookup_saved. intros [= <-]. apply unique_ids_clear. auto.
  - rewrite lookup_saved_ne by assumption.
    destruct (active_file w !! table_id) as [t'|] eqn:Ht; simpl; intros [= <-].
    apply unique_ids_clear. auto.
Qed.

Lemma unique_ids_run (table_id : string) (evs : list event) (w : World) :
  (forall t, active_file w !! table_id = Some t -> unique_ids t) ->
  forall t, active_file (snd (run_events evs w)) !! table_id = Some t -> unique_ids t.
Proof.
  revert w. induction evs as [|ev evs IH]; intros w Hinv; simpl; [assumption|].
  unfold bind. destruct (run_event ev w) as [u w1] eqn:Hev.
  apply IH. replace w1 with (snd (run_event ev w)) by now rewrite Hev.
  now apply unique_ids_step.
Qed.

(** C7. In every table record reached from a table just created by any
    sequence of join, leave and edit events, on this or on other tables, a
    user id occurs at most once in the roster and the waitlist taken
    together: not twice in the roster, not twice in the waitlist, and not in
    both. *)
Theorem participants_stay_unique
    (uid : Z) (system_value schedule_value infos_value : string)
    (max_players : option Z) (table_id now : string) (guild : option Z)
    (post : PostResult) (w0 w1 : World) (evs : list event) (t : TableData) :
  NewTableModal.on_submit uid system_value schedule_value infos_value max_players
    table_id now guild post w0 = (Created, w1) ->
  active_file (snd (run_events evs w1)) !! table_id = Some t ->
  NoDup (ids (players t) ++ ids (waitlist t)) /\
  NoDup (ids (players t)) /\ NoDup (ids (waitlist t)) /\
  (forall u, u ∈ ids (players t) -> u ∉ ids (waitlist t)).
Proof.
  intros Hcreate Hreach.
  assert (Hu : unique_ids t).
  { apply (unique_ids_run table_id evs w1); [|assumption].
    intros t0 Ht0.
    destruct (on_submit_created _ _ _ _ _ _ _ _ _ _ _ Hcreate)
      as (t0' & c & _ & _ & Hlook & Hp & Hw & _).
    rewrite Hlook in Ht0. injection Ht0 as <-.
    unfold unique_ids. rewrite Hp, Hw. constructor. }
  split; [exact Hu|]. unfold unique_ids in Hu.
  apply NoDup_app in Hu as (H1 & H2 & H3). auto.
Qed.

(* ===================================================================== *)
(** * Refused calls                                                       *)
(* ===================================================================== *)

(** C10. A refused [join] (table id not active, or actor already in the
    roster or on the waitlist) and a refused [leave] (table id not active,
    or actor in neither list) make no call to [save_tables]: the store after
    the call, with both partitions and the count of saves, is the store
    before it. *)
Theorem refused_calls_save_nothing
    (table_id : string) (uid : Z) (uname now : string)
    (resolve : Z -> option string) (w : World) :
  let rj := SignupView.join_callback table_id uid uname now resolve w in
  let rl := SignupView.leave_callback table_id uid resolve w in
  (active_file w !! table_id = None -> rj = (JoinNoTable, w)) /\
  (forall t, active_file w !! table_id = Some t ->
     uid ∈ ids (players t) \/ uid ∈ ids (waitlist t) ->
     (fst rj = AlreadySignedUp \/ fst rj = AlreadyOnWaitlist) /\ snd rj = w) /\
  (fst rj = JoinNoTable \/ fst rj = AlreadySignedUp \/ fst rj = AlreadyOnWaitlist ->
     snd rj = w /\ writes (snd rj) = writes w /\
     active_file (snd rj) = active_file w /\ archived_file (snd rj) = archived_file w) /\
  (active_file w !! table_id = None -> rl = (LeaveNoTable, w)) /\
  (forall t, active_file w !! table_id = Some t ->
     uid ∉ ids (players t) -> uid ∉ ids (waitlist t) -> rl = (NotSignedUp, w)) /\
  (fst rl = LeaveNoTable \/ fst rl = NotSignedUp ->
     snd rl = w /\ writes (snd rl) = writes w /\
     active_file (snd rl) = active_file w /\ archived_file (snd rl) = archived_file w).
Proof.
  intros rj rl. subst rj rl.
  destruct (active_file w !! table_id) as [t|] eqn:Hlook.
  - rewrite (join_callback_found _ _ _ _ _ _ _ Hlook),
            (leave_callback_found _ _ _ _ _ Hlook).
    split; [discriminate|]. split; [|split; [|split; [discriminate|split]]].
    + intros t' [= <-] Hin.
      destruct (any_id uid (players t)) eqn:H1; [auto|].
      destruct (any_id uid (waitlist t)) eqn:H2; [auto|].
      apply any_id_false in H1, H2. tauto.
    + destruct (any_id uid (players t)); [auto|].
      destruct (any_id uid (waitlist t)); [auto|].
      destruct (Z.of_nat (length (players t)) >=? max_players t); simpl;
        intros [H | [H | H]]; discriminate.
    + intros t' [= <-] H1 H2. apply any_id_false in H1, H2. now rewrite H1, H2.
    + destruct (any_id uid (players t)).
      * destruct (waitlist t); simpl; intros [H | H]; discriminate.
      * destruct (any_id uid (waitlist t)); [|auto].
        simpl; intros [H | H]; discriminate.
  - rewrite (join_callback_missing _ _ _ _ _ _ Hlook),
            (leave_callback_missing _ _ _ _ Hlook).
    repeat split; auto; discriminate.
Qed.

(* ===================================================================== *)
(** * Archiving a table                                                   *)
(* ===================================================================== *)

Lemma select_callback_found (uid : Z) (table_id : string) (more : list string)
    (manage_messages : Z -> Z -> bool) (w : World) (t : TableData) :
  table_id <> "no_tables" ->
  active_file w !! table_id = Some t ->
  ArchiveView.select_callback uid uid (table_id :: more) manage_messages w =
    let archive reason :=
      (Archived reason,
       mkWorld (set_archive_reason None <$> delete table_id (active_file w))
         (<[table_id := set_archive_reason (Some reason) t]> (archived_file w))
         (S (writes w))) in
    if uid =? creator_id t then archive OWNER
    else if manage_messages (channel_id t) uid then archive MOD
    else (ArchiveForbidden, w).
Proof.
  intros Hne Hlook. unfold ArchiveView.select_callback.
  rewrite Z.eqb_refl. simpl negb. cbv iota.
  apply String.eqb_neq in Hne. rewrite Hne.
  unfold bind, load_tables, ret, save_tables. simpl. rewrite Hlook.
  destruct (uid =? creator_id t); simpl; [reflexivity|].
  destruct (manage_messages (channel_id t) uid); reflexivity.
Qed.

(** What the loop of [archive_tables] leaves in the two partitions. *)
Lemma archive_fold_lookup (reason : ArchiveReason) (table_ids : list string) :
  forall (active archived : gmap string TableData) (n : nat),
    let '(active', archived', n') :=
      fold_left (archive_one reason) table_ids (active, archived, n) in
    (n <= n')%nat /\
    forall k : string,
      (active !! k = None -> active' !! k = None /\ archived' !! k = archived !! k) /\
      (k ∉ table_ids -> active' !! k = active !! k /\ archived' !! k = archived !! k) /\
      (forall t, k ∈ table_ids -> active !! k = Some t ->
         active' !! k = None /\
         archived' !! k = Some (set_archive_reason (Some reason) t) /\
         (n < n')%nat).
Proof.
  induction table_ids as [|x rest IH]; intros active archived n.
  - simpl. split; [lia|]. intros k. split; [auto|]. split; [auto|].
    intros t Hin. inversion Hin.
  - cbn [fold_left].
    assert (Hstep : archive_one reason (active, archived, n) x =
                    match active !! x with
                    | None => (active, archived, n)
                    | Some record =>
                        (delete x active,
                         <[x := set_archive_reason (Some reason) record]> archived,
                         S n)
                    end) by reflexivity.
    rewrite Hstep. clear Hstep.
    destruct (active !! x) as [tx|] eqn:Hx.
    + specialize (IH (delete x active)
                     (<[x := set_archive_reason (Some reason) tx]> archived) (S n)).
      destruct (fold_left (archive_one reason) rest _) as [[a' r'] n'].
      destruct IH as [Hn IH]. split; [lia|]. intros k.
      destruct (IH k) as (IH1 & IH2 & IH3).
      destruct (decide (x = k)) as [-> | Hne].
      * destruct (IH1 (lookup_delete_eq _ _)) as [Ha Hr].
        rewrite lookup_insert_eq in Hr.
        split; [congruence|].
        split; [intros Hnin; exfalso; apply Hnin; left|].
        intros t _ Ht. rewrite Hx in Ht. injection Ht as <-.
        repeat split; auto; lia.
      * rewrite lookup_delete_ne, lookup_insert_ne in * by assumption.
        split; [assumption|]. split.
        -- intros Hnin. apply IH2. intros Hin. apply Hnin. now right.
        -- intros t Hin Ht. apply elem_of_cons in Hin as [-> | Hin]; [congruence|].
           destruct (IH3 t Hin Ht) as (? & ? & ?). repeat split; auto; lia.
    + specialize (IH active archived n).
      destruct (fold_left (archive_one reason) rest _) as [[a' r'] n'].
      destruct IH as [Hn IH]. split; [lia|]. intros k.
      destruct (IH k) as (IH1 & IH2 & IH3).
      split; [assumption|]. split.
      * intros Hnin. apply IH2. intros Hin. apply Hnin. now right.
      * intros t Hin Ht. apply elem_of_cons in Hin as [-> | Hin]; [congruence|].
        auto.
Qed.

(** C1 (as the code has it). For an active table and an actor allowed to
    archive it, the creator or a member with the manage-messages
    permission in the channel of the table, the archive operation takes the
    record out of the active partition, puts it in the archived partition
    and stamps the reason: [OWNER] for the creator, [MOD] otherwise. Nothing
    else of the record is written: [archived_at] and [archived_by] keep the
    values they had, and so does every record archived in bulk by
    [archive_tables]. *)
Theorem archive_moves_and_stamps_reason
    (uid : Z) (table_id : string) (more : list string)
    (manage_messages : Z -> Z -> bool) (w : World) (t : TableData) :
  table_id <> "no_tables" ->
  active_file w !! table_id = Some t ->
  uid = creator_id t \/ manage_messages (channel_id t) uid = true ->
  let r := ArchiveView.select_callback uid uid (table_id :: more) manage_messages w in
  let reason := if uid =? creator_id t then OWNER else MOD in
  fst r = Archived reason /\
  active_file (snd r) !! table_id = None /\
  (exists t', archived_file (snd r) !! table_id = Some t' /\
     t' = set_archive_reason (Some reason) t /\
     archive_reason t' = Some reason /\
     archived_at t' = archived_at t /\ archived_by t' = archived_by t /\
     players t' = players t /\ waitlist t' = waitlist t) /\
  (forall (table_ids : list string) (bulk : ArchiveReason),
     table_id ∈ table_ids ->
     let r2 := archive_tables table_ids bulk w in
     active_file (snd r2) !! table_id = None /\
     exists t', archived_file (snd r2) !! table_id = Some t' /\
       t' = set_archive_reason (Some bulk) t /\
       archived_at t' = archived_at t /\ archived_by t' = archived_by t).
Proof.
  intros Hne Hlook Hallowed r reason. subst r reason.
  rewrite (select_callback_found _ _ _ _ _ _ Hne Hlook). cbv zeta.
  assert (Hsel : (if uid =? creator_id t then true
                  else manage_messages (channel_id t) uid) = true).
  { destruct Hallowed as [-> | ->]; [now rewrite Z.eqb_refl|].
    now destruct (uid =? creator_id t). }
  split; [|split; [|split]].
  - destruct (uid =? creator_id t); [reflexivity|]. now rewrite Hsel.
  - destruct (uid =? creator_id t); [|rewrite Hsel]; simpl;
      now rewrite lookup_fmap, lookup_delete_eq.
  - destruct (uid =? creator_id t); [|rewrite Hsel]; simpl;
      rewrite lookup_insert_eq; eexists; repeat split.
  - intros table_ids bulk Hin.
    unfold archive_tables, bind, load_tables, ret.
    pose proof (archive_fold_lookup bulk table_ids (active_file w) (archived_file w) O)
      as Hfold.
    destruct (fold_left (archive_one bulk) table_ids _) as [[a' r'] n'].
    destruct Hfold as [_ Hfold]. destruct (Hfold table_id) as (_ & _ & H3).
    destruct (H3 t Hin Hlook) as (Ha & Hr & Hn).
    destruct n' as [|n']; [lia|]. unfold save_tables. simpl.
    rewrite lookup_fmap, Ha, Hr. split; [reflexivity|].
    eexists. repeat split.
Qed.

(** C1, the claim as worded fails: a table made by [create] and archived by
    its creator ends in the archived partition with the reason stamped and
    with [archived_at] and [archived_by] still null. *)
Lemma archive_leaves_time_and_actor_null :
  let w := snd (ArchiveView.select_callback 123 123 ["table-1"] (fun _ _ => false)
                  Sample.created_world) in
  active_file w !! "table-1" = None /\
  exists t', archived_file w !! "table-1" = Some t' /\
    archive_reason t' = Some OWNER /\
    archived_at t' = None /\ archived_by t' = None /\
    ~ (archived_at t' <> None /\ archived_by t' <> None).
Proof.
  cbv zeta. split; [reflexivity|]. eexists. split; [reflexivity|].
  repeat split. intros [H _]. now apply H.
Qed.

(* ===================================================================== *)
(** * Rate limiter                                                        *)
(* ===================================================================== *)

Lemma prune_head (cutoff : Z) (timestamps : list Z) (oldest : Z) (rest : list Z) :
  prune cutoff timestamps = oldest :: rest -> cutoff <= oldest.
Proof.
  induction timestamps as [|x l IH]; simpl; [discriminate|].
  destruct (x <? cutoff) eqn:Hx; [assumption|].
  intros [= <- <-]. lia.
Qed.


Lemma prune_length (cutoff : Z) (timestamps : list Z) :
  (length (prune cutoff timestamps) <= length timestamps)%nat.
Proof.
  induction timestamps as [|x l IH]; simpl; [lia|].
  destruct (x <? cutoff); simpl; lia.
Qed.

Lemma round_half_even_cases (num den : Z) :
  (round_half_even num den = num / den /\ 2 * (num mod den) <= den) \/
  (round_half_even num den = num / den + 1 /\ den <= 2 * (num mod den)).
Proof.
  unfold round_half_even.
  destruct (2 * (num mod den) <? den) eqn:H1; [left; split; [reflexivity | lia]|].
  destruct (den <? 2 * (num mod den)) eqn:H2; [right; split; [reflexivity | lia]|].
  destruct (Z.even (num / den)); [left | right]; split; (reflexivity || lia).
Qed.

(** The fraction dropped from a quotient by [10**6] that was rounded at
    [2**-19] or finer is the fraction of the quotient itself: the last
    multiple of [2**-19] before a whole number lies nearer to the whole
    number than half a millionth. *)
Lemma floor_of_rounded (n P : Z) :
  0 <= n -> 524288 <= P ->
  round_half_even (n * P) 1000000 / P = n / 1000000.
Proof.
  intros Hn HP.
  pose proof (Z.div_mod n 1000000 ltac:(lia)) as Hdiv.
  pose proof (Z.mod_pos_bound n 1000000 ltac:(lia)) as Hrho.
  pose proof (Z.div_mod (n * P) 1000000 ltac:(lia)) as HdivP.
  pose proof (Z.mod_pos_bound (n * P) 1000000 ltac:(lia)) as Hr.
  pose proof (round_half_even_cases (n * P) 1000000) as Hcases.
  set (q := n / 1000000) in *. set (rho := n mod 1000000) in *.
  set (M0 := (n * P) / 1000000) in *. set (r := (n * P) mod 1000000) in *.
  assert (HB : 0 <= rho * P <= 999999 * P) by nia.
  assert (HN : n * P = 1000000 * (q * P) + rho * P) by (rewrite Hdiv; ring).
  set (A := q * P) in *. set (B := rho * P) in *.
  destruct Hcases as [[-> Hlow] | [-> Hhigh]].
  - symmetry. apply (Z.div_unique _ _ _ (M0 - A)); [lia|]. subst A. lia.
  - symmetry. apply (Z.div_unique _ _ _ (M0 + 1 - A)); [lia|]. subst A. lia.
Qed.

(** Rounding does not take a quotient past a whole number above it. *)
Lemma rounded_below (n P bound : Z) :
  0 <= n <= bound * 1000000 -> 0 < P ->
  0 <= round_half_even (n * P) 1000000 / P <= bound.
Proof.
  intros Hn HP.
  pose proof (Z.div_mod (n * P) 1000000 ltac:(lia)) as HdivP.
  pose proof (Z.mod_pos_bound (n * P) 1000000 ltac:(lia)) as Hr.
  pose proof (round_half_even_cases (n * P) 1000000) as Hcases.
  set (M0 := (n * P) / 1000000) in *. set (r := (n * P) mod 1000000) in *.
  assert (HnP : 0 <= n * P <= bound * P * 1000000) by nia.
  set (N := n * P) in *. set (B := bound * P) in *.
  assert (Hm : 0 <= round_half_even N 1000000 <= B) by (destruct Hcases as [[-> ?] | [-> ?]]; lia).
  split.
  - apply Z.div_pos; lia.
  - apply Z.div_le_upper_bound; [lia|]. subst B. lia.
Qed.

(** The exponent [true_divide] finds for a quotient below [2**k]. *)
Lemma true_divide_exponent (n k : Z) :
  0 < n < 2 ^ k * 1000000 -> 0 <= k ->
  exists e, e <= k - 53 /\
    true_divide n 1000000
    = (if 0 <=? e then round_half_even n (1000000 * 2 ^ e)
       else round_half_even (n * 2 ^ (- e)) 1000000, e).
Proof.
  intros Hn Hk. unfold true_divide. change (Z.log2 1000000) with 19.
  assert (Hlog : 0 <= Z.log2 n < k + 20).
  { split; [apply Z.log2_nonneg|]. apply Z.log2_lt_pow2; [lia|].
    rewrite Z.pow_add_r by lia. change (2 ^ 20) with 1048576.
    pose proof (Z.pow_pos_nonneg 2 k ltac:(lia) Hk). nia. }
  set (s := Z.log2 n - 19).
  set (b := if (if 0 <=? s then 1000000 * 2 ^ s <=? n else 1000000 <=? n * 2 ^ (- s))
            then s else s - 1).
  assert (Hb : b <= k - 1).
  { subst b. destruct (Z.eq_dec s k) as [Hs | Hs].
    - rewrite Hs. replace (0 <=? k) with true by lia. cbv iota.
      replace (1000000 * 2 ^ k <=? n) with false by lia. lia.
    - destruct (if 0 <=? s then _ else _); lia. }
  exists (b - 52). split; [lia | reflexivity].
Qed.

(** Up to [2**34] seconds, some 544 years, [int(delta.total_seconds())] is
    the whole number of seconds in [delta], rounded toward zero. *)
Lemma int_of_true_divide_exact (n : Z) :
  0 < n < 2 ^ 34 * 1000000 ->
  int_of_float (true_divide n 1000000) = n / 1000000.
Proof.
  intros Hn. destruct (true_divide_exponent n 34 Hn ltac:(lia)) as (e & He & ->).
  unfold int_of_float. replace (0 <=? e) with false by lia.
  assert (HP : 524288 <= 2 ^ (- e)).
  { change 524288 with (2 ^ 19). apply Z.pow_le_mono_r; lia. }
  apply floor_of_rounded; lia.
Qed.

Lemma int_total_seconds_exact (delta : Z) :
  - (2 ^ 34 * 1000000) < delta < 2 ^ 34 * 1000000 ->
  int_total_seconds delta = Z.quot delta 1000000.
Proof.
  intros Hd. unfold int_total_seconds.
  destruct (Z.eqb_spec delta 0) as [-> | Hne]; [reflexivity|].
  destruct (Z.ltb_spec 0 delta) as [Hpos | Hneg].
  - rewrite int_of_true_divide_exact by lia. symmetry. apply Z.quot_div_nonneg; lia.
  - rewrite int_of_true_divide_exact by lia.
    rewrite <- (Z.opp_involutive delta) at 2. rewrite Z.quot_opp_l by lia.
    rewrite Z.quot_div_nonneg by lia. reflexivity.
Qed.

Lemma int_total_seconds_floor (delta : Z) :
  0 <= delta < 2 ^ 34 * 1000000 ->
  Z.max 0 (int_total_seconds delta) = delta / 1000000.
Proof.
  intros H. rewrite int_total_seconds_exact by lia. rewrite Z.quot_div_nonneg by lia.
  apply Z.max_r. apply Z.div_pos; lia.
Qed.

(** A wait is not longer than the whole seconds it is bounded by: rounding
    to a [float] does not pass a whole number of seconds below [2**52]. *)
Lemma int_total_seconds_below (delta bound : Z) :
  0 <= delta <= bound * 1000000 -> bound < 2 ^ 52 ->
  0 <= int_total_seconds delta <= bound.
Proof.
  intros Hd Hbound. unfold int_total_seconds.
  destruct (Z.eqb_spec delta 0) as [-> | Hne]; [lia|].
  replace (0 <? delta) with true by lia.
  destruct (true_divide_exponent delta 52 ltac:(lia) ltac:(lia)) as (e & He & ->).
  unfold int_of_float. replace (0 <=? e) with false by lia.
  apply rounded_below; [lia|]. apply Z.pow_pos_nonneg; lia.
Qed.

Lemma ceil_seconds_exact (delta : Z) :
  delta mod 1000000 = 0 -> ceil_seconds delta = delta / 1000000.
Proof. unfold ceil_seconds. intros H. Z.div_mod_to_equations. lia. Qed.

Lemma ceil_seconds_above (delta : Z) :
  delta mod 1000000 <> 0 -> ceil_seconds delta = delta / 1000000 + 1.
Proof. unfold ceil_seconds. intros H. Z.div_mod_to_equations. lia. Qed.

(** What the shared body answers when the window is full. *)
Lemma check_rate_limit_denied (max_commands window_seconds key now : Z)
    (store : gmap Z (list Z)) (oldest : Z) (rest : list Z) :
  prune (now - timedelta_seconds window_seconds) (default [] (store !! key))
    = oldest :: rest ->
  max_commands <= Z.of_nat (length (oldest :: rest)) ->
  0 <= oldest + timedelta_seconds window_seconds - now /\
  check_rate_limit (max_commands, window_seconds) key now store
  = (Some (false,
           Z.max 0 (int_total_seconds (oldest + timedelta_seconds window_seconds - now))),
     <[key := oldest :: rest]> store).
Proof.
  intros Hts Hfull. pose proof (prune_head _ _ _ _ Hts) as Hhead.
  split; [lia|]. unfold check_rate_limit. rewrite Hts.
  replace (Z.of_nat (length (oldest :: rest)) >=? max_commands) with true by lia.
  reflexivity.
Qed.

(** C5 (as the code has it). Take instants within the range of [datetime]
    and a remaining time [oldest + window - now] below [2**34] seconds, some
    544 years. When the pruned window of a key holds at least [max_commands]
    stamps, the user check and the guild check both deny, and the wait they
    report is the number of whole seconds in the remaining time, which is
    never negative: the remaining time rounded down. When the remaining
    time is not a whole number of seconds the report is one less than the
    next integer above it. *)
Theorem denied_wait_rounds_down
    (max_commands window_seconds key now : Z) (s : Limits)
    (oldest : Z) (rest : list Z) :
  let window := timedelta_seconds window_seconds in
  let remaining := oldest + window - now in
  let wait := remaining / 1000000 in
  window_fits window_seconds now ->
  window_fits window_seconds oldest ->
  remaining < timedelta_seconds (2 ^ 34) ->
  (prune (now - window) (default [] (_user_rate_limits s !! key)) = oldest :: rest ->
   max_commands <= Z.of_nat (length (oldest :: rest)) ->
   fst (check_user_rate_limit (max_commands, window_seconds) key now s)
   = Some (false, wait)) /\
  (prune (now - window) (default [] (_guild_rate_limits s !! key)) = oldest :: rest ->
   max_commands <= Z.of_nat (length (oldest :: rest)) ->
   fst (check_guild_rate_limit (max_commands, window_seconds) key now s)
   = Some (false, wait)) /\
  (now - window <= oldest ->
   0 <= wait /\
   wait = Z.max 0 (int_total_seconds remaining) /\
   wait * 1000000 <= remaining < (wait + 1) * 1000000 /\
   (remaining mod 1000000 = 0 -> wait = ceil_seconds remaining) /\
   (remaining mod 1000000 <> 0 -> wait = ceil_seconds remaining - 1)).
Proof.
  intros window remaining wait Hnow Holdest Hshort. subst window remaining wait.
  unfold timedelta_seconds in Hshort at 2.
  split; [|split].
  - intros Hts Hfull. unfold check_user_rate_limit.
    destruct (check_rate_limit_denied _ _ _ _ _ _ _ Hts Hfull) as [Hpos ->].
    cbn [fst]. now rewrite int_total_seconds_floor by lia.
  - intros Hts Hfull. unfold check_guild_rate_limit.
    destruct (check_rate_limit_denied _ _ _ _ _ _ _ Hts Hfull) as [Hpos ->].
    cbn [fst]. now rewrite int_total_seconds_floor by lia.
  - intros Hhead.
    split; [apply Z.div_pos; lia|].
    split; [rewrite int_total_seconds_floor by lia; reflexivity|].
    split; [Z.div_mod_to_equations; lia|].
    split; intros Hm.
    + now rewrite ceil_seconds_exact.
    + rewrite ceil_seconds_above by assumption. lia.
Qed.

(** Beyond [2**34] seconds the [float] of [total_seconds] is too coarse for
    the microseconds: with a window of 20000000000 seconds and one
    microsecond gone, the wait reported is the whole window. *)
Lemma wait_of_a_long_window :
  int_total_seconds (timedelta_seconds 20000000000 - 1) = 20000000000.
Proof. reflexivity. Qed.

(** C5, the claim as worded fails: with one stamp at ten o'clock, a limit
    of one command per 10 seconds and a check 2.5 seconds later, 7.5 seconds
    remain; the check reports 7, not 8. *)
Lemma denied_wait_is_not_the_ceiling :
  let oldest := Sample.morning in
  let now := Sample.morning + 2500000 in
  let s := mkLimits {[ 7 := [oldest] ]} {[ 7 := [oldest] ]} in
  let remaining := oldest + timedelta_seconds 10 - now in
  window_fits 10 now /\ window_fits 10 oldest /\
  remaining = 7500000 /\
  fst (check_user_rate_limit (1, 10) 7 now s) = Some (false, 7) /\
  fst (check_guild_rate_limit (1, 10) 7 now s) = Some (false, 7) /\
  ceil_seconds remaining = 8 /\
  fst (check_user_rate_limit (1, 10) 7 now s)
  <> Some (false, ceil_seconds remaining) /\
  fst (check_guild_rate_limit (1, 10) 7 now s)
  <> Some (false, ceil_seconds remaining).
Proof.
  cbv zeta. unfold window_fits, is_datetime.
  repeat split; try (vm_compute; reflexivity); try (vm_compute; discriminate).
Qed.

(** What the shared body answers when the window has room. *)
Lemma check_rate_limit_allowed (max_commands window_seconds key now : Z)
    (store : gmap Z (list Z)) (kept : list Z) :
  prune (now - timedelta_seconds window_seconds) (default [] (store !! key)) = kept ->
  Z.of_nat (length kept) < max_commands ->
  check_rate_limit (max_commands, window_seconds) key now store
  = (Some (true, 0), <[key := kept ++ [now]]> store).
Proof.
  intros Hts Hroom. unfold check_rate_limit. rewrite Hts.
  replace (Z.of_nat (length kept) >=? max_commands) with false by lia. reflexivity.
Qed.


(** At the instant the window ends the oldest stamp is not pruned, the test
    being a strict [<]: the check is still denied, with a wait of 0. *)
Lemma check_at_the_end_of_the_window :
  fst (check_user_rate_limit (2, 10) 1 10000000
         (mkLimits {[ 1 := [0; 1000000] ]} ∅)) = Some (false, 0).
Proof. reflexivity. Qed.

(* ===================================================================== *)
(** * Loading and saving documents                                        *)
(* ===================================================================== *)

Section Dicts.

Context {V : Type}.

Lemma dict_set_fresh (k : string) (v : V) (d : list (string * V)) :
  k ∉ map fst d -> Disk.dict_set k v d = d ++ [(k, v)].
Proof.
  induction d as [|[k' v'] d IH]; simpl; intros Hnin; [reflexivity|].
  rewrite not_elem_of_cons in Hnin. destruct Hnin as [Hne Hnin].
  apply String.eqb_neq in Hne. rewrite Hne. now rewrite IH.
Qed.

Lemma dict_get_fresh (k : string) (d : list (string * V)) :
  k ∉ map fst d -> Disk.dict_get k d = None.
Proof.
  induction d as [|[k' v'] d IH]; simpl; intros Hnin; [reflexivity|].
  rewrite not_elem_of_cons in Hnin. destruct Hnin as [Hne Hnin].
  apply String.eqb_neq in Hne. rewrite Hne. now apply IH.
Qed.

Lemma NoDup_snoc_keys (acc : list (string * V)) (k : string) (v : V)
    (rest : list string) :
  NoDup (map fst acc ++ k :: rest) ->
  (k ∉ map fst acc) /\ (k ∉ rest) /\
  NoDup (map fst (acc ++ [(k, v)]) ++ rest) /\ NoDup (map fst acc ++ rest).
Proof.
  intros Hnd.
  assert (Hp : map fst acc ++ k :: rest ≡ₚ k :: (map fst acc ++ rest))
    by now rewrite <- Permutation_middle.
  rewrite Hp in Hnd. apply NoDup_cons in Hnd as [Hnin Hnd].
  rewrite elem_of_app in Hnin.
  repeat split; try tauto.
  rewrite map_app, <- app_assoc. simpl.
  rewrite <- Permutation_middle. apply NoDup_cons. split; [|assumption].
  rewrite elem_of_app. tauto.
Qed.

End Dicts.

Lemma read_items_kept (items : list (string * Disk.pyval)) :
  forall acc : Disk.TablesDB,
    NoDup (map fst acc ++ map fst items) ->
    (forall k entry, (k, Disk.PyDict entry) ∈ items ->
       is_Some (Disk.normalized_entry entry)) ->
    Disk.read_items items acc = inr (acc ++ Disk.kept_items items).
Proof.
  induction items as [|[k v] rest IH]; intros acc Hnd Hok; simpl.
  - now rewrite app_nil_r.
  - simpl in Hnd.
    destruct (NoDup_snoc_keys acc k ([] : Disk.record) _ Hnd) as (Hk & _ & _ & Hnd').
    assert (Hrest : forall k0 entry, (k0, Disk.PyDict entry) ∈ rest ->
                      is_Some (Disk.normalized_entry entry))
      by (intros k0 entry Hin; apply (Hok k0); now right).
    destruct v as [| b | z | s | l | entry | r]; try (apply IH; assumption).
    destruct (Hok k entry) as [entry' Hn]; [left|].
    rewrite Hn. unfold Disk.normalized_entry in Hn.
    destruct (Disk.dict_get "archive_reason" entry) as [reason|]; [|discriminate].
    assert (Hgo : Disk.read_items rest (Disk.dict_set k entry' acc)
                  = inr (acc ++ (k, entry') :: Disk.kept_items rest)).
    { rewrite dict_set_fresh by assumption. rewrite IH; [|..|assumption].
      - now rewrite <- app_assoc.
      - now destruct (NoDup_snoc_keys acc k entry' _ Hnd) as (_ & _ & H & _). }
    destruct reason as [| b | z | s | l | d | r];
      try (injection Hn as <-; exact Hgo);
      destruct (Disk.ArchiveReason_of _) as [e|r'] eqn:Hr; try discriminate;
      injection Hn as <-; exact Hgo.
Qed.

Lemma kept_items_lookup (items : list (string * Disk.pyval)) (k : string)
    (v : Disk.pyval) :
  NoDup (map fst items) -> (k, v) ∈ items ->
  Disk.dict_get k (Disk.kept_items items)
  = match v with
    | Disk.PyDict entry => Disk.normalized_entry entry
    | _ => None
    end.
Proof.
  assert (Hkeys : forall l k0, k0 ∉ map fst l ->
                    Disk.dict_get k0 (Disk.kept_items l) = None).
  { induction l as [|[k1 v1] l IHl]; simpl; intros k0 Hnin; [reflexivity|].
    rewrite not_elem_of_cons in Hnin. destruct Hnin as [Hne Hnin].
    destruct v1; try (apply IHl; assumption).
    destruct (Disk.normalized_entry d); [|apply IHl; assumption].
    simpl. apply String.eqb_neq in Hne. rewrite Hne. now apply IHl. }
  induction items as [|[k1 v1] rest IH]; simpl; intros Hnd Hin; [inversion Hin|].
  apply NoDup_cons in Hnd as [Hnin Hnd].
  apply elem_of_cons in Hin as [[= -> ->] | Hin].
  - destruct v1; try (now apply Hkeys).
    destruct (Disk.normalized_entry d); [|now apply Hkeys].
    simpl. now rewrite String.eqb_refl.
  - assert (Hne : k <> k1).
    { intros ->. apply Hnin. apply (list_elem_of_fmap_2 fst) in Hin. exact Hin. }
    destruct v1; try (now apply IH).
    destruct (Disk.normalized_entry d); [|now apply IH].
    simpl. apply String.eqb_neq in Hne. rewrite Hne. now apply IH.
Qed.

(** C6 (as the code has it). A partition file that is missing loads as the
    empty collection; a text that is not JSON, or a document that is not a
    dictionary, loads as the empty collection with a warning. A file whose
    bytes are not UTF-8 text makes the load raise [UnicodeDecodeError], as
    every other exception of [json.load] but [JSONDecodeError] leaves the
    load, and one that cannot be opened makes it raise [OSError]: neither
    is caught, and neither is logged. In a dictionary document (its keys are distinct,
    as in any parsed JSON object) the items that are not dictionaries are
    dropped without a warning; when every item that is a dictionary carries
    an [archive_reason] that is null or the name of a reason, the load
    raises nothing, logs nothing, and keeps each of these items, whatever
    other fields it has or lacks, with the reason name turned into the
    member. *)
Theorem load_degrades_on_bad_documents :
  Disk._read_json Disk.NoFile = ([], inr []) /\
  Disk._read_json Disk.Unparsable = ([Disk.CouldNotDecode], inr []) /\
  (forall e, Disk._read_json (Disk.Unloadable e) = ([], inl (Disk.LoadError e))) /\
  Disk._read_json Disk.Unreadable = ([], inl Disk.OSError) /\
  (forall raw, Disk.is_dict raw = false ->
     Disk._read_json (Disk.Document raw) = ([Disk.NotADictionary], inr [])) /\
  (forall items : list (string * Disk.pyval),
     NoDup (map fst items) ->
     (forall k entry, (k, Disk.PyDict entry) ∈ items ->
        is_Some (Disk.normalized_entry entry)) ->
     Disk._read_json (Disk.Document (Disk.PyDict items))
     = ([], inr (Disk.kept_items items)) /\
     (forall k v, (k, v) ∈ items -> Disk.is_dict v = false ->
        Disk.dict_get k (Disk.kept_items items) = None) /\
     (forall k entry, (k, Disk.PyDict entry) ∈ items ->
        Disk.dict_get k (Disk.kept_items items) = Disk.normalized_entry entry)).
Proof.
  do 4 (split; [reflexivity|]). split.
  - intros raw Hraw. destruct raw; try reflexivity. discriminate.
  - intros items Hnd Hok. split; [|split].
    + simpl. rewrite read_items_kept by assumption. reflexivity.
    + intros k v Hin Hv. rewrite (kept_items_lookup items k v Hnd Hin).
      destruct v; try reflexivity. discriminate.
    + intros k entry Hin. now rewrite (kept_items_lookup items k _ Hnd Hin).
Qed.

(** C6, the claim as worded fails: an item that is not a dictionary is
    dropped without any warning, and an item that lacks every required field
    but the reason is kept, not discarded. *)
Lemma load_drops_silently_and_keeps_sparse_records :
  Disk._read_json (Disk.Document Disk.sparse_document)
  = ([], inr [("table-2", [("archive_reason", Disk.PyNone)])]).
Proof. reflexivity. Qed.

(** An item without the key [archive_reason] makes the load raise
    [KeyError], and a reason name that is not a member makes it raise
    [ValueError]; the writer looks the same key up with [.get]. *)
Lemma load_raises_on_missing_reason :
  Disk._read_json (Disk.Document Disk.reasonless_document)
  = ([], inl (Disk.KeyError "archive_reason")) /\
  Disk._read_json (Disk.Document Disk.misnamed_document)
  = ([], inl (Disk.ValueError (Disk.PyStr "owner"))).
Proof. split; reflexivity. Qed.

Section RoundTrip.

#[local] Abbreviation stored := Disk.stored_item.

Lemma clear_encoded (t : TableData) :
  Disk.dict_set "archive_reason" Disk.PyNone (Disk.encode_table t)
  = Disk.encode_table (set_archive_reason None t).
Proof. reflexivity. Qed.

Lemma written_encoded (t : TableData) :
  match Disk.dict_get "archive_reason" (Disk.encode_table t) with
  | Some (Disk.PyReason reason) =>
      Disk.dict_set "archive_reason" (Disk.PyStr (reason_value reason))
        (Disk.encode_table t)
  | _ => Disk.encode_table t
  end = Disk.stored_table t.
Proof. destruct t as [? ? ? ? ? ? ? ? ? ? ? [r|] ? ?]; reflexivity. Qed.

Lemma normalized_stored (t : TableData) :
  Disk.normalized_entry (Disk.stored_table t) = Some (Disk.encode_table t).
Proof. destruct t as [? ? ? ? ? ? ? ? ? ? ? [[]|] ? ?]; reflexivity. Qed.

Lemma keys_encode_tables (db : list (string * TableData)) :
  map fst (Disk.encode_tables db) = map fst db.
Proof. unfold Disk.encode_tables. rewrite map_map. reflexivity. Qed.

Lemma keys_cleared (db : list (string * TableData)) :
  map fst (Disk.cleared db) = map fst db.
Proof. unfold Disk.cleared. rewrite map_map. reflexivity. Qed.

Lemma keys_stored (db : list (string * TableData)) :
  map fst (map stored db) = map fst db.
Proof. rewrite map_map. reflexivity. Qed.

Lemma normalize_active_encode (db : list (string * TableData)) :
  forall acc : Disk.TablesDB,
    NoDup (map fst acc ++ map fst db) ->
    Disk.normalize_active (Disk.encode_tables db) acc
    = acc ++ Disk.encode_tables (Disk.cleared db).
Proof.
  induction db as [|[k t] db IH]; intros acc Hnd.
  - simpl. now rewrite app_nil_r.
  - cbn [Disk.encode_tables Disk.cleared map fst snd Disk.normalize_active] in *.
    destruct (NoDup_snoc_keys acc k (Disk.encode_table (set_archive_reason None t))
                _ Hnd) as (Hk & _ & Hnd' & _).
    rewrite clear_encoded, dict_set_fresh by assumption.
    fold (Disk.encode_tables db). rewrite IH by assumption.
    now rewrite <- app_assoc.
Qed.

Lemma write_items_encode (db : list (string * TableData)) :
  forall acc : list (string * Disk.pyval),
    NoDup (map fst acc ++ map fst db) ->
    Disk.write_items (Disk.encode_tables db) acc = acc ++ map stored db.
Proof.
  induction db as [|[k t] db IH]; intros acc Hnd.
  - simpl. now rewrite app_nil_r.
  - cbn [Disk.encode_tables map fst snd Disk.write_items] in *.
    destruct (NoDup_snoc_keys acc k (Disk.PyDict (Disk.stored_table t)) _ Hnd)
      as (Hk & _ & Hnd' & _).
    rewrite written_encoded, dict_set_fresh by assumption.
    fold (Disk.encode_tables db). rewrite IH by assumption.
    now rewrite <- app_assoc.
Qed.

Lemma json_dump_entries (l : list PlayerEntry) :
  map Disk.json_dump (map Disk.encode_entry l) = map Disk.encode_entry l.
Proof.
  induction l as [|[i j [n|]] l IH]; simpl; [reflexivity| |]; now rewrite IH.
Qed.

Lemma json_dump_stored (t : TableData) :
  Disk.json_dump (Disk.PyDict (Disk.stored_table t))
  = Disk.PyDict (Disk.stored_table t).
Proof.
  destruct t as [? ? ? [c|] ? ps ws ? ? ? ? [r|] [a|] [b|]];
    cbn -[Disk.encode_entry]; now rewrite !json_dump_entries.
Qed.

Lemma json_dump_document (db : list (string * TableData)) :
  Disk.json_dump (Disk.PyDict (map stored db)) = Disk.PyDict (map stored db).
Proof.
  change (Disk.json_dump (Disk.PyDict (map stored db)))
    with (Disk.PyDict (map (fun kv => (fst kv, Disk.json_dump (snd kv)))
                         (map stored db))).
  f_equal. induction db as [|[k t] db IH]; [reflexivity|].
  cbn [map stored fst snd]. rewrite json_dump_stored. f_equal. exact IH.
Qed.

Lemma kept_items_stored (db : list (string * TableData)) :
  Disk.kept_items (map stored db) = Disk.encode_tables db.
Proof.
  induction db as [|[k t] db IH]; [reflexivity|].
  cbn [map stored fst snd Disk.kept_items Disk.encode_tables].
  rewrite normalized_stored. f_equal. exact IH.
Qed.

Lemma read_stored (db : list (string * TableData)) :
  NoDup (map fst db) ->
  Disk._read_json (Disk.Document (Disk.PyDict (map stored db)))
  = ([], inr (Disk.encode_tables db)).
Proof.
  intros Hnd. cbn [Disk._read_json]. rewrite read_items_kept.
  - now rewrite kept_items_stored.
  - simpl. now rewrite keys_stored.
  - intros k entry Hin. apply list_elem_of_fmap_1 in Hin as ([k' t] & [= _ ->] & _).
    rewrite normalized_stored. eauto.
Qed.

(** Saving two collections of well-typed records and loading them back. *)
Lemma save_then_load (active archived : list (string * TableData)) :
  NoDup (map fst active) -> NoDup (map fst archived) ->
  Disk.load_tables
    (Disk.save_tables (Disk.encode_tables active) (Disk.encode_tables archived))
  = ([], inr (Disk.encode_tables (Disk.cleared active), Disk.encode_tables archived)).
Proof.
  intros Ha Hr. unfold Disk.load_tables, Disk.save_tables, Disk._write_json.
  cbn [Disk.ACTIVE_DATA_FILE Disk.ARCHIVED_DATA_FILE].
  rewrite normalize_active_encode by assumption. cbn [app].
  rewrite !write_items_encode by (simpl; rewrite ?keys_cleared; assumption).
  cbn [app]. rewrite !json_dump_document.
  rewrite !read_stored by (rewrite ?keys_cleared; assumption).
  reflexivity.
Qed.

Lemma encode_option_inj {A : Type} (f : A -> Disk.pyval) (o1 o2 : option A) :
  (forall a, f a <> Disk.PyNone) -> (forall a b, f a = f b -> a = b) ->
  Disk.encode_option f o1 = Disk.encode_option f o2 -> o1 = o2.
Proof.
  intros Hnone Hinj. destruct o1 as [a|], o2 as [b|]; simpl; intros H.
  - f_equal. now apply Hinj.
  - now apply Hnone in H.
  - symmetry in H. now apply Hnone in H.
  - reflexivity.
Qed.

Lemma encode_entry_inj (e1 e2 : PlayerEntry) :
  Disk.encode_entry e1 = Disk.encode_entry e2 -> e1 = e2.
Proof.
  destruct e1 as [i1 j1 [n1|]], e2 as [i2 j2 [n2|]]; unfold Disk.encode_entry;
    simpl; intros [=]; subst; reflexivity.
Qed.

Lemma encode_entries_inj (l1 l2 : list PlayerEntry) :
  map Disk.encode_entry l1 = map Disk.encode_entry l2 -> l1 = l2.
Proof.
  revert l2. induction l1 as [|e1 l1 IH]; intros [|e2 l2]; cbn [map]; intros H;
    try discriminate; [reflexivity|].
  assert (H1 : Disk.encode_entry e1 = Disk.encode_entry e2) by congruence.
  assert (H2 : map Disk.encode_entry l1 = map Disk.encode_entry l2) by congruence.
  f_equal; [now apply encode_entry_inj | now apply IH].
Qed.

Lemma encode_table_inj (t1 t2 : TableData) :
  Disk.encode_table t1 = Disk.encode_table t2 -> t1 = t2.
Proof.
  destruct t1, t2. unfold Disk.encode_table. simpl. intros H.
  injection H as -> -> -> Hc -> Hp Hw -> -> -> -> Hr Ha Hb.
  apply encode_entries_inj in Hp, Hw.
  apply encode_option_inj in Hc, Hr, Ha, Hb;
    try (intros; discriminate); try (intros; congruence).
Qed.

Lemma encode_tables_inj (db1 db2 : list (string * TableData)) :
  Disk.encode_tables db1 = Disk.encode_tables db2 -> db1 = db2.
Proof.
  unfold Disk.encode_tables. revert db2.
  induction db1 as [|[k1 t1] db1 IH]; intros [|[k2 t2] db2];
    cbn [map fst snd]; intros H; try discriminate; [reflexivity|].
  assert (Hk : k1 = k2) by congruence.
  assert (Ht : Disk.encode_table t1 = Disk.encode_table t2) by congruence.
  f_equal; [|apply IH; congruence].
  f_equal; [assumption | now apply encode_table_inj].
Qed.

Lemma cleared_id (db : list (string * TableData)) :
  (forall k t, (k, t) ∈ db -> archive_reason t = None) -> Disk.cleared db = db.
Proof.
  induction db as [|[k t] db IH]; intros Hall; [reflexivity|].
  simpl. rewrite IH by (intros k' t' Hin; apply (Hall k'); now right).
  f_equal. f_equal. pose proof (Hall k t ltac:(left)) as Hr.
  destruct t. simpl in *. now subst.
Qed.

End RoundTrip.

(** C9 (as the code has it). Writing two collections (dictionaries, hence
    with distinct keys) of records that carry the declared fields and
    loading them back raises nothing, logs nothing,
    and reproduces every field of every archived record, and every field of
    every active record except [archive_reason], which the save writes as
    null on the active side; so the active side too comes back unchanged
    when its records had no reason. Distinct records have distinct
    documents, and an entry without cached display name is stored without
    the key, not with a null. *)
Theorem save_then_load_reproduces_records
    (active archived : list (string * TableData)) :
  NoDup (map fst active) -> NoDup (map fst archived) ->
  Disk.load_tables
    (Disk.save_tables (Disk.encode_tables active) (Disk.encode_tables archived))
  = ([], inr (Disk.encode_tables (Disk.cleared active), Disk.encode_tables archived)) /\
  ((forall k t, (k, t) ∈ active -> archive_reason t = None) ->
   Disk.cleared active = active) /\
  (forall db db' : list (string * TableData),
     Disk.encode_tables db = Disk.encode_tables db' -> db = db') /\
  (forall e : PlayerEntry,
     exists d, Disk.encode_entry e = Disk.PyDict d /\
       Disk.dict_get "display_name" d = Disk.PyStr <$> display_name e).
Proof.
  intros Ha Hr. split; [now apply save_then_load|].
  split; [apply cleared_id|]. split; [apply encode_tables_inj|].
  intros [i j [n|]]; eexists; split; reflexivity.
Qed.

(** C9, the claim as worded fails: an active record that carries a reason
    comes back from a save and a load with the reason null. *)
Lemma save_then_load_clears_active_reason :
  Disk.load_tables
    (Disk.save_tables (Disk.encode_tables [("table-1", Sample.archived_table)]) [])
  = ([], inr (Disk.encode_tables [("table-1", Sample.sample_table)], [])) /\
  Disk.encode_tables [("table-1", Sample.sample_table)]
  <> Disk.encode_tables [("table-1", Sample.archived_table)].
Proof. split; [reflexivity | discriminate]. Qed.

(* ===================================================================== *)
(** * The store of the callbacks and the documents agree                  *)
(* ===================================================================== *)

(** What [save_tables] of the callbacks leaves in the store is what a save
    of the same records into documents, followed by a load, gives back. *)
Lemma saved_store_is_loaded_documents (active archived : gmap string TableData)
    (w : World) :
  let w' := snd (save_tables active archived w) in
  exists loaded_active loaded_archived : list (string * TableData),
    Disk.load_tables
      (Disk.save_tables (Disk.encode_tables (items_of active))
         (Disk.encode_tables (items_of archived)))
    = ([], inr (Disk.encode_tables loaded_active, Disk.encode_tables loaded_archived)) /\
    list_to_map loaded_active = active_file w' /\
    list_to_map loaded_archived = archived_file w'.
Proof.
  cbv zeta. exists (Disk.cleared (items_of active)), (items_of archived).
  split; [|split].
  - apply save_then_load; apply NoDup_fst_map_to_list.
  - simpl. unfold Disk.cleared, items_of.
    rewrite <- (list_to_map_to_list active) at 2.
    rewrite <- list_to_map_fmap. reflexivity.
  - simpl. apply list_to_map_to_list.
Qed.

(* ===================================================================== *)
(** * The theorems at work on the sample data                             *)
(* ===================================================================== *)

Lemma archive_moves_and_stamps_reason_witness :
  active_file Sample.sample_world !! "table-1" = Some Sample.sample_table /\
  fst (ArchiveView.select_callback 123 123 ["table-1"] (fun _ _ => false)
         Sample.sample_world) = Archived OWNER.
Proof.
  assert (H1 : "table-1" <> "no_tables") by discriminate.
  assert (H2 : active_file Sample.sample_world !! "table-1" = Some Sample.sample_table)
    by reflexivity.
  split; [exact H2|].
  exact (proj1 (archive_moves_and_stamps_reason 123 "table-1" [] (fun _ _ => false)
                  Sample.sample_world Sample.sample_table H1 H2 (or_introl eq_refl))).
Defined.

Lemma leave_removes_and_promotes_witness :
  active_file Sample.full_world !! "table-1" = Some Sample.full_table /\
  waitlist_sorted (waitlist Sample.full_table) /\
  exists t', active_file (snd (SignupView.leave_callback "table-1" 1 Sample.no_names
                                 Sample.full_world)) !! "table-1" = Some t' /\
    players t' = [Sample.bob] /\ waitlist t' = [].
Proof.
  assert (H1 : active_file Sample.full_world !! "table-1" = Some Sample.full_table)
    by reflexivity.
  assert (H2 : waitlist_sorted (waitlist Sample.full_table)) by (repeat constructor).
  split; [exact H1|]. split; [exact H2|].
  destruct (leave_removes_and_promotes "table-1" 1 Sample.no_names Sample.full_world
              Sample.full_table H1 H2) as (_ & _ & _ & H & _).
  destruct (H Sample.alice Sample.bob eq_refl eq_refl eq_refl eq_refl)
    as (t' & Ht' & Hp & Hw & _).
  exists t'. auto.
Defined.

Lemma join_seats_then_waitlists_witness :
  active_file Sample.duo_world !! "table-1" = Some Sample.duo_table /\
  exists t',
    active_file (snd (run_events (join_calls "table-1" Sample.three_calls)
                        Sample.duo_world)) !! "table-1" = Some t' /\
    ids (players t') = [1; 2] /\ ids (waitlist t') = [3].
Proof.
  assert (H1 : active_file Sample.duo_world !! "table-1" = Some Sample.duo_table)
    by reflexivity.
  split; [exact H1|].
  destruct (join_seats_then_waitlists "table-1" Sample.duo_world Sample.duo_table H1)
    as (_ & H & _).
  assert (Hnd : NoDup (map call_uid Sample.three_calls)).
  { apply (bool_decide_unpack _). reflexivity. }
  destruct (H eq_refl eq_refl ltac:(simpl; lia) Sample.three_calls Hnd
              ltac:(simpl; lia)) as (t' & Ht' & _ & _ & Hp & Hw & _).
  exists t'. split; [exact Ht'|].
  rewrite !ids_of_stamps, Hp, Hw. split; reflexivity.
Defined.

Lemma edit_demotes_from_the_end_witness :
  active_file Sample.trio_world !! "table-1" = Some Sample.trio_table /\
  fst (EditTableModal.on_submit "table-1" "Test System" "Soon" "Test" (Some 1)
         Sample.trio_world) = Edited [Sample.carol; Sample.bob].
Proof.
  assert (H1 : active_file Sample.trio_world !! "table-1" = Some Sample.trio_table)
    by reflexivity.
  split; [exact H1|].
  destruct (edit_demotes_from_the_end "table-1" "Test System" "Soon" "Test" 1
              Sample.trio_world Sample.trio_table eq_refl H1 ltac:(simpl; lia))
    as (t' & Hr & _).
  exact Hr.
Defined.

Lemma denied_wait_rounds_down_witness :
  window_fits 10 (Sample.morning + 2500000) /\
  window_fits 10 Sample.morning /\
  fst (check_user_rate_limit (1, 10) 7 (Sample.morning + 2500000)
         (mkLimits {[ 7 := [Sample.morning] ]} ∅)) = Some (false, 7).
Proof.
  assert (Hnow : window_fits 10 (Sample.morning + 2500000)).
  { unfold window_fits, is_datetime. repeat split; vm_compute; discriminate. }
  assert (Holdest : window_fits 10 Sample.morning).
  { unfold window_fits, is_datetime. repeat split; vm_compute; discriminate. }
  split; [exact Hnow|]. split; [exact Holdest|].
  destruct (denied_wait_rounds_down 1 10 7 (Sample.morning + 2500000)
              (mkLimits {[ 7 := [Sample.morning] ]} ∅) Sample.morning []
              Hnow Holdest ltac:(vm_compute; reflexivity)) as (H & _).
  apply H; [reflexivity | simpl; lia].
Defined.

Lemma load_degrades_on_bad_documents_witness :
  Disk._read_json (Disk.Document Disk.sparse_document)
  = ([], inr [("table-2", [("archive_reason", Disk.PyNone)])]).
Proof.
  destruct load_degrades_on_bad_documents as (_ & _ & _ & _ & _ & H).
  assert (Hnd : NoDup ["table-1"; "table-2"]).
  { apply (bool_decide_unpack _). reflexivity. }
  refine (proj1 (H [("table-1", Disk.PyInt 5);
                    ("table-2", Disk.PyDict [("archive_reason", Disk.PyNone)])]
                   Hnd _)).
  intros k entry Hin.
  apply elem_of_cons in Hin as [Hin | Hin]; [discriminate|].
  apply elem_of_cons in Hin as [Hin | Hin]; [|inversion Hin].
  injection Hin as -> ->. eexists. reflexivity.
Defined.

Lemma participants_stay_unique_witness :
  exists t,
    active_file (snd (run_events Sample.history Sample.created_world)) !! "table-1"
    = Some t /\
    NoDup (ids (players t) ++ ids (waitlist t)).
Proof.
  assert (Hc : NewTableModal.on_submit 123 "Test System" "Soon" "Test" (Some 4)
                 "table-1" "2025-01-01T00:00:00+00:00" (Some 101112) (Posted 456 789)
                 Sample.empty_world = (Created, Sample.created_world)) by reflexivity.
  destruct (active_file (snd (run_events Sample.history Sample.created_world))
              !! "table-1") as [t|] eqn:Ht.
  - exists t. split; [reflexivity|].
    exact (proj1 (participants_stay_unique _ _ _ _ _ _ _ _ _ _ _ _ _ Hc Ht)).
  - exfalso. vm_compute in Ht. discriminate.
Defined.


Lemma save_then_load_reproduces_records_witness :
  Disk.load_tables
    (Disk.save_tables (Disk.encode_tables [("table-1", Sample.busy_table)])
       (Disk.encode_tables [("table-2", Sample.archived_table)]))
  = ([], inr (Disk.encode_tables [("table-1", Sample.busy_table)],
              Disk.encode_tables [("table-2", Sample.archived_table)])).
Proof.
  assert (H1 : NoDup (map fst [("table-1", Sample.busy_table)]))
    by (apply (bool_decide_unpack _); reflexivity).
  assert (H2 : NoDup (map fst [("table-2", Sample.archived_table)]))
    by (apply (bool_decide_unpack _); reflexivity).
  exact (proj1 (save_then_load_reproduces_records _ _ H1 H2)).
Defined.

Lemma refused_calls_save_nothing_witness :
  SignupView.join_callback "table-1" 1 "Alice" "2025-01-02T10:00:00+00:00"
    Sample.no_names Sample.full_world = (AlreadySignedUp, Sample.full_world) /\
  SignupView.leave_callback "table-1" 3 Sample.no_names Sample.full_world
  = (NotSignedUp, Sample.full_world).
Proof.
  destruct (refused_calls_save_nothing "table-1" 1 "Alice" "2025-01-02T10:00:00+00:00"
              Sample.no_names Sample.full_world) as (_ & H & _).
  destruct (refused_calls_save_nothing "table-1" 3 "Carol" "2025-01-02T10:00:00+00:00"
              Sample.no_names Sample.full_world) as (_ & _ & _ & _ & H' & _).
  split.
  - destruct (H Sample.full_table eq_refl ltac:(left; constructor)) as [_ Hs].
    apply injective_projections; [reflexivity | exact Hs].
  - apply (H' Sample.full_table eq_refl).
    + intros Hin. apply list_elem_of_singleton in Hin. discriminate.
    + intros Hin. apply list_elem_of_singleton in Hin. discriminate.
Defined.

(* ===================================================================== *)
(** * Histories: what every event keeps                                   *)
(* ===================================================================== *)

(** An event either saves nothing or saves the active partition with the
    table it is addressed to replaced as [table_step] says. *)
Lemma run_event_step (ev : event) (w : World) :
  snd (run_event ev w) = w \/
  exists t0 t1,
    active_file w !! event_table ev = Some t0 /\
    snd (run_event ev w) = saved (event_table ev) t1 w /\
    table_step ev t0 t1.
Proof.
  destruct ev as [table_id uid uname now resolve | table_id uid resolve
                 | table_id sys sched inf mp]; simpl; unfold bind, ret.
  - destruct (active_file w !! table_id) as [t|] eqn:Hlook.
    + rewrite (join_callback_found _ _ _ _ _ _ _ Hlook).
      destruct (any_id uid (players t)) eqn:H1; [now left|].
      destruct (any_id uid (waitlist t)) eqn:H2; [now left|].
      apply any_id_false in H1, H2.
      destruct (Z.of_nat (length (players t)) >=? max_players t) eqn:Hfull;
        right; exists t; eexists; (split; [reflexivity|]); (split; [reflexivity|]).
      * apply step_queue; auto. lia.
      * apply step_seat; auto. lia.
    + rewrite (join_callback_missing _ _ _ _ _ _ Hlook). now left.
  - destruct (active_file w !! table_id) as [t|] eqn:Hlook.
    + rewrite (leave_callback_found _ _ _ _ _ Hlook).
      destruct (any_id uid (players t)) eqn:H1.
      * apply any_id_true in H1.
        destruct (waitlist t) as [|first rest] eqn:Hw;
          right; exists t; eexists; (split; [reflexivity|]); (split; [reflexivity|]).
        -- now apply step_leave_roster.
        -- now apply step_promote.
      * destruct (any_id uid (waitlist t)) eqn:H2; [|now left].
        apply any_id_false in H1. apply any_id_true in H2.
        right; exists t; eexists; (split; [reflexivity|]); (split; [reflexivity|]).
        now apply step_leave_waitlist.
    + rewrite (leave_callback_missing _ _ _ _ Hlook). now left.
  - destruct (check_form sys sched inf mp) as [e|c] eqn:Hc.
    + unfold EditTableModal.on_submit. rewrite Hc. now left.
    + destruct (active_file w !! table_id) as [t|] eqn:Hlook.
      * rewrite (edit_on_submit_found _ _ _ _ _ _ _ _ Hc Hlook). cbv zeta.
        destruct (Z.of_nat (length (players t)) >? c) eqn:Hgt;
          right; exists t; eexists; (split; [reflexivity|]); (split; [reflexivity|]).
        -- eapply step_edit_demote; eauto. lia.
        -- eapply step_edit_plain; eauto. lia.
      * unfold EditTableModal.on_submit. rewrite Hc.
        unfold bind, load_tables, ret. simpl. rewrite Hlook. now left.
Qed.

(** What a lookup finds after an event, in terms of the store before. *)
Lemma run_event_lookup (ev : event) (w : World) (table_id : string) (t' : TableData) :
  active_file (snd (run_event ev w)) !! table_id = Some t' ->
  active_file w !! table_id = Some t' \/
  (exists t, active_file w !! table_id = Some t /\ table_id <> event_table ev /\
     t' = set_archive_reason None t) \/
  (exists t0 t1, table_id = event_table ev /\ active_file w !! table_id = Some t0 /\
     table_step ev t0 t1 /\ t' = set_archive_reason None t1).
Proof.
  destruct (run_event_step ev w) as [-> | (t0 & t1 & Hlook & -> & Hstep)]; [now left|].
  destruct (decide (event_table ev = table_id)) as [<- | Hne].
  - rewrite lookup_saved. intros [= <-]. right. right. eauto 10.
  - rewrite lookup_saved_ne by assumption.
    destruct (active_file w !! table_id) as [t|] eqn:Ht; simpl; intros [= <-].
    right. left. eauto.
Qed.

(** A property of records that every step and the clearing of the reason
    keep holds along every history. *)
Lemma invariant_run (P : TableData -> Prop) :
  (forall t, P t -> P (set_archive_reason None t)) ->
  (forall ev t0 t1, table_step ev t0 t1 -> P t0 -> P t1) ->
  forall (table_id : string) (evs : list event) (w : World),
    (forall t, active_file w !! table_id = Some t -> P t) ->
    forall t, active_file (snd (run_events evs w)) !! table_id = Some t -> P t.
Proof.
  intros Hclear Hstep table_id evs.
  induction evs as [|ev evs IH]; intros w Hinv; simpl; [assumption|].
  unfold bind. destruct (run_event ev w) as [u w1] eqn:Hev.
  apply IH. replace w1 with (snd (run_event ev w)) by now rewrite Hev.
  intros t Ht.
  destruct (run_event_lookup ev w table_id t Ht)
    as [H | [(t0 & H0 & _ & ->) | (t0 & t1 & _ & H0 & Hs & ->)]]; eauto.
Qed.

Lemma without_id_shorter (uid : Z) (bucket : list PlayerEntry) :
  uid ∈ ids bucket -> (length (without_id uid bucket) < length bucket)%nat.
Proof.
  unfold ids, without_id. induction bucket as [|e l IH]; simpl; intros Hin.
  - inversion Hin.
  - destruct (id e =? uid) eqn:He; simpl.
    + pose proof (List.filter_length_le (fun entry => negb (id entry =? uid)) l). lia.
    + apply elem_of_cons in Hin as [-> | Hin]; [apply Z.eqb_neq in He; congruence|].
      apply IH in Hin. lia.
Qed.

Lemma without_id_length (uid : Z) (bucket : list PlayerEntry) :
  (length (without_id uid bucket) <= length bucket)%nat.
Proof. apply List.filter_length_le. Qed.

Lemma capacity_step (ev : event) (t0 t1 : TableData) :
  table_step ev t0 t1 ->
  within_capacity t0 /\ 1 <= max_players t0 <= 20 ->
  within_capacity t1 /\ 1 <= max_players t1 <= 20.
Proof.
  unfold within_capacity.
  destruct 1 as [? ? ? ? ? t H1 H2 H3 | ? ? ? ? ? t H1 H2 H3 | ? ? ? t H1 H2
                | ? ? ? t first rest H1 H2 | ? ? ? t H1 H2
                | ? ? ? ? ? c t Hc Hlt | ? ? ? ? ? c t Hc Hle];
    simpl; intros [Hcap Hrange]; rewrite ?length_map, ?length_app; simpl.
  - split; [lia | assumption].
  - split; assumption.
  - pose proof (without_id_length uid (players t)). split; [lia | assumption].
  - pose proof (without_id_shorter uid (players t) H1). split; [lia | assumption].
  - split; assumption.
  - apply check_form_accepts in Hc as (_ & Hr & _).
    rewrite length_firstn. split; lia.
  - apply check_form_accepts in Hc as (_ & Hr & _). split; lia.
Qed.

(** X1. In every record reached from a table just created by any sequence
    of join, leave and edit events, the roster is no longer than the
    capacity, and the capacity is between 1 and 20. *)
Theorem roster_stays_within_capacity
    (uid : Z) (system_value schedule_value infos_value : string)
    (max_players_value : option Z) (table_id now : string) (guild : option Z)
    (post : PostResult) (w0 w1 : World) (evs : list event) (t : TableData) :
  NewTableModal.on_submit uid system_value schedule_value infos_value
    max_players_value table_id now guild post w0 = (Created, w1) ->
  active_file (snd (run_events evs w1)) !! table_id = Some t ->
  Z.of_nat (length (players t)) <= max_players t /\ 1 <= max_players t <= 20.
Proof.
  intros Hcreate Hreach.
  apply (invariant_run (fun t => within_capacity t /\ 1 <= max_players t <= 20))
    with (table_id := table_id) (evs := evs) (w := w1); try assumption.
  - auto.
  - intros ev t0 t1. apply capacity_step.
  - intros t0 Ht0.
    destruct (on_submit_created _ _ _ _ _ _ _ _ _ _ _ Hcreate)
      as (t0' & c & _ & Hr & Hlook & Hp & _ & Hc & _).
    rewrite Hlook in Ht0. injection Ht0 as <-.
    unfold within_capacity. rewrite Hp, Hc. simpl. lia.
Qed.

(** X2. Join, leave and edit events never write the archived partition and
    never add a table to the active partition or take one out of it. *)
Theorem events_keep_the_partitions (evs : list event) (w : World) :
  archived_file (snd (run_events evs w)) = archived_file w /\
  dom (active_file (snd (run_events evs w))) = dom (active_file w).
Proof.
  revert w. induction evs as [|ev evs IH]; intros w; simpl; [auto|].
  unfold bind. destruct (run_event ev w) as [u w1] eqn:Hev.
  destruct (IH w1) as [-> ->].
  replace w1 with (snd (run_event ev w)) by now rewrite Hev.
  destruct (run_event_step ev w) as [-> | (t0 & t1 & Hlook & -> & _)]; [auto|].
  split; [reflexivity|]. unfold saved. simpl.
  rewrite dom_fmap_L, dom_insert_L.
  apply subseteq_union_1_L. apply singleton_subseteq_l.
  apply elem_of_dom. eauto.
Qed.

(** X3. An event changes nothing of the tables it is not addressed to,
    except that a save writes their [archive_reason] as null. *)
Theorem events_touch_one_table
    (ev : event) (w : World) (other : string) (t : TableData) :
  other <> event_table ev ->
  active_file w !! other = Some t ->
  exists t', active_file (snd (run_event ev w)) !! other = Some t' /\
    (t' = t \/ t' = set_archive_reason None t) /\
    players t' = players t /\ waitlist t' = waitlist t /\
    max_players t' = max_players t.
Proof.
  intros Hne Hlook.
  destruct (run_event_step ev w) as [-> | (t0 & t1 & _ & -> & _)].
  - exists t. auto.
  - rewrite lookup_saved_ne by congruence. rewrite Hlook. simpl.
    eexists. split; [reflexivity|]. auto.
Qed.

(* ===================================================================== *)
(** * Editing, joining and leaving: further laws                          *)
(* ===================================================================== *)

(** X4. An edit turned down by the form checks, or addressed to a table
    that is not active, saves nothing. An accepted edit writes the three
    texts and the capacity, leaves creator, message, channel, guild and
    creation time as they were, and keeps every participant: the roster and
    the waitlist together hold the same entries as before. When the roster
    fits the new capacity, roster and waitlist are not touched at all: a
    larger capacity promotes nobody. *)
Theorem edit_keeps_every_participant
    (table_id : string) (system_value schedule_value infos_value : string)
    (max_players_value : option Z) (w : World) :
  let r := EditTableModal.on_submit table_id system_value schedule_value
             infos_value max_players_value w in
  (forall e, check_form system_value schedule_value infos_value max_players_value
             = inl e -> r = (EditRejected e, w)) /\
  (forall c, check_form system_value schedule_value infos_value max_players_value
             = inr c ->
     active_file w !! table_id = None -> r = (EditNoTable, w)) /\
  (forall c t, check_form system_value schedule_value infos_value max_players_value
               = inr c ->
     active_file w !! table_id = Some t ->
     exists t', active_file (snd r) !! table_id = Some t' /\
       players t' ++ waitlist t' ≡ₚ players t ++ waitlist t /\
       system t' = system_value /\ schedule t' = schedule_value /\
       infos t' = infos_value /\ max_players t' = c /\
       creator_id t' = creator_id t /\ message_id t' = message_id t /\
       channel_id t' = channel_id t /\ guild_id t' = guild_id t /\
       created_at t' = created_at t /\
       (Z.of_nat (length (players t)) <= c ->
          fst r = Edited [] /\ players t' = players t /\ waitlist t' = waitlist t)).
Proof.
  cbv zeta. split; [|split].
  - intros e Hc. unfold EditTableModal.on_submit. now rewrite Hc.
  - intros c Hc Hlook. unfold EditTableModal.on_submit. rewrite Hc.
    unfold bind, load_tables, ret. simpl. now rewrite Hlook.
  - intros c t Hc Hlook.
    rewrite (edit_on_submit_found _ _ _ _ _ _ _ _ Hc Hlook). cbv zeta.
    destruct (Z.of_nat (length (players t)) >? c) eqn:Hgt; cbn [fst snd];
      rewrite lookup_saved; eexists; (split; [reflexivity|]); simpl.
    + split.
      * rewrite sort_by_joined_at_perm, <- Permutation_rev.
        rewrite (Permutation_app_comm (waitlist t)), app_assoc, firstn_skipn.
        reflexivity.
      * repeat split; try reflexivity; lia.
    + repeat split; reflexivity.
Qed.

Lemma without_id_populate (resolve : Z -> option string) (uid : Z)
    (bucket : list PlayerEntry) :
  without_id uid (map (populate_entry resolve) bucket)
  = map (populate_entry resolve) (without_id uid bucket).
Proof.
  unfold without_id. induction bucket as [|e l IH]; simpl; [reflexivity|].
  rewrite populate_entry_id. destruct (negb (id e =? uid)); simpl; now rewrite IH.
Qed.

Lemma without_id_snoc_self (uid : Z) (now : string) (name : option string)
    (bucket : list PlayerEntry) :
  uid ∉ ids bucket ->
  without_id uid (bucket ++ [mkPlayerEntry uid now name]) = bucket.
Proof.
  intros Hnin. unfold without_id. rewrite List.filter_app. simpl.
  rewrite Z.eqb_refl. simpl. rewrite app_nil_r. now apply without_id_absent.
Qed.

Lemma any_id_populate (resolve : Z -> option string) (uid : Z)
    (bucket : list PlayerEntry) :
  any_id uid (map (populate_entry resolve) bucket) = any_id uid bucket.
Proof.
  unfold any_id. induction bucket as [|e l IH]; simpl; [reflexivity|].
  now rewrite populate_entry_id, IH.
Qed.

Lemma any_id_snoc_self (uid : Z) (now : string) (name : option string)
    (bucket : list PlayerEntry) :
  any_id uid (bucket ++ [mkPlayerEntry uid now name]) = true.
Proof.
  unfold any_id. rewrite existsb_app. simpl. rewrite Z.eqb_refl.
  now rewrite orb_true_r.
Qed.

(** X5. A join followed by a leave of the same actor gives back the roster
    and the waitlist the table had, entry for entry in identity and join
    time, whenever the join put the actor on the waitlist or nobody was
    waiting. *)
Theorem join_then_leave_restores
    (table_id : string) (uid : Z) (uname now : string)
    (resolve1 resolve2 : Z -> option string) (w : World) (t : TableData) :
  active_file w !! table_id = Some t ->
  uid ∉ ids (players t) -> uid ∉ ids (waitlist t) ->
  waitlist t = [] \/ max_players t <= Z.of_nat (length (players t)) ->
  let w1 := snd (SignupView.join_callback table_id uid uname now resolve1 w) in
  let w2 := snd (SignupView.leave_callback table_id uid resolve2 w1) in
  exists t2, active_file w2 !! table_id = Some t2 /\
    map stamp (players t2) = map stamp (players t) /\
    map stamp (waitlist t2) = map stamp (waitlist t) /\
    max_players t2 = max_players t.
Proof.
  intros Hlook Hn1 Hn2 Hcase. cbv zeta.
  rewrite (join_callback_found _ _ _ _ _ _ _ Hlook).
  pose proof Hn1 as Hb1. pose proof Hn2 as Hb2.
  apply any_id_false in Hb1, Hb2. rewrite Hb1, Hb2.
  destruct (Z.of_nat (length (players t)) >=? max_players t) eqn:Hfull; cbn [snd].
  - rewrite (leave_callback_found _ _ _ _ _ (lookup_saved _ _ _)).
    cbn [players waitlist set_archive_reason set_waitlist set_players
         SignupView._populate_display_names].
    rewrite any_id_populate, Hb1, any_id_populate, any_id_snoc_self. cbn [snd].
    rewrite lookup_saved. eexists. split; [reflexivity|]. simpl.
    rewrite without_id_populate, without_id_snoc_self by assumption.
    rewrite !map_stamp_populate, ?Hw. auto.
  - destruct Hcase as [Hw | Hge]; [|lia].
    rewrite (leave_callback_found _ _ _ _ _ (lookup_saved _ _ _)).
    cbn [players waitlist set_archive_reason set_waitlist set_players
         SignupView._populate_display_names].
    rewrite any_id_populate, any_id_snoc_self, Hw. cbn [map snd].
    rewrite lookup_saved. eexists. split; [reflexivity|]. simpl.
    rewrite without_id_populate, without_id_snoc_self by assumption.
    rewrite !map_stamp_populate, ?Hw. auto.
Qed.

Lemma without_id_one_less (uid : Z) (bucket : list PlayerEntry) :
  NoDup (ids bucket) -> uid ∈ ids bucket ->
  (length (without_id uid bucket) + 1 = length bucket)%nat.
Proof.
  unfold ids. induction bucket as [|e l IH]; simpl; intros Hnd Hin.
  - inversion Hin.
  - apply NoDup_cons in Hnd as [Hnin Hnd]. unfold without_id. simpl.
    destruct (id e =? uid) eqn:He; simpl.
    + apply Z.eqb_eq in He. subst uid.
      fold (without_id (id e) l). rewrite without_id_absent by exact Hnin. lia.
    + apply elem_of_cons in Hin as [-> | Hin]; [apply Z.eqb_neq in He; congruence|].
      fold (without_id uid l). specialize (IH Hnd Hin). lia.
Qed.

(** X6. When a roster member whose id occurs once in the roster leaves, one
    seat is freed: with nobody waiting the roster is one shorter; with
    somebody waiting the roster keeps its length, the head of the waitlist
    having taken the seat, and the waitlist is one shorter. *)
Theorem leave_frees_one_seat
    (table_id : string) (uid : Z) (resolve : Z -> option string)
    (w : World) (t : TableData) :
  active_file w !! table_id = Some t ->
  NoDup (ids (players t)) -> uid ∈ ids (players t) ->
  exists t',
    active_file (snd (SignupView.leave_callback table_id uid resolve w)) !! table_id
    = Some t' /\
    (waitlist t = [] ->
       (length (players t') + 1 = length (players t))%nat /\ waitlist t' = []) /\
    (waitlist t <> [] ->
       length (players t') = length (players t) /\
       (length (waitlist t') + 1 = length (waitlist t))%nat).
Proof.
  intros Hlook Hnd Hin.
  rewrite (leave_callback_found _ _ _ _ _ Hlook).
  pose proof (without_id_one_less uid (players t) Hnd Hin) as Hlen.
  apply any_id_true in Hin. rewrite Hin.
  destruct (waitlist t) as [|first rest] eqn:Hw; cbn [snd];
    rewrite lookup_saved; eexists; (split; [reflexivity|]); simpl;
    rewrite ?Hw, ?length_map, ?length_app; simpl; split; intros H;
    try congruence; split; try reflexivity; lia.
Qed.

(* ===================================================================== *)
(** * The waitlist along a history                                        *)
(* ===================================================================== *)

Lemma string_leb_empty (s : string) : String.leb "" s = true.
Proof. destruct s; reflexivity. Qed.

Lemma not_after_populate (resolve : Z -> option string) (clock : string)
    (l : list PlayerEntry) :
  Forall (fun e => String.leb (joined_at e) clock = true) l ->
  Forall (fun e => String.leb (joined_at e) clock = true)
    (map (populate_entry resolve) l).
Proof.
  induction 1 as [|e l He _ IH]; simpl; constructor; [|assumption].
  now rewrite populate_entry_joined_at.
Qed.

Lemma not_after_without (uid : Z) (clock : string) (l : list PlayerEntry) :
  Forall (fun e => String.leb (joined_at e) clock = true) l ->
  Forall (fun e => String.leb (joined_at e) clock = true) (without_id uid l).
Proof.
  unfold without_id. induction 1 as [|e l He _ IH]; simpl; [constructor|].
  destruct (negb (id e =? uid)); [constructor|]; assumption.
Qed.

Lemma timely_mono (c c' : string) (t : TableData) :
  timely c t -> String.leb c c' = true -> timely c' t.
Proof.
  intros [Hs Hall] Hcc. split; [assumption|].
  eapply Forall_impl; [exact Hall|]. intros e He. simpl in *.
  eapply string_leb_trans; eassumption.
Qed.

Lemma timely_populate (resolve : Z -> option string) (c : string) (t : TableData) :
  timely c t -> timely c (SignupView._populate_display_names resolve t).
Proof.
  intros [Hs Hall]. split; simpl.
  - now apply populate_sorted.
  - rewrite <- map_app. now apply not_after_populate.
Qed.

Lemma timely_step (c : string) (ev : event) (t0 t1 : TableData) :
  table_step ev t0 t1 ->
  timely c t0 -> String.leb c (clock_after c ev) = true ->
  timely (clock_after c ev) t1.
Proof.
  intros Hstep Ht Hclock. apply (timely_mono _ _ _ Ht) in Hclock as [Hs Hall].
  apply Forall_app in Hall as [Hp Hw].
  destruct Hstep as [? ? ? ? ? t H1 H2 H3 | ? ? ? ? ? t H1 H2 H3 | ? ? ? t H1 H2
                    | ? ? ? t first rest H1 H2 | ? ? ? t H1 H2
                    | ? ? ? ? ? c0 t Hc Hlt | ? ? ? ? ? c0 t Hc Hle];
    simpl clock_after in *; try apply timely_populate; split; simpl;
    try assumption.
  - apply Forall_app. split; [|assumption].
    apply Forall_app. split; [assumption|].
    constructor; [apply string_leb_refl | constructor].
  - apply waitlist_sorted_snoc; assumption.
  - apply Forall_app. split; [assumption|].
    apply Forall_app. split; [assumption|].
    constructor; [apply string_leb_refl | constructor].
  - apply Forall_app. split; [now apply not_after_without | assumption].
  - rewrite H2 in Hs. now apply waitlist_sorted_tail in Hs.
  - rewrite H2 in Hw. inversion Hw as [|? ? Hf Hr]; subst.
    apply Forall_app. split; [|assumption].
    apply Forall_app. split; [now apply not_after_without|].
    constructor; [assumption | constructor].
  - now apply without_id_sorted.
  - apply Forall_app. split; [assumption | now apply not_after_without].
  - apply sort_by_joined_at_sorted.
  - rewrite sort_by_joined_at_perm, <- Permutation_rev.
    rewrite (Permutation_app_comm (waitlist t)), app_assoc, firstn_skipn.
    apply Forall_app. split; assumption.
  - apply Forall_app. split; assumption.
Qed.

Lemma timely_run (table_id : string) (evs : list event) :
  forall (c : string) (w : World),
    nondecreasing (c :: join_times evs) ->
    (forall t, active_file w !! table_id = Some t -> timely c t) ->
    forall t, active_file (snd (run_events evs w)) !! table_id = Some t ->
      exists c', timely c' t.
Proof.
  induction evs as [|ev evs IH]; intros c w Hmono Hinv t; simpl.
  - intros Ht. eauto.
  - unfold bind. destruct (run_event ev w) as [u w1] eqn:Hev.
    assert (Hnext : String.leb c (clock_after c ev) = true /\
                    nondecreasing (clock_after c ev :: join_times evs)).
    { unfold nondecreasing in *.
      destruct ev; simpl in *; try (split; [apply string_leb_refl | assumption]).
      apply Sorted_inv in Hmono as [Hs Hhd]. split; [now inversion Hhd | assumption]. }
    destruct Hnext as [Hclock Hmono'].
    apply (IH (clock_after c ev) w1 Hmono').
    replace w1 with (snd (run_event ev w)) by now rewrite Hev.
    intros t' Ht'.
    destruct (run_event_lookup ev w table_id t' Ht')
      as [H | [(t0 & H0 & _ & ->) | (t0 & t1 & _ & H0 & Hs & ->)]].
    + eapply timely_mono; eauto.
    + eapply timely_mono; [|exact Hclock]. apply (Hinv t0 H0).
    + apply (timely_step c ev t0 t1 Hs (Hinv t0 H0) Hclock).
Qed.

(** X7. Along every history of join, leave and edit events of a table just
    created, if the joins were made at times that never decrease, the
    waitlist is in [joined_at] order at every moment: the appends of
    [join], the pops of [leave] and the sort of [edit] agree. *)
Theorem waitlist_stays_in_order
    (uid : Z) (system_value schedule_value infos_value : string)
    (max_players_value : option Z) (table_id now : string) (guild : option Z)
    (post : PostResult) (w0 w1 : World) (evs : list event) (t : TableData) :
  NewTableModal.on_submit uid system_value schedule_value infos_value
    max_players_value table_id now guild post w0 = (Created, w1) ->
  nondecreasing (join_times evs) ->
  active_file (snd (run_events evs w1)) !! table_id = Some t ->
  waitlist_sorted (waitlist t).
Proof.
  intros Hcreate Hmono Hreach.
  destruct (timely_run table_id evs "" w1) with (t := t) as [c' [Hs _]];
    try assumption.
  - unfold nondecreasing in *. constructor; [assumption|].
    destruct (join_times evs); constructor. apply string_leb_empty.
  - intros t0 Ht0.
    destruct (on_submit_created _ _ _ _ _ _ _ _ _ _ _ Hcreate)
      as (t0' & c & _ & _ & Hlook & Hp & Hw & _).
    rewrite Hlook in Ht0. injection Ht0 as <-.
    unfold timely. rewrite Hp, Hw. split; constructor.
Qed.

(* ===================================================================== *)
(** * Creating and archiving: further laws                                *)
(* ===================================================================== *)

Lemma check_form_valid (system_value schedule_value infos_value : string) (c : Z) :
  1 <= c <= 20 ->
  system_value <> "" -> schedule_value <> "" -> infos_value <> "" ->
  len system_value <= 100 ->
  len schedule_value <= 120 ->
  len infos_value <= 1024 ->
  check_form system_value schedule_value infos_value (Some c) = inr c.
Proof.
  intros Hc H1 H2 H3 H4 H5 H6. unfold check_form.
  apply String.eqb_neq in H1, H2, H3. rewrite H1, H2, H3.
  replace (c <=? 0) with false by lia. replace (c >? 20) with false by lia.
  replace (len system_value >? 100) with false by lia.
  replace (len schedule_value >? 120) with false by lia.
  replace (len infos_value >? 1024) with false by lia.
  reflexivity.
Qed.

(** [len] counts the bytes that begin a code point: those that are not of
    the form [10xxxxxx]. *)
Lemma len_counts_code_points (value : string) :
  len value
  = Z.of_nat (length (List.filter
                        (fun byte => (Ascii.N_of_ascii byte <? 128)%N
                                     || (192 <=? Ascii.N_of_ascii byte)%N)
                        (String.list_ascii_of_string value))).
Proof.
  unfold len. f_equal. induction value as [|c value IH]; [reflexivity|].
  cbn [code_points String.list_ascii_of_string List.filter]. unfold is_continuation.
  destruct (N.ltb_spec (Ascii.N_of_ascii c) 128);
    destruct (N.leb_spec 192 (Ascii.N_of_ascii c));
    destruct (N.leb_spec 128 (Ascii.N_of_ascii c));
    destruct (N.ltb_spec (Ascii.N_of_ascii c) 192);
    cbn [orb andb length]; try (now rewrite IH); lia.
Qed.

(** X8. A creation form is accepted exactly when the capacity is a number
    from 1 to 20 and the three texts are not empty and within 100, 120 and
    1024 characters, a character being a code point: a byte of the UTF-8
    text that does not continue one. A form turned down, or a card that
    could not be posted, saves nothing. A successful creation stores under the new id a
    record with the texts and capacity of the form, the creator, the ids of
    the posted card, an empty roster, an empty waitlist and no archive
    stamp; the archived partition and the other active tables stay as they
    are, up to the null reason written by the save. *)
Theorem create_stores_a_fresh_record
    (uid : Z) (system_value schedule_value infos_value : string)
    (max_players_value : option Z) (table_id now : string) (guild : option Z)
    (post : PostResult) (w : World) :
  let r := NewTableModal.on_submit uid system_value schedule_value infos_value
             max_players_value table_id now guild post w in
  (forall c,
     check_form system_value schedule_value infos_value max_players_value = inr c <->
     max_players_value = Some c /\ 1 <= c <= 20 /\
     system_value <> "" /\ schedule_value <> "" /\ infos_value <> "" /\
     len system_value <= 100 /\
     len schedule_value <= 120 /\
     len infos_value <= 1024) /\
  (forall text : string,
     len text
     = Z.of_nat (length (List.filter
                           (fun byte => (Ascii.N_of_ascii byte <? 128)%N
                                        || (192 <=? Ascii.N_of_ascii byte)%N)
                           (String.list_ascii_of_string text)))) /\
  (forall e, check_form system_value schedule_value infos_value max_players_value
             = inl e -> r = (CreateRejected e, w)) /\
  (forall c, check_form system_value schedule_value infos_value max_players_value
             = inr c ->
     post = NotTextChannel \/ post = SendFailed -> r = (CreateNotPosted, w)) /\
  (forall c message channel,
     check_form system_value schedule_value infos_value max_players_value = inr c ->
     post = Posted message channel ->
     fst r = Created /\
     active_file (snd r) !! table_id
     = Some (mkTableData system_value infos_value schedule_value (Some now) c
               [] [] uid message channel (default 0 guild) None None None) /\
     archived_file (snd r) = archived_file w /\
     forall other, other <> table_id ->
       active_file (snd r) !! other
       = set_archive_reason None <$> active_file w !! other).
Proof.
  cbv zeta. split; [|split; [|split; [|split]]].
  - intros c. split; [apply check_form_accepts|].
    intros (-> & H). destruct H as (? & ? & ? & ? & ? & ? & ?).
    now apply check_form_valid.
  - apply len_counts_code_points.
  - intros e Hc. unfold NewTableModal.on_submit. now rewrite Hc.
  - intros c Hc Hpost. unfold NewTableModal.on_submit. rewrite Hc.
    unfold bind, load_tables, ret. now destruct Hpost as [-> | ->].
  - intros c message channel Hc ->. unfold NewTableModal.on_submit. rewrite Hc.
    unfold bind, load_tables, ret, save_tables. simpl.
    split; [reflexivity|]. split; [now rewrite lookup_fmap, lookup_insert_eq|].
    split; [reflexivity|].
    intros other Hne. now rewrite lookup_fmap, lookup_insert_ne.
Qed.

(** X9. An archive asked by someone who is neither the creator nor allowed
    to manage messages in the channel of the table is refused and saves
    nothing. Once a table has been archived it cannot be archived again,
    whoever asks, and every join, leave or edit addressed to it is refused;
    none of these attempts saves anything. *)
Theorem archived_tables_accept_nothing
    (uid : Z) (table_id : string) (more : list string)
    (manage_messages : Z -> Z -> bool) (w : World) (t : TableData) :
  table_id <> "no_tables" ->
  active_file w !! table_id = Some t ->
  let r := ArchiveView.select_callback uid uid (table_id :: more) manage_messages w in
  (uid <> creator_id t -> manage_messages (channel_id t) uid = false ->
     r = (ArchiveForbidden, w)) /\
  (uid = creator_id t \/ manage_messages (channel_id t) uid = true ->
     (forall view_user_id uid' more' permissions,
        ArchiveView.select_callback view_user_id uid' (table_id :: more') permissions
          (snd r)
        = (if negb (uid' =? view_user_id) then ArchiveNotForYou else ArchiveMissing,
           snd r)) /\
     (forall uid' uname now resolve,
        SignupView.join_callback table_id uid' uname now resolve (snd r)
        = (JoinNoTable, snd r)) /\
     (forall uid' resolve,
        SignupView.leave_callback table_id uid' resolve (snd r)
        = (LeaveNoTable, snd r)) /\
     (forall system_value schedule_value infos_value max_players_value,
        snd (EditTableModal.on_submit table_id system_value schedule_value
               infos_value max_players_value (snd r)) = snd r)).
Proof.
  intros Hne Hlook r. subst r.
  rewrite (select_callback_found _ _ _ _ _ _ Hne Hlook). cbv zeta. split.
  - intros Hcreator Hperm. apply Z.eqb_neq in Hcreator. now rewrite Hcreator, Hperm.
  - intros Hallowed.
    assert (Hgone : forall reason,
              active_file
                (mkWorld (set_archive_reason None <$> delete table_id (active_file w))
                   (<[table_id := set_archive_reason (Some reason) t]> (archived_file w))
                   (S (writes w))) !! table_id = None)
      by (intros reason; simpl; now rewrite lookup_fmap, lookup_delete_eq).
    assert (Hsel : exists reason,
              (if uid =? creator_id t
               then (Archived OWNER,
                     mkWorld (set_archive_reason None <$> delete table_id (active_file w))
                       (<[table_id := set_archive_reason (Some OWNER) t]> (archived_file w))
                       (S (writes w)))
               else if manage_messages (channel_id t) uid
               then (Archived MOD,
                     mkWorld (set_archive_reason None <$> delete table_id (active_file w))
                       (<[table_id := set_archive_reason (Some MOD) t]> (archived_file w))
                       (S (writes w)))
               else (ArchiveForbidden, w))
              = (Archived reason,
                 mkWorld (set_archive_reason None <$> delete table_id (active_file w))
                   (<[table_id := set_archive_reason (Some reason) t]> (archived_file w))
                   (S (writes w)))).
    { destruct (uid =? creator_id t) eqn:Hc; [eauto|].
      destruct Hallowed as [-> | ->]; [rewrite Z.eqb_refl in Hc; discriminate | eauto]. }
    destruct Hsel as [reason ->]. cbn [snd]. specialize (Hgone reason).
    split; [|split; [|split]].
    + intros view_user_id uid' more' permissions.
      unfold ArchiveView.select_callback.
      destruct (negb (uid' =? view_user_id)); [reflexivity|].
      apply String.eqb_neq in Hne. rewrite Hne.
      unfold bind, load_tables, ret. cbn [fst snd]. now rewrite Hgone.
    + intros. now apply join_callback_missing.
    + intros. now apply leave_callback_missing.
    + intros sys sched inf mp. unfold EditTableModal.on_submit.
      destruct (check_form sys sched inf mp); [reflexivity|].
      unfold bind, load_tables, ret. cbn [fst snd]. now rewrite Hgone.
Qed.

(* ===================================================================== *)
(** * Bulk archive and clean-up                                           *)
(* ===================================================================== *)

(** The count kept by the loop of [archive_tables]: one for each listed id
    found active, however often and in whatever order the ids are listed. *)
Lemma archive_fold_count (reason : ArchiveReason) (table_ids : list string) :
  forall (active archived : gmap string TableData) (n : nat),
    let '(_, _, n') := fold_left (archive_one reason) table_ids (active, archived, n) in
    n' = (n + size (dom active ∩ list_to_set table_ids : gset string))%nat.
Proof.
  induction table_ids as [|x rest IH]; intros active archived n.
  - simpl. rewrite intersection_empty_r_L, size_empty. lia.
  - cbn [fold_left].
    assert (Hstep : archive_one reason (active, archived, n) x =
                    match active !! x with
                    | None => (active, archived, n)
                    | Some record =>
                        (delete x active,
                         <[x := set_archive_reason (Some reason) record]> archived,
                         S n)
                    end) by reflexivity.
    rewrite Hstep. clear Hstep. cbn [list_to_set].
    destruct (active !! x) as [tx|] eqn:Hx.
    + specialize (IH (delete x active)
                     (<[x := set_archive_reason (Some reason) tx]> archived) (S n)).
      destruct (fold_left (archive_one reason) rest _) as [[a' r'] n'].
      rewrite IH, dom_delete_L.
      assert (Hsplit : dom active ∩ ({[x]} ∪ list_to_set rest)
                       = ({[x]} : gset string)
                         ∪ ((dom active ∖ {[x]}) ∩ list_to_set rest)).
      { apply set_eq. intros k. apply (elem_of_dom_2 active) in Hx.
        rewrite !elem_of_intersection, !elem_of_union, elem_of_intersection,
          elem_of_difference, !elem_of_singleton.
        destruct (decide (k = x)) as [-> | Hne]; tauto. }
      assert (Hdisj : ({[x]} : gset string)
                      ## (dom active ∖ {[x]}) ∩ list_to_set rest).
      { intros k. rewrite elem_of_singleton, elem_of_intersection, elem_of_difference,
          elem_of_singleton. tauto. }
      rewrite Hsplit, (size_union _ _ Hdisj), size_singleton. lia.
    + specialize (IH active archived n).
      destruct (fold_left (archive_one reason) rest _) as [[a' r'] n'].
      rewrite IH. f_equal. f_equal. apply set_eq. intros k.
      apply (not_elem_of_dom_2 active) in Hx.
      rewrite !elem_of_intersection, elem_of_union, elem_of_singleton.
      split; [tauto|]. intros [Hk [-> | Hr]]; tauto.
Qed.

(** What [archive_tables] returns and leaves in the store. *)
Lemma archive_tables_effect (table_ids : list string) (reason : ArchiveReason)
    (w : World) :
  let r := archive_tables table_ids reason w in
  let hits : gset string := dom (active_file w) ∩ list_to_set table_ids in
  fst r = size hits /\
  (size hits = O -> snd r = w) /\
  (size hits <> O -> writes (snd r) = S (writes w)) /\
  (forall k t, k ∈ table_ids -> active_file w !! k = Some t ->
     active_file (snd r) !! k = None /\
     archived_file (snd r) !! k = Some (set_archive_reason (Some reason) t)) /\
  (forall k, k ∉ table_ids \/ active_file w !! k = None ->
     archived_file (snd r) !! k = archived_file w !! k /\
     (active_file (snd r) !! k = active_file w !! k \/
      active_file (snd r) !! k = set_archive_reason None <$> active_file w !! k)).
Proof.
  cbv zeta. unfold archive_tables, bind, load_tables, ret.
  pose proof (archive_fold_lookup reason table_ids (active_file w) (archived_file w) O)
    as Hlook.
  pose proof (archive_fold_count reason table_ids (active_file w) (archived_file w) O)
    as Hcount.
  destruct (fold_left (archive_one reason) table_ids _) as [[a' r'] n'].
  destruct Hlook as [_ Hlook]. simpl in Hcount. subst n'.
  destruct (size (dom (active_file w) ∩ list_to_set table_ids)) as [|n] eqn:Hsize.
  - cbn [fst snd]. split; [reflexivity|]. split; [reflexivity|]. split; [congruence|].
    split.
    + intros k t Hin Hk. destruct (Hlook k) as (_ & _ & H3).
      destruct (H3 t Hin Hk) as (_ & _ & Hlt). lia.
    + intros k _. auto.
  - unfold save_tables. cbn [fst snd active_file archived_file writes].
    split; [reflexivity|]. split; [discriminate|]. split; [reflexivity|]. split.
    + intros k t Hin Hk. destruct (Hlook k) as (_ & _ & H3).
      destruct (H3 t Hin Hk) as (Ha & Hr & _). now rewrite lookup_fmap, Ha, Hr.
    + intros k Hk. destruct (Hlook k) as (H1 & H2 & _). rewrite lookup_fmap.
      destruct Hk as [Hk | Hk].
      * destruct (H2 Hk) as [-> ->]. auto.
      * destruct (H1 Hk) as [-> ->]. rewrite Hk. auto.
Qed.

(** X10. [archive_tables] returns the number of different listed ids that
    were active, whatever else the list holds. If there is none it saves
    nothing. Otherwise it saves once: each of them is gone from the active
    partition and stands in the archived one with the given reason and
    nothing else changed; the archived records of all other ids are left as
    they were, and the other active tables stay active. *)
Theorem archive_tables_counts_and_moves
    (table_ids : list string) (reason : ArchiveReason) (w : World) :
  let r := archive_tables table_ids reason w in
  let hits : gset string := dom (active_file w) ∩ list_to_set table_ids in
  fst r = size hits /\
  (size hits = O -> snd r = w) /\
  (size hits <> O -> writes (snd r) = S (writes w)) /\
  (forall k t, k ∈ table_ids -> active_file w !! k = Some t ->
     active_file (snd r) !! k = None /\
     archived_file (snd r) !! k = Some (set_archive_reason (Some reason) t)) /\
  (forall k, k ∉ table_ids \/ active_file w !! k = None ->
     archived_file (snd r) !! k = archived_file w !! k /\
     (active_file (snd r) !! k = active_file w !! k \/
      active_file (snd r) !! k = set_archive_reason None <$> active_file w !! k)).
Proof. apply archive_tables_effect. Qed.

Lemma elem_of_ids_where (test : TableData -> bool) (m : gmap string TableData)
    (k : string) :
  k ∈ ids_where test m <-> exists t, m !! k = Some t /\ test t = true.
Proof.
  unfold ids_where. rewrite list_elem_of_fmap. split.
  - intros ([k' t] & -> & Hin). apply list_elem_of_In, List.filter_In in Hin.
    destruct Hin as [Hin Htest]. apply list_elem_of_In, elem_of_map_to_list in Hin.
    eauto.
  - intros (t & Hk & Htest). exists (k, t). split; [reflexivity|].
    apply list_elem_of_In, List.filter_In. split; [|assumption].
    apply list_elem_of_In, elem_of_map_to_list. assumption.
Qed.

Lemma ids_where_hits (test : TableData -> bool) (m : gmap string TableData) :
  dom m ∩ list_to_set (ids_where test m)
  = dom (filter (fun item => test (snd item) = true) m).
Proof.
  apply set_eq. intros k.
  rewrite elem_of_intersection, elem_of_list_to_set, elem_of_ids_where, !elem_of_dom.
  split.
  - intros (_ & t & Hk & Htest). exists t. apply map_lookup_filter_Some. auto.
  - intros [t Ht]. apply map_lookup_filter_Some in Ht as [Hk Htest]. eauto.
Qed.

(** What archiving the tables that pass a test returns and leaves. *)
Lemma clean_up_effect (test : TableData -> bool) (reason : ArchiveReason) (w : World) :
  let r := archive_tables (ids_where test (active_file w)) reason w in
  fst r = size (filter (fun item => test (snd item) = true) (active_file w)) /\
  (fst r = O -> snd r = w) /\
  (forall k t', active_file (snd r) !! k = Some t' ->
     exists t, active_file w !! k = Some t /\ test t = false /\
       (t' = t \/ t' = set_archive_reason None t)) /\
  (forall k t, active_file w !! k = Some t -> test t = true ->
     active_file (snd r) !! k = None /\
     archived_file (snd r) !! k = Some (set_archive_reason (Some reason) t)) /\
  (forall k t, active_file w !! k = Some t -> test t = false ->
     archived_file (snd r) !! k = archived_file w !! k /\
     exists t', active_file (snd r) !! k = Some t' /\
       (t' = t \/ t' = set_archive_reason None t)) /\
  (forall k, active_file w !! k = None ->
     archived_file (snd r) !! k = archived_file w !! k).
Proof.
  cbv zeta.
  destruct (archive_tables_effect (ids_where test (active_file w)) reason w)
    as (Hn & Hzero & _ & Hhit & Hmiss).
  rewrite ids_where_hits, size_dom in Hn, Hzero.
  split; [exact Hn|]. split; [intros H0; apply Hzero; congruence|].
  assert (Hkeep : forall k t, active_file w !! k = Some t -> test t = false ->
            k ∉ ids_where test (active_file w)).
  { intros k t Hk Ht Hin. apply elem_of_ids_where in Hin as (t0 & Hk0 & Ht0).
    congruence. }
  split; [|split; [|split]].
  - intros k t' Hk'.
    destruct (active_file w !! k) as [t|] eqn:Hk.
    + destruct (test t) eqn:Ht.
      * assert (Hin : k ∈ ids_where test (active_file w))
          by (apply elem_of_ids_where; eauto).
        destruct (Hhit k t Hin Hk) as [Hgone _]. congruence.
      * exists t. split; [reflexivity|]. split; [assumption|].
        destruct (Hmiss k (or_introl (Hkeep k t Hk Ht))) as [_ [Ha | Ha]];
          rewrite Ha, Hk in Hk'; simpl in Hk'; injection Hk' as <-; auto.
    + destruct (Hmiss k (or_intror Hk)) as [_ [H | H]];
        rewrite H, Hk in Hk'; discriminate.
  - intros k t Hk Ht. apply Hhit; [|assumption]. apply elem_of_ids_where. eauto.
  - intros k t Hk Ht.
    destruct (Hmiss k (or_introl (Hkeep k t Hk Ht))) as [Hr [Ha | Ha]];
      rewrite Ha, Hk; simpl; eauto.
  - intros k Hk. now destruct (Hmiss k (or_intror Hk)) as [Hr _].
Qed.

(** X11. When a channel is deleted or the bot leaves a guild,
    [remove_tables_for_channel] and [remove_tables_for_guild] return the
    number of active tables of the channel (of the guild); with none they
    leave the store untouched. Afterwards no active table is left in
    that channel (guild): each one stands in the archived partition with the
    reason [KICK]; the tables of other channels (guilds) are still active,
    unchanged but for a null archive reason. *)
Theorem removal_archives_exactly_the_tables_of_the_place (place : Z) (w : World) :
  let rc := TablePlannerBot.on_guild_channel_delete place w in
  let rg := TablePlannerBot.on_guild_remove place w in
  (fst rc = size (filter (fun item => channel_id (snd item) = place) (active_file w)) /\
   (fst rc = O -> snd rc = w) /\
   (forall k t', active_file (snd rc) !! k = Some t' -> channel_id t' <> place) /\
   (forall k t, active_file w !! k = Some t -> channel_id t = place ->
      active_file (snd rc) !! k = None /\
      archived_file (snd rc) !! k = Some (set_archive_reason (Some KICK) t)) /\
   (forall k t, active_file w !! k = Some t -> channel_id t <> place ->
      exists t', active_file (snd rc) !! k = Some t' /\
        (t' = t \/ t' = set_archive_reason None t))) /\
  (fst rg = size (filter (fun item => guild_id (snd item) = place) (active_file w)) /\
   (fst rg = O -> snd rg = w) /\
   (forall k t', active_file (snd rg) !! k = Some t' -> guild_id t' <> place) /\
   (forall k t, active_file w !! k = Some t -> guild_id t = place ->
      active_file (snd rg) !! k = None /\
      archived_file (snd rg) !! k = Some (set_archive_reason (Some KICK) t)) /\
   (forall k t, active_file w !! k = Some t -> guild_id t <> place ->
      exists t', active_file (snd rg) !! k = Some t' /\
        (t' = t \/ t' = set_archive_reason None t))).
Proof.
  cbv zeta. unfold TablePlannerBot.on_guild_channel_delete,
    TablePlannerBot.on_guild_remove. split.
  - change (remove_tables_for_channel place w)
      with (archive_tables
              (ids_where (fun info => channel_id info =? place) (active_file w)) KICK w).
    destruct (clean_up_effect (fun info => channel_id info =? place) KICK w)
      as (Hn & Hzero & Hleft & Hhit & Hmiss & _).
    split.
    { rewrite Hn. f_equal. apply map_filter_ext. intros k t _. simpl.
      apply Z.eqb_eq. }
    split; [exact Hzero|]. split; [|split].
    + intros k t' Hk' Hplace.
      destruct (Hleft k t' Hk') as (t & _ & Ht & [-> | ->]);
        apply Z.eqb_neq in Ht; simpl in Hplace; congruence.
    + intros k t Hk Heq. apply Hhit; [assumption | now apply Z.eqb_eq].
    + intros k t Hk Hne.
      now destruct (Hmiss k t Hk ltac:(now apply Z.eqb_neq)) as (_ & Hex).
  - change (remove_tables_for_guild place w)
      with (archive_tables
              (ids_where (fun info => guild_id info =? place) (active_file w)) KICK w).
    destruct (clean_up_effect (fun info => guild_id info =? place) KICK w)
      as (Hn & Hzero & Hleft & Hhit & Hmiss & _).
    split.
    { rewrite Hn. f_equal. apply map_filter_ext. intros k t _. simpl.
      apply Z.eqb_eq. }
    split; [exact Hzero|]. split; [|split].
    + intros k t' Hk' Hplace.
      destruct (Hleft k t' Hk') as (t & _ & Ht & [-> | ->]);
        apply Z.eqb_neq in Ht; simpl in Hplace; congruence.
    + intros k t Hk Heq. apply Hhit; [assumption | now apply Z.eqb_eq].
    + intros k t Hk Hne.
      now destruct (Hmiss k t Hk ltac:(now apply Z.eqb_neq)) as (_ & Hex).
Qed.

(* ===================================================================== *)
(** * Start-up                                                            *)
(* ===================================================================== *)

(** Leaving items out of a list keeps its keys distinct. *)
Lemma NoDup_keys_filter {A : Type} (keep : string * A -> bool)
    (items : list (string * A)) :
  NoDup (map fst items) -> NoDup (map fst (List.filter keep items)).
Proof.
  induction items as [|item rest IH]; [constructor|].
  cbn [List.filter map]. intros Hnd. apply NoDup_cons in Hnd as [Hnotin Hnd].
  destruct (keep item); [|auto].
  cbn [map]. apply NoDup_cons. split; [|auto].
  intros Hin. apply Hnotin. apply list_elem_of_fmap in Hin as (it & -> & Hit).
  apply list_elem_of_In, List.filter_In in Hit as [Hit _].
  apply list_elem_of_fmap. exists it. split; [reflexivity|]. now apply list_elem_of_In.
Qed.

(** The loop of [setup_hook] sorts the items into the two lists. *)
Lemma setup_fold (text_channel_guild : Z -> option Z)
    (items : list (string * TableData)) :
  forall (tables_to_archive : list string) (views : list (string * Z)),
    fold_left (TablePlannerBot.setup_step text_channel_guild) items
      (tables_to_archive, views)
    = (tables_to_archive
         ++ map fst (List.filter
                       (fun item =>
                          negb (TablePlannerBot.restorable text_channel_guild (snd item)))
                       items),
       views
         ++ map (fun item => (fst item, max_players (snd item)))
              (List.filter
                 (fun item => TablePlannerBot.restorable text_channel_guild (snd item))
                 items)).
Proof.
  induction items as [|item rest IH]; intros tables_to_archive views.
  - simpl. now rewrite !app_nil_r.
  - cbn [fold_left List.filter]. unfold TablePlannerBot.setup_step at 2.
    destruct (TablePlannerBot.restorable text_channel_guild (snd item));
      cbn [negb]; rewrite IH; cbn [map]; now rewrite <- ?app_assoc.
Qed.

(** What [setup_hook] returns and the store it leaves. *)
Lemma setup_hook_unfolded (text_channel_guild : Z -> option Z) (w : World) :
  TablePlannerBot.setup_hook text_channel_guild w
  = (map (fun item => (fst item, max_players (snd item)))
       (List.filter
          (fun item => TablePlannerBot.restorable text_channel_guild (snd item))
          (map_to_list (active_file w))),
     snd (archive_tables
            (ids_where
               (fun info => negb (TablePlannerBot.restorable text_channel_guild info))
               (active_file w))
            NO_ACCESS w)).
Proof.
  unfold TablePlannerBot.setup_hook, load_active_tables, bind, load_tables, ret.
  cbn [fst snd]. rewrite setup_fold. cbn [app]. fold (ids_where
    (fun info => negb (TablePlannerBot.restorable text_channel_guild info))
    (active_file w)).
  destruct (ids_where _ (active_file w)) as [|x rest] eqn:Hids.
  - reflexivity.
  - destruct (archive_tables (x :: rest) NO_ACCESS w). reflexivity.
Qed.

Lemma restorable_ignores_the_reason (text_channel_guild : Z -> option Z)
    (reason : option ArchiveReason) (t : TableData) :
  TablePlannerBot.restorable text_channel_guild (set_archive_reason reason t)
  = TablePlannerBot.restorable text_channel_guild t.
Proof. reflexivity. Qed.

(** X12. [setup_hook] adds a view for exactly the active tables whose guild
    and channel ids are not zero and whose channel is a text channel of that
    guild, each with the table's capacity, and one view per table. Every
    other active table is archived with the reason [NO_ACCESS]; the tables
    that got a view stay active, so that afterwards every active table is
    reachable. When all tables are reachable nothing is saved. *)
Theorem setup_restores_the_reachable_tables
    (text_channel_guild : Z -> option Z) (w : World) :
  let r := TablePlannerBot.setup_hook text_channel_guild w in
  let reachable := TablePlannerBot.restorable text_channel_guild in
  (forall k c, (k, c) ∈ fst r <->
     exists t, active_file w !! k = Some t /\ reachable t = true /\ max_players t = c) /\
  NoDup (map fst (fst r)) /\
  (forall k, k ∈ map fst (fst r) <-> is_Some (active_file (snd r) !! k)) /\
  (forall k t', active_file (snd r) !! k = Some t' -> reachable t' = true) /\
  (forall k t, active_file w !! k = Some t -> reachable t = false ->
     active_file (snd r) !! k = None /\
     archived_file (snd r) !! k = Some (set_archive_reason (Some NO_ACCESS) t)) /\
  (forall k t, active_file w !! k = Some t -> reachable t = true ->
     archived_file (snd r) !! k = archived_file w !! k /\
     exists t', active_file (snd r) !! k = Some t' /\
       (t' = t \/ t' = set_archive_reason None t)) /\
  ((forall k t, active_file w !! k = Some t -> reachable t = true) -> snd r = w).
Proof.
  cbv zeta. rewrite setup_hook_unfolded. cbn [fst snd].
  set (reachable := TablePlannerBot.restorable text_channel_guild).
  destruct (clean_up_effect (fun info => negb (reachable info)) NO_ACCESS w)
    as (Hn & Hzero & Hleft & Hhit & Hmiss & _).
  assert (Hview : forall k c,
     (k, c) ∈ map (fun item : string * TableData => (fst item, max_players (snd item)))
                (List.filter (fun item => reachable (snd item))
                   (map_to_list (active_file w)))
     <-> exists t, active_file w !! k = Some t /\ reachable t = true /\ max_players t = c).
  { intros k c. rewrite list_elem_of_fmap. split.
    - intros ([k' t] & Heq & Hin). cbn [fst snd] in Heq.
      assert (k = k') by congruence. assert (c = max_players t) by congruence.
      subst k' c.
      apply list_elem_of_In, List.filter_In in Hin as [Hin Ht].
      apply list_elem_of_In, elem_of_map_to_list in Hin. eauto.
    - intros (t & Hk & Ht & <-). exists (k, t). split; [reflexivity|].
      apply list_elem_of_In, List.filter_In. split; [|exact Ht].
      now apply list_elem_of_In, elem_of_map_to_list. }
  assert (Hfst : forall k,
     k ∈ map fst (map (fun item : string * TableData =>
                         (fst item, max_players (snd item)))
                    (List.filter (fun item => reachable (snd item))
                       (map_to_list (active_file w))))
     <-> exists t, active_file w !! k = Some t /\ reachable t = true).
  { intros k. rewrite list_elem_of_fmap. split.
    - intros ([k' c] & -> & Hin). apply Hview in Hin as (t & Hk & Ht & _). eauto.
    - intros (t & Hk & Ht). exists (k, max_players t). split; [reflexivity|].
      apply Hview. eauto. }
  split; [exact Hview|]. split; [|split; [|split; [|split; [|split]]]].
  - rewrite List.map_map. cbn [fst].
    apply (NoDup_keys_filter (fun item => reachable (snd item))),
      NoDup_fst_map_to_list.
  - intros k. rewrite Hfst. split.
    + intros (t & Hk & Ht).
      destruct (Hmiss k t Hk) as (_ & t' & Hk' & _); [now rewrite Ht|]. eauto.
    + intros [t' Hk']. destruct (Hleft k t' Hk') as (t & Hk & Ht & _).
      exists t. split; [assumption|]. now destruct (reachable t).
  - intros k t' Hk'. destruct (Hleft k t' Hk') as (t & _ & Ht & [-> | ->]);
      [|unfold reachable; rewrite restorable_ignores_the_reason; fold reachable];
      now destruct (reachable t).
  - intros k t Hk Ht. apply Hhit; [assumption|]. now rewrite Ht.
  - intros k t Hk Ht. apply Hmiss; [assumption|]. now rewrite Ht.
  - intros Hall. apply Hzero. rewrite Hn.
    apply map_size_empty_iff, map_empty. intros k.
    apply map_lookup_filter_None. right. intros t Hk. cbn [snd].
    rewrite (Hall k t Hk). discriminate.
Qed.

(* ===================================================================== *)
(** * The selectors of /archive-table and /edit-table                     *)
(* ===================================================================== *)

(** The tables the two commands put in the selector. *)
Lemma offered_lookup (uid : Z) (manage_messages : Z -> Z -> bool)
    (data : gmap string TableData) (tid : string) (t : TableData) :
  filter (fun item => eligible uid manage_messages (snd item) = true) data !! tid
    = Some t
  <-> data !! tid = Some t /\ eligible uid manage_messages t = true.
Proof. apply map_lookup_filter_Some. Qed.

(** X13. /archive-table saves nothing. It answers that there is nothing to
    archive exactly when the user created no active table and manages the
    messages of no active table's channel; otherwise it offers exactly the
    active tables the user created or moderates, to that user only. A table
    is offered exactly when [ArchiveView.select_callback] archives it for
    that user: with the reason [OWNER] for the creator and [MOD] otherwise. *)
Theorem archive_offers_what_can_be_archived
    (uid : Z) (manage_messages : Z -> Z -> bool) (w : World) :
  let offer := fst (archive_table uid manage_messages w) in
  let offered :=
    filter (fun item => eligible uid manage_messages (snd item) = true) (active_file w) in
  snd (archive_table uid manage_messages w) = w /\
  (offer = NoEligibleTables <->
     forall tid t, active_file w !! tid = Some t -> eligible uid manage_messages t = false) /\
  (offer <> NoEligibleTables -> offer = Offered offered uid) /\
  (forall tid t, offered !! tid = Some t <->
     active_file w !! tid = Some t /\
     (creator_id t = uid \/ manage_messages (channel_id t) uid = true)) /\
  (forall tid, tid <> "no_tables" ->
     (is_Some (offered !! tid) <->
      exists reason,
        fst (ArchiveView.select_callback uid uid [tid] manage_messages w)
        = Archived reason)) /\
  (forall tid t, tid <> "no_tables" -> offered !! tid = Some t ->
     fst (ArchiveView.select_callback uid uid [tid] manage_messages w)
     = Archived (if creator_id t =? uid then OWNER else MOD)).
Proof.
  cbv zeta.
  set (offered := filter (fun item => eligible uid manage_messages (snd item) = true)
                    (active_file w)).
  assert (Hrun : archive_table uid manage_messages w
                 = (if decide (offered = ∅) then NoEligibleTables
                    else Offered offered uid, w)).
  { unfold archive_table, load_active_tables, bind, load_tables, ret. cbn [fst snd].
    fold offered. now destruct (decide (offered = ∅)). }
  rewrite Hrun. cbn [fst snd].
  assert (Hsel : forall tid, tid <> "no_tables" ->
            fst (ArchiveView.select_callback uid uid [tid] manage_messages w)
            = match active_file w !! tid with
              | None => ArchiveMissing
              | Some t =>
                  if creator_id t =? uid then Archived OWNER
                  else if manage_messages (channel_id t) uid then Archived MOD
                  else ArchiveForbidden
              end).
  { intros tid Hne. unfold ArchiveView.select_callback.
    rewrite Z.eqb_refl. cbn [negb].
    destruct (String.eqb_spec tid "no_tables") as [Heq | _]; [contradiction|].
    unfold bind, load_tables, ret. cbn [fst snd].
    destruct (active_file w !! tid) as [t|]; [|reflexivity].
    rewrite (Z.eqb_sym uid (creator_id t)).
    destruct (creator_id t =? uid); cbn [negb]; [reflexivity|].
    now destruct (manage_messages (channel_id t) uid). }
  split; [reflexivity|]. split; [|split; [|split; [|split]]].
  - split.
    + destruct (decide (offered = ∅)) as [Hempty | _]; [|discriminate].
      intros _ tid t Hk. destruct (eligible uid manage_messages t) eqn:He; [|reflexivity].
      assert (Hin : offered !! tid = Some t) by (apply offered_lookup; auto).
      rewrite Hempty, lookup_empty in Hin. discriminate.
    + intros Hnone. destruct (decide (offered = ∅)) as [_ | Hne]; [reflexivity|].
      exfalso. apply Hne. apply map_empty. intros tid.
      destruct (offered !! tid) as [t|] eqn:Hin; [|reflexivity].
      apply offered_lookup in Hin as [Hk He]. rewrite (Hnone tid t Hk) in He.
      discriminate.
  - destruct (decide (offered = ∅)); [contradiction | reflexivity].
  - intros tid t. unfold offered. rewrite offered_lookup. unfold eligible.
    rewrite orb_true_iff, Z.eqb_eq. reflexivity.
  - intros tid Hne. rewrite (Hsel tid Hne). split.
    + intros [t Hin]. apply offered_lookup in Hin as [Hk He]. rewrite Hk.
      unfold eligible in He.
      destruct (creator_id t =? uid); [eauto|]. cbn [orb] in He. rewrite He. eauto.
    + intros [reason Hres]. destruct (active_file w !! tid) as [t|] eqn:Hk;
        [|discriminate].
      exists t. apply offered_lookup. split; [exact Hk|]. unfold eligible.
      destruct (creator_id t =? uid); [reflexivity|]. cbn [orb].
      now destruct (manage_messages (channel_id t) uid).
  - intros tid t Hne Hin. rewrite (Hsel tid Hne).
    apply offered_lookup in Hin as [Hk He]. rewrite Hk. unfold eligible in He.
    destruct (creator_id t =? uid); [reflexivity|]. cbn [orb] in He. now rewrite He.
Qed.

(** [EditTableView.select_callback] only reads the store. *)
Lemma edit_select_reads_only (view_user_id uid : Z) (values : list string) (w : World) :
  snd (EditTableView.select_callback view_user_id uid values w) = w.
Proof.
  unfold EditTableView.select_callback.
  destruct (negb (uid =? view_user_id)); [reflexivity|].
  destruct values as [|tid rest]; [reflexivity|].
  destruct (String.eqb tid "no_tables"); [reflexivity|].
  unfold bind, load_tables, ret. cbn [fst snd].
  now destruct (active_file w !! tid).
Qed.

(** X14. /edit-table offers a user the same tables as /archive-table, and
    only in a server channel. Choosing an offered table opens the form on
    the stored record; anybody else is turned away, and the selector never
    saves anything. When the form comes back with the record's own values,
    and these pass the checks and the roster fits the capacity, nobody is
    demoted and the record is saved as it was, other than a null archive
    reason. *)
Theorem unchanged_form_keeps_the_record
    (uid : Z) (manage_messages : Z -> Z -> bool) (w : World)
    (tid : string) (t : TableData) :
  tid <> "no_tables" ->
  active_file w !! tid = Some t ->
  eligible uid manage_messages t = true ->
  let offered :=
    filter (fun item => eligible uid manage_messages (snd item) = true) (active_file w) in
  edit_table uid false manage_messages w = (ServerChannelOnly, w) /\
  edit_table uid true manage_messages w = (Offered offered uid, w) /\
  archive_table uid manage_messages w = (Offered offered uid, w) /\
  offered !! tid = Some t /\
  EditTableView.select_callback uid uid [tid] w = (ModalOpened tid t, w) /\
  (forall other values, other <> uid ->
     EditTableView.select_callback uid other values w = (EditNotForYou, w)) /\
  (forall view_user_id other values,
     snd (EditTableView.select_callback view_user_id other values w) = w) /\
  (check_form (system t) (schedule t) (infos t) (Some (max_players t))
     = inr (max_players t) ->
   within_capacity t ->
   let r := EditTableModal.on_submit tid (system t) (schedule t) (infos t)
              (Some (max_players t)) w in
   fst r = Edited [] /\
   active_file (snd r) !! tid = Some (set_archive_reason None t) /\
   archived_file (snd r) = archived_file w).
Proof.
  intros Hne Hk He offered.
  assert (Hin : offered !! tid = Some t) by (apply offered_lookup; auto).
  assert (Hfull : offered <> ∅).
  { intros Hempty. rewrite Hempty, lookup_empty in Hin. discriminate. }
  assert (Hoffer : archive_table uid manage_messages w = (Offered offered uid, w)).
  { unfold archive_table, load_active_tables, bind, load_tables, ret. cbn [fst snd].
    fold offered. now destruct (decide (offered = ∅)). }
  split; [reflexivity|]. split; [exact Hoffer|]. split; [exact Hoffer|].
  split; [exact Hin|]. split; [|split; [|split]].
  - unfold EditTableView.select_callback. rewrite Z.eqb_refl. cbn [negb].
    destruct (String.eqb_spec tid "no_tables") as [Heq | _]; [contradiction|].
    unfold bind, load_tables, ret. cbn [fst snd]. now rewrite Hk.
  - intros other values Hother. unfold EditTableView.select_callback.
    apply Z.eqb_neq in Hother. now rewrite Hother.
  - intros view_user_id other values. apply edit_select_reads_only.
  - intros Hform Hcap. cbv zeta.
    rewrite (edit_on_submit_found _ _ _ _ _ _ _ _ Hform Hk). cbv zeta.
    unfold within_capacity in Hcap.
    assert (Hfit : (Z.of_nat (length (players t)) >? max_players t) = false)
      by (rewrite Z.gtb_ltb; apply Z.ltb_ge; lia).
    rewrite Hfit. cbn [fst snd]. split; [reflexivity|].
    rewrite lookup_saved. split; [|reflexivity].
    now destruct t.
Qed.

(* ===================================================================== *)
(** * The sliding window                                                  *)
(* ===================================================================== *)

(** Stamps below the cutoff at the front do not survive the pruning. *)
Lemma prune_app_expired (cutoff : Z) (expired timestamps : list Z) :
  Forall (fun t => t < cutoff) expired ->
  prune cutoff (expired ++ timestamps) = prune cutoff timestamps.
Proof.
  induction 1 as [|x l Hx _ IH]; [reflexivity|].
  cbn [app prune]. now replace (x <? cutoff) with true by lia.
Qed.

(** What the pruning takes off is a prefix of stamps below the cutoff. *)
Lemma prune_split (cutoff : Z) (timestamps : list Z) :
  exists expired,
    timestamps = expired ++ prune cutoff timestamps /\
    Forall (fun t => t < cutoff) expired.
Proof.
  induction timestamps as [|x l (expired & Heq & Hall)].
  - exists []. split; [reflexivity | constructor].
  - cbn [prune]. destruct (x <? cutoff) eqn:Hx.
    + exists (x :: expired). split; [now rewrite Heq at 1|].
      constructor; [lia | assumption].
    + exists []. split; [reflexivity | constructor].
Qed.

(** A later pruning makes an earlier one redundant. *)
Lemma prune_prune (earlier later : Z) (timestamps : list Z) :
  earlier <= later ->
  prune later (prune earlier timestamps) = prune later timestamps.
Proof.
  intros Hle. destruct (prune_split earlier timestamps) as (expired & Heq & Hall).
  rewrite Heq at 2. rewrite prune_app_expired; [reflexivity|].
  eapply List.Forall_impl; [|exact Hall]. intros t Ht. simpl in Ht. lia.
Qed.

(** On stamps in order the pruning keeps exactly those of the window. *)
Lemma prune_in_window (window earlier now : Z) (stamps : list Z) :
  StronglySorted Z.le stamps -> earlier <= now ->
  prune (now - window) (in_window window earlier stamps) = in_window window now stamps.
Proof.
  intros Hsorted Hle. unfold in_window.
  induction Hsorted as [|x l Hl IH Hx]; [reflexivity|].
  cbn [List.filter]. destruct (earlier - window <=? x) eqn:Hold.
  - cbn [prune]. destruct (x <? now - window) eqn:Hnew.
    + replace (now - window <=? x) with false by lia. exact IH.
    + replace (now - window <=? x) with true by lia. f_equal.
      transitivity l.
      * apply List.forallb_filter_id, forallb_forall. intros t Ht.
        rewrite List.Forall_forall in Hx. specialize (Hx t Ht). lia.
      * symmetry. apply List.forallb_filter_id, forallb_forall. intros t Ht.
        rewrite List.Forall_forall in Hx. specialize (Hx t Ht). lia.
  - replace (now - window <=? x) with false by lia. exact IH.
Qed.

Lemma in_window_snoc (window now : Z) (stamps : list Z) :
  0 <= window ->
  in_window window now (stamps ++ [now]) = in_window window now stamps ++ [now].
Proof.
  intros Hw. unfold in_window. rewrite List.filter_app. cbn [List.filter].
  now replace (now - window <=? now) with true by lia.
Qed.

Lemma sorted_snoc (stamps : list Z) (now : Z) :
  StronglySorted Z.le stamps -> Forall (fun t => t <= now) stamps ->
  StronglySorted Z.le (stamps ++ [now]).
Proof.
  induction 1 as [|x l Hl IH Hx]; intros Hall.
  - repeat constructor.
  - apply List.Forall_cons_iff in Hall as [Hxn Hall]. cbn [app]. constructor.
    + auto.
    + apply List.Forall_app. split; [assumption | repeat constructor; assumption].
Qed.

(** One check, from the stamps admitted so far. *)
Lemma check_from_window (max_commands window_seconds key now : Z)
    (store : gmap Z (list Z)) (stamps : list Z) (clock : Z) :
  1 <= max_commands -> 0 <= window_seconds -> clock <= now ->
  window_kept max_commands window_seconds key store stamps clock ->
  let window := timedelta_seconds window_seconds in
  let recent := in_window window now stamps in
  let r := check_rate_limit (max_commands, window_seconds) key now store in
  Z.of_nat (length recent) <= max_commands /\
  (Z.of_nat (length recent) < max_commands ->
     fst r = Some (true, 0) /\
     window_kept max_commands window_seconds key (snd r) (stamps ++ [now]) now) /\
  (Z.of_nat (length recent) = max_commands ->
     (exists oldest rest wait,
        recent = oldest :: rest /\
        fst r = Some (false, wait) /\
        wait = Z.max 0 (int_total_seconds (oldest + window - now)) /\
        0 <= oldest + window - now <= window) /\
     snd r = <[key := recent]> store /\
     window_kept max_commands window_seconds key (snd r) stamps now).
Proof.
  intros Hmax Hws Hclock (earlier & Hearlier & Hstore & Hsorted & Hbound & Hlen).
  cbv zeta. unfold window_kept, timedelta_seconds in *.
  assert (Hprune : prune (now - window_seconds * 1000000) (default [] (store !! key))
                   = in_window (window_seconds * 1000000) now stamps).
  { rewrite Hstore. apply prune_in_window; [assumption | lia]. }
  assert (Hle : Z.of_nat (length (in_window (window_seconds * 1000000) now stamps))
                <= max_commands).
  { rewrite <- Hprune.
    pose proof (prune_length (now - window_seconds * 1000000)
                  (default [] (store !! key))). lia. }
  split; [exact Hle|]. split.
  - intros Hroom.
    rewrite (check_rate_limit_allowed max_commands window_seconds key now store _
               Hprune Hroom).
    cbn [fst snd]. split; [reflexivity|].
    exists now. split; [lia|]. rewrite lookup_insert_eq. cbn [default from_option Datatypes.id].
    split; [now rewrite in_window_snoc by lia|].
    split; [now apply sorted_snoc; [|eapply List.Forall_impl; [|exact Hbound];
                                    intros t Ht; simpl in Ht; lia]|].
    split.
    + apply List.Forall_app. split; [|repeat constructor; lia].
      eapply List.Forall_impl; [|exact Hbound]. intros t Ht. simpl in Ht. lia.
    + rewrite length_app. cbn [length]. lia.
  - intros Hfull.
    destruct (in_window (window_seconds * 1000000) now stamps) as [|oldest rest] eqn:Hrecent.
    { simpl in Hfull. lia. }
    destruct (check_rate_limit_denied max_commands window_seconds key now store
                oldest rest Hprune ltac:(lia)) as [Hpos Hrun].
    unfold timedelta_seconds in Hpos, Hrun. rewrite Hrun. cbn [fst snd].
    assert (Hin : In oldest stamps).
    { assert (Hin : In oldest (in_window (window_seconds * 1000000) now stamps))
        by (rewrite Hrecent; now left).
      now apply List.filter_In in Hin. }
    assert (Holdest : oldest <= clock).
    { rewrite List.Forall_forall in Hbound. exact (Hbound oldest Hin). }
    split; [|split].
    + eexists oldest, rest, _.
      split; [reflexivity|]. split; [reflexivity|]. split; [reflexivity|]. lia.
    + reflexivity.
    + exists now. split; [lia|]. rewrite lookup_insert_eq. cbn [default from_option Datatypes.id].
      rewrite Hrecent. split; [reflexivity|]. split; [assumption|].
      split; [|lia].
      eapply List.Forall_impl; [|exact Hbound]. intros t Ht. simpl in Ht. lia.
Qed.

Lemma window_kept_later (max_commands window_seconds key : Z)
    (store : gmap Z (list Z)) (stamps : list Z) (clock later : Z) :
  clock <= later ->
  window_kept max_commands window_seconds key store stamps clock ->
  window_kept max_commands window_seconds key store stamps later.
Proof.
  intros Hle (earlier & Hearlier & Hstore & Hsorted & Hbound & Hlen).
  exists earlier. split; [lia|]. split; [assumption|]. split; [assumption|].
  split; [|assumption].
  eapply List.Forall_impl; [|exact Hbound]. intros t Ht. simpl in Ht. lia.
Qed.

(** Checks in a row keep the dictionary in step with the admitted stamps,
    and none of them fails. *)
Lemma check_in_turn_window (max_commands window_seconds key : Z) (nows : list Z) :
  1 <= max_commands -> 0 <= window_seconds ->
  forall (store : gmap Z (list Z)) (stamps : list Z) (clock later : Z),
    window_kept max_commands window_seconds key store stamps clock ->
    StronglySorted Z.le nows ->
    Forall (fun now => clock <= now) nows ->
    Forall (fun now => now <= later) nows ->
    clock <= later ->
    let r := check_in_turn (max_commands, window_seconds) key nows store in
    window_kept max_commands window_seconds key (snd r)
      (stamps ++ admitted nows (fst r)) later /\
    Forall (fun result => exists allowed wait, result = Some (allowed, wait)) (fst r).
Proof.
  intros Hmax Hws. induction nows as [|now rest IH];
    intros store stamps clock later Hkept Hsorted Hlow Hhigh Hle.
  - cbn. rewrite app_nil_r. split; [|constructor].
    now apply (window_kept_later _ _ _ _ _ clock).
  - apply StronglySorted_inv in Hsorted as [Hsorted Hnext].
    apply List.Forall_cons_iff in Hlow as [Hnow Hlow].
    apply List.Forall_cons_iff in Hhigh as [Hnow' Hhigh].
    pose proof (check_from_window max_commands window_seconds key now store stamps
                  clock Hmax Hws Hnow Hkept) as Hcheck.
    cbv zeta in Hcheck. destruct Hcheck as (Hbound & Hroom & Hfull).
    cbv zeta. cbn [check_in_turn].
    destruct (check_rate_limit (max_commands, window_seconds) key now store)
      as [r store1] eqn:Hrun.
    cbn [fst snd] in Hroom, Hfull.
    destruct (Z.eq_dec
                (Z.of_nat (length (in_window (timedelta_seconds window_seconds) now stamps)))
                max_commands) as [Heq | Hneq].
    + destruct (Hfull Heq) as ((oldest & tail & wait & _ & Hr & _) & _ & Hkept1).
      specialize (IH store1 stamps now later Hkept1 Hsorted Hnext Hhigh Hnow').
      cbv zeta in IH.
      destruct (check_in_turn (max_commands, window_seconds) key rest store1)
        as [rs store2].
      cbn [fst snd] in *. subst r. cbn [admitted]. destruct IH as [IH1 IH2].
      split; [exact IH1|]. constructor; [eauto | exact IH2].
    + destruct (Hroom ltac:(lia)) as (Hr & Hkept1).
      specialize (IH store1 (stamps ++ [now]) now later Hkept1 Hsorted Hnext Hhigh Hnow').
      cbv zeta in IH.
      destruct (check_in_turn (max_commands, window_seconds) key rest store1)
        as [rs store2].
      cbn [fst snd] in *. subst r. cbn [admitted]. destruct IH as [IH1 IH2].
      rewrite <- app_assoc in IH1. cbn [app] in IH1.
      split; [exact IH1|]. constructor; [eauto | exact IH2].
Qed.

(** X15. Checks of one key, not seen before, at instants that do not go
    back and have the window on either side of them within the range of
    [datetime], with a limit of at least one command and a window that is
    not negative: none of them fails, and a check is allowed exactly when
    fewer than [max_commands] of the earlier checks were allowed in the
    [window_seconds] up to it, a stamp of exactly that age counting still.
    So no window holds more than [max_commands] allowed checks. A denied
    check reports a wait between 0 and [window_seconds]. *)
Theorem window_admits_at_most_max_commands
    (max_commands window_seconds key : Z) (store : gmap Z (list Z))
    (before : list Z) (now : Z) :
  1 <= max_commands -> 0 <= window_seconds ->
  default [] (store !! key) = [] ->
  StronglySorted Z.le (before ++ [now]) ->
  Forall (window_fits window_seconds) (before ++ [now]) ->
  let window := timedelta_seconds window_seconds in
  let earlier := check_in_turn (max_commands, window_seconds) key before store in
  let recent := in_window window now (admitted before (fst earlier)) in
  let r := check_rate_limit (max_commands, window_seconds) key now (snd earlier) in
  Forall (fun result => exists allowed wait, result = Some (allowed, wait))
    (fst earlier) /\
  Z.of_nat (length recent) <= max_commands /\
  (Z.of_nat (length recent) < max_commands -> fst r = Some (true, 0)) /\
  (Z.of_nat (length recent) = max_commands ->
     exists wait, fst r = Some (false, wait) /\ 0 <= wait <= window_seconds).
Proof.
  intros Hmax Hws Hnew Hsorted Hfits. cbv zeta.
  assert (Hshort : window_seconds < 2 ^ 52).
  { apply List.Forall_app in Hfits as [_ Hfits].
    apply List.Forall_cons_iff in Hfits as [(Hlow & Hnow & _) _].
    unfold is_datetime, datetime_max, timedelta_seconds in Hlow, Hnow. lia. }
  assert (Hparts : StronglySorted Z.le before /\ Forall (fun t => t <= now) before).
  { clear -Hsorted. induction before as [|x l IH].
    - split; constructor.
    - cbn [app] in Hsorted. apply StronglySorted_inv in Hsorted as [Hl Hx].
      destruct (IH Hl) as [IH1 IH2]. apply List.Forall_app in Hx as [Hx Hnow].
      split; [now constructor|]. constructor; [|assumption].
      now apply List.Forall_cons_iff in Hnow as [Hnow _]. }
  destruct Hparts as [Hbefore Hhigh].
  set (clock := hd now before).
  assert (Hlow : Forall (fun t => clock <= t) before).
  { subst clock. destruct before as [|x l]; [constructor|]. cbn [hd].
    apply StronglySorted_inv in Hbefore as [_ Hx]. constructor; [lia | assumption]. }
  assert (Hclock : clock <= now).
  { subst clock. destruct before as [|x l]; cbn [hd]; [lia|].
    now apply List.Forall_cons_iff in Hhigh as [Hx _]. }
  assert (Hstart : window_kept max_commands window_seconds key store [] clock).
  { exists clock. split; [lia|]. rewrite Hnew. split; [reflexivity|].
    split; [constructor|]. split; [constructor|]. simpl. lia. }
  pose proof (check_in_turn_window max_commands window_seconds key before Hmax Hws
                store [] clock now Hstart Hbefore Hlow Hhigh Hclock) as Hrun.
  cbv zeta in Hrun. cbn [app] in Hrun. destruct Hrun as [Hkept Hok].
  pose proof (check_from_window max_commands window_seconds key now _ _ now
                Hmax Hws ltac:(lia) Hkept) as Hcheck.
  cbv zeta in Hcheck. destruct Hcheck as (Hbound & Hroom & Hfull).
  split; [exact Hok|]. split; [exact Hbound|]. split.
  - intros Hlt. now destruct (Hroom Hlt).
  - intros Heq.
    destruct (Hfull Heq) as ((oldest & tail & wait & _ & Hr & -> & Hwait) & _).
    eexists. split; [exact Hr|].
    pose proof (int_total_seconds_below _ window_seconds Hwait Hshort). lia.
Qed.

(** X16. A denied check is not counted: it leaves in the dictionary only
    what was admitted before, less the stamps that have left the window, and
    every later check of the key answers and leaves the dictionary as it
    would have without the denied one. No check touches the stamps of
    another key, and the checks of users and of guilds use dictionaries of
    their own. *)
Theorem denied_checks_are_not_counted
    (limit other_limit : Z * Z) (key now later other wait : Z)
    (store : gmap Z (list Z)) (s : Limits) :
  fst (check_rate_limit limit key now store) = Some (false, wait) ->
  now <= later ->
  let after := snd (check_rate_limit limit key now store) in
  after !! key = Some (prune (now - timedelta_seconds (snd limit))
                         (default [] (store !! key))) /\
  check_rate_limit limit key later after = check_rate_limit limit key later store /\
  (other <> key ->
     after !! other = store !! other /\
     fst (check_rate_limit other_limit other later after)
     = fst (check_rate_limit other_limit other later store)) /\
  _guild_rate_limits (snd (check_user_rate_limit limit key now s))
  = _guild_rate_limits s /\
  _user_rate_limits (snd (check_guild_rate_limit limit key now s))
  = _user_rate_limits s.
Proof.
  intros Hdenied Hlater. cbv zeta. destruct limit as [max_commands window_seconds].
  cbn [snd].
  assert (Hrun : snd (check_rate_limit (max_commands, window_seconds) key now store)
                 = <[key := prune (now - timedelta_seconds window_seconds)
                              (default [] (store !! key))]> store).
  { unfold check_rate_limit in *.
    destruct (Z.of_nat (length (prune (now - timedelta_seconds window_seconds)
                                  (default [] (store !! key)))) >=? max_commands).
    - now destruct (prune (now - timedelta_seconds window_seconds)
                      (default [] (store !! key))).
    - discriminate. }
  rewrite Hrun. split; [apply lookup_insert_eq|]. split; [|split; [|split]].
  - unfold check_rate_limit. rewrite lookup_insert_eq. cbn [default from_option Datatypes.id].
    rewrite prune_prune by (unfold timedelta_seconds; lia).
    rewrite !insert_insert_eq. reflexivity.
  - intros Hother. rewrite lookup_insert_ne by congruence. split; [reflexivity|].
    unfold check_rate_limit. destruct other_limit as [m2 w2].
    rewrite lookup_insert_ne by congruence.
    destruct (Z.of_nat (length (prune (later - timedelta_seconds w2)
                                  (default [] (store !! other)))) >=? m2);
      [|reflexivity].
    now destruct (prune (later - timedelta_seconds w2) (default [] (store !! other))).
  - unfold check_user_rate_limit.
    now destruct (check_rate_limit (max_commands, window_seconds) key now
                    (_user_rate_limits s)).
  - unfold check_guild_rate_limit.
    now destruct (check_rate_limit (max_commands, window_seconds) key now
                    (_guild_rate_limits s)).
Qed.

(* ===================================================================== *)
(** * Configured limits                                                   *)
(* ===================================================================== *)

Lemma positive_int_positive (candidate : option Disk.pyval) (z : Z) :
  Config.positive_int candidate = Some z -> 0 < z.
Proof.
  destruct candidate as [[| [|] | n | | | |]|]; simpl; try discriminate.
  - intros [= <-]. lia.
  - destruct (n >? 0) eqn:Hn; [|discriminate]. intros [= <-]. lia.
Qed.

Lemma default_positive_int (fallback : Z) (candidate : option Disk.pyval) :
  0 < fallback -> 0 < default fallback (Config.positive_int candidate).
Proof.
  intros Hpos. destruct (Config.positive_int candidate) as [z|] eqn:Hz; simpl.
  - now apply positive_int_positive in Hz.
  - assumption.
Qed.

(** A check with a limit of at least one command gives its answer. *)
Lemma check_rate_limit_answers (max_commands window_seconds key now : Z)
    (store : gmap Z (list Z)) :
  0 < max_commands ->
  exists allowed wait,
    fst (check_rate_limit (max_commands, window_seconds) key now store)
    = Some (allowed, wait) /\ 0 <= wait.
Proof.
  intros Hmax. unfold check_rate_limit.
  destruct (Z.of_nat (length (prune (now - timedelta_seconds window_seconds)
                                (default [] (store !! key)))) >=? max_commands) eqn:Hfull.
  - destruct (prune (now - timedelta_seconds window_seconds) (default [] (store !! key)))
      as [|oldest rest].
    + rewrite Z.geb_leb in Hfull. apply Z.leb_le in Hfull. simpl in Hfull. lia.
    + cbn [fst]. eexists _, _. split; [reflexivity | lia].
  - cbn [fst]. eexists _, _. split; [reflexivity | lia].
Qed.

(** [_load_config] raises on the files [json.load] raises on with something
    else than a [JSONDecodeError], and on no other. *)
Lemma load_config_cases (CONFIG_FILE : Disk.file) :
  (exists e, CONFIG_FILE = Disk.Unloadable e /\
     Config._load_config CONFIG_FILE = inl (Disk.LoadError e)) \/
  (Disk.loads CONFIG_FILE = true /\
   exists config, Config._load_config CONFIG_FILE = inr config).
Proof.
  destruct CONFIG_FILE as [| |e| |raw].
  - right. split; [reflexivity|]. now exists [].
  - right. split; [reflexivity|]. now exists [].
  - left. exists e. split; reflexivity.
  - right. split; [reflexivity|]. now exists [].
  - right. split; [reflexivity|]. destruct raw; cbn; eauto.
Qed.

(** What the getter of the user limit does: it answers, with positive
    numbers that it caches, from the cache or from a file it can read; or it
    raises, on a file that is no text and with nothing cached. *)
Lemma user_limit_answer (CONFIG_FILE : Disk.file) (c : Config.Caches) :
  rate_caches_filled_by_getters c ->
  let r := Config.get_user_command_rate_limit CONFIG_FILE c in
  (exists limit,
     fst r = inr limit /\ 0 < fst limit /\ 0 < snd limit /\
     rate_caches_filled_by_getters (snd r) /\
     Config._user_command_rate_limit_cache (snd r) = Some limit /\
     Config._guild_command_rate_limit_cache (snd r)
     = Config._guild_command_rate_limit_cache c /\
     (Disk.loads CONFIG_FILE = true \/
      Config._user_command_rate_limit_cache c = Some limit)) \/
  (exists e, r = (inl (Disk.LoadError e), c) /\ CONFIG_FILE = Disk.Unloadable e /\
     Config._user_command_rate_limit_cache c = None).
Proof.
  intros Hfilled. pose proof Hfilled as [Huser Hguild].
  cbv zeta. unfold Config.get_user_command_rate_limit.
  destruct (Config._user_command_rate_limit_cache c) as [cached|] eqn:Hc.
  - left. exists cached. cbn [fst snd]. destruct (Huser cached eq_refl) as [H1 H2].
    split; [reflexivity|]. split; [exact H1|]. split; [exact H2|].
    split; [exact Hfilled|]. split; [exact Hc|]. split; [reflexivity | now right].
  - destruct (load_config_cases CONFIG_FILE) as [(e & -> & ->) | [Htext [config ->]]].
    { right. exists e. auto. }
    left. cbv zeta.
    set (limit := match Disk.dict_get "rate_limits" config with
                  | Some (Disk.PyDict rate_cfg) => _
                  | _ => _
                  end).
    assert (Hlimit : 0 < fst limit /\ 0 < snd limit).
    { subst limit. unfold Config._DEFAULT_USER_COMMAND_LIMIT,
        Config._DEFAULT_USER_COMMAND_WINDOW_SECONDS.
      destruct (Disk.dict_get "rate_limits" config)
        as [[| | | | |rate_cfg|]|]; cbn [fst snd]; try lia.
      split; apply default_positive_int; lia. }
    destruct limit as [max_commands window_seconds]. cbn [fst snd] in *.
    exists (max_commands, window_seconds). cbn [fst snd].
    split; [reflexivity|]. split; [tauto|]. split; [tauto|].
    split; [|split; [reflexivity|split; [reflexivity | now left]]].
    split; cbn [Config._user_command_rate_limit_cache
                  Config._guild_command_rate_limit_cache].
    + intros limit [= <-]. exact Hlimit.
    + exact Hguild.
Qed.

Lemma guild_limit_answer (CONFIG_FILE : Disk.file) (c : Config.Caches) :
  rate_caches_filled_by_getters c ->
  let r := Config.get_guild_command_rate_limit CONFIG_FILE c in
  (exists limit,
     fst r = inr limit /\ 0 < fst limit /\ 0 < snd limit /\
     rate_caches_filled_by_getters (snd r) /\
     Config._guild_command_rate_limit_cache (snd r) = Some limit /\
     Config._user_command_rate_limit_cache (snd r)
     = Config._user_command_rate_limit_cache c /\
     (Disk.loads CONFIG_FILE = true \/
      Config._guild_command_rate_limit_cache c = Some limit)) \/
  (exists e, r = (inl (Disk.LoadError e), c) /\ CONFIG_FILE = Disk.Unloadable e /\
     Config._guild_command_rate_limit_cache c = None).
Proof.
  intros Hfilled. pose proof Hfilled as [Huser Hguild].
  cbv zeta. unfold Config.get_guild_command_rate_limit.
  destruct (Config._guild_command_rate_limit_cache c) as [cached|] eqn:Hc.
  - left. exists cached. cbn [fst snd]. destruct (Hguild cached eq_refl) as [H1 H2].
    split; [reflexivity|]. split; [exact H1|]. split; [exact H2|].
    split; [exact Hfilled|]. split; [exact Hc|]. split; [reflexivity | now right].
  - destruct (load_config_cases CONFIG_FILE) as [(e & -> & ->) | [Htext [config ->]]].
    { right. exists e. auto. }
    left. cbv zeta.
    set (limit := match Disk.dict_get "rate_limits" config with
                  | Some (Disk.PyDict rate_cfg) => _
                  | _ => _
                  end).
    assert (Hlimit : 0 < fst limit /\ 0 < snd limit).
    { subst limit. unfold Config._DEFAULT_GUILD_COMMAND_LIMIT,
        Config._DEFAULT_GUILD_COMMAND_WINDOW_SECONDS.
      destruct (Disk.dict_get "rate_limits" config)
        as [[| | | | |rate_cfg|]|]; cbn [fst snd]; try lia.
      split; apply default_positive_int; lia. }
    destruct limit as [max_commands window_seconds]. cbn [fst snd] in *.
    exists (max_commands, window_seconds). cbn [fst snd].
    split; [reflexivity|]. split; [tauto|]. split; [tauto|].
    split; [|split; [reflexivity|split; [reflexivity | now left]]].
    split; cbn [Config._user_command_rate_limit_cache
                  Config._guild_command_rate_limit_cache].
    + exact Huser.
    + intros limit [= <-]. exact Hlimit.
Qed.

(** The getter of the user limit does not change what the getter of the
    guild limit answers after it. *)
Lemma guild_limit_after_user_getter (CONFIG_FILE : Disk.file) (c : Config.Caches) :
  fst (Config.get_guild_command_rate_limit CONFIG_FILE
         (snd (Config.get_user_command_rate_limit CONFIG_FILE c)))
  = fst (Config.get_guild_command_rate_limit CONFIG_FILE c).
Proof.
  unfold Config.get_user_command_rate_limit.
  destruct (Config._user_command_rate_limit_cache c); [reflexivity|].
  destruct (Config._load_config CONFIG_FILE) as [e | config] eqn:Hload; [reflexivity|].
  cbv zeta.
  destruct (match Disk.dict_get "rate_limits" config with
            | Some (Disk.PyDict rate_cfg) => _
            | _ => _
            end) as [max_commands window_seconds].
  cbn [snd]. unfold Config.get_guild_command_rate_limit.
  cbn [Config._guild_command_rate_limit_cache].
  destruct (Config._guild_command_rate_limit_cache c); [reflexivity|].
  rewrite Hload. cbv zeta.
  destruct (match Disk.dict_get "rate_limits" config with
            | Some (Disk.PyDict rate_cfg) => _
            | _ => _
            end) as [guild_max guild_window].
  reflexivity.
Qed.

(** X17. The two rate limits are read from the configuration file once. A
    getter with nothing cached raises what [json.load] raises on the file
    when that is no [JSONDecodeError], as the [UnicodeDecodeError] of a file
    that is not UTF-8 text, and caches nothing; on every other file, and
    whenever its cache is filled, it answers with a pair of positive
    numbers, and the answer is kept: later calls repeat it whatever the file
    has become.
    With a file that is absent, cannot be opened, is not JSON or has no
    dictionary of rate limits, the limits are 3 commands per 10 seconds for
    a user and 12 per 10 seconds for a guild; a value that is no positive
    integer falls back to its default on its own. *)
Theorem configured_limits_are_positive_and_kept
    (CONFIG_FILE changed_file : Disk.file) (c : Config.Caches) :
  rate_caches_filled_by_getters c ->
  let u := Config.get_user_command_rate_limit CONFIG_FILE c in
  let g := Config.get_guild_command_rate_limit CONFIG_FILE c in
  (forall e, CONFIG_FILE = Disk.Unloadable e ->
     (Config._user_command_rate_limit_cache c = None ->
        u = (inl (Disk.LoadError e), c)) /\
     (Config._guild_command_rate_limit_cache c = None ->
        g = (inl (Disk.LoadError e), c))) /\
  (Disk.loads CONFIG_FILE = true \/
   is_Some (Config._user_command_rate_limit_cache c) ->
     exists limit,
       fst u = inr limit /\ 0 < fst limit /\ 0 < snd limit /\
       Config.get_user_command_rate_limit changed_file (snd u) = (inr limit, snd u)) /\
  (Disk.loads CONFIG_FILE = true \/
   is_Some (Config._guild_command_rate_limit_cache c) ->
     exists limit,
       fst g = inr limit /\ 0 < fst limit /\ 0 < snd limit /\
       Config.get_guild_command_rate_limit changed_file (snd g) = (inr limit, snd g)) /\
  (CONFIG_FILE = Disk.NoFile \/ CONFIG_FILE = Disk.Unreadable \/
   CONFIG_FILE = Disk.Unparsable \/
   (exists raw, CONFIG_FILE = Disk.Document raw /\
      forall config rate_cfg,
        raw = Disk.PyDict config ->
        Disk.dict_get "rate_limits" config <> Some (Disk.PyDict rate_cfg)) ->
     fst (Config.get_user_command_rate_limit CONFIG_FILE Config.no_caches)
     = inr (3, 10) /\
     fst (Config.get_guild_command_rate_limit CONFIG_FILE Config.no_caches)
     = inr (12, 10)) /\
  (forall config rate_cfg limit_value window_value,
     CONFIG_FILE = Disk.Document (Disk.PyDict config) ->
     Disk.dict_get "rate_limits" config = Some (Disk.PyDict rate_cfg) ->
     Disk.dict_get "user_command_limit" rate_cfg = limit_value ->
     Disk.dict_get "user_command_window_seconds" rate_cfg = window_value ->
     fst (Config.get_user_command_rate_limit CONFIG_FILE Config.no_caches)
     = inr (match limit_value with
            | Some (Disk.PyInt z) => if 0 <? z then z else 3
            | Some (Disk.PyBool true) => 1
            | _ => 3
            end,
            match window_value with
            | Some (Disk.PyInt z) => if 0 <? z then z else 10
            | Some (Disk.PyBool true) => 1
            | _ => 10
            end)).
Proof.
  intros Hc. cbv zeta.
  split; [|split; [|split; [|split]]].
  - intros e ->. split; intros Hnone.
    + unfold Config.get_user_command_rate_limit. now rewrite Hnone.
    + unfold Config.get_guild_command_rate_limit. now rewrite Hnone.
  - intros Hread.
    destruct (user_limit_answer CONFIG_FILE c Hc)
      as [(limit & Hu & H1 & H2 & _ & Hcache & _) | (e & _ & Hfile & Hnone)].
    + exists limit. split; [exact Hu|]. split; [exact H1|]. split; [exact H2|].
      unfold Config.get_user_command_rate_limit at 1. now rewrite Hcache.
    + destruct Hread as [Htext | [cached Hcached]]; [|congruence].
      rewrite Hfile in Htext. discriminate.
  - intros Hread.
    destruct (guild_limit_answer CONFIG_FILE c Hc)
      as [(limit & Hg & H1 & H2 & _ & Hcache & _) | (e & _ & Hfile & Hnone)].
    + exists limit. split; [exact Hg|]. split; [exact H1|]. split; [exact H2|].
      unfold Config.get_guild_command_rate_limit at 1. now rewrite Hcache.
    + destruct Hread as [Htext | [cached Hcached]]; [|congruence].
      rewrite Hfile in Htext. discriminate.
  - unfold Config.get_user_command_rate_limit, Config.get_guild_command_rate_limit.
    cbn [Config.no_caches Config._user_command_rate_limit_cache
           Config._guild_command_rate_limit_cache].
    intros [-> | [-> | [-> | (raw & -> & Hnone)]]]; try (split; reflexivity).
    destruct raw as [| | | | |config|]; try (split; reflexivity).
    cbn [Config._load_config]. cbv zeta.
    destruct (Disk.dict_get "rate_limits" config)
      as [[| | | | |rate_cfg|]|] eqn:Hrate; try (split; reflexivity).
    now destruct (Hnone config rate_cfg eq_refl).
  - intros config rate_cfg limit_value window_value -> Hfile <- <-.
    unfold Config.get_user_command_rate_limit.
    cbn [Config.no_caches Config._user_command_rate_limit_cache Config._load_config].
    cbv zeta. rewrite Hfile. cbn [fst].
    unfold Config._DEFAULT_USER_COMMAND_LIMIT,
      Config._DEFAULT_USER_COMMAND_WINDOW_SECONDS.
    f_equal. f_equal.
    + destruct (Disk.dict_get "user_command_limit" rate_cfg) as [[| [|] | z | | | |]|];
        try reflexivity. cbn. rewrite Z.gtb_ltb. now destruct (0 <? z).
    + destruct (Disk.dict_get "user_command_window_seconds" rate_cfg)
        as [[| [|] | z | | | |]|]; try reflexivity.
      cbn. rewrite Z.gtb_ltb. now destruct (0 <? z).
Qed.

(* ===================================================================== *)
(** * Admission of a command                                              *)
(* ===================================================================== *)

(** What one check leaves under its key. *)
Lemma check_rate_limit_records (max_commands window_seconds key now : Z)
    (store : gmap Z (list Z)) :
  0 < max_commands ->
  let r := check_rate_limit (max_commands, window_seconds) key now store in
  (exists wait, fst r = Some (false, wait) /\ 0 <= wait /\
     snd r !! key = Some (prune (now - timedelta_seconds window_seconds)
                            (default [] (store !! key)))) \/
  (fst r = Some (true, 0) /\
   snd r !! key = Some (prune (now - timedelta_seconds window_seconds)
                          (default [] (store !! key)) ++ [now])).
Proof.
  intros Hmax. cbv zeta. unfold check_rate_limit.
  destruct (Z.of_nat (length (prune (now - timedelta_seconds window_seconds)
                                (default [] (store !! key)))) >=? max_commands) eqn:Hfull.
  - destruct (prune (now - timedelta_seconds window_seconds) (default [] (store !! key)))
      as [|oldest rest].
    + rewrite Z.geb_leb in Hfull. apply Z.leb_le in Hfull. simpl in Hfull. lia.
    + left. cbn [fst snd]. eexists. split; [reflexivity|]. split; [lia|].
      apply lookup_insert_eq.
  - right. cbn [fst snd]. split; [reflexivity | apply lookup_insert_eq].
Qed.

(** With a configuration file [json.load] does not fail on, the opening
    checks give an answer. *)
Lemma admission_answers
    (CONFIG_FILE : Disk.file) (user_id : Z) (guild : option Z) (now : Z)
    (c : Config.Caches) (s : Limits) :
  rate_caches_filled_by_getters c -> Disk.loads CONFIG_FILE = true ->
  exists answer, fst (admission CONFIG_FILE user_id guild now (c, s)) = Some answer.
Proof.
  intros Hc Htext. unfold admission.
  destruct (user_limit_answer CONFIG_FILE c Hc)
    as [([um uw] & Hu & Hu1 & _ & Hc1 & _) | (e & _ & Hfile & _)];
    [|rewrite Hfile in Htext; discriminate].
  destruct (Config.get_user_command_rate_limit CONFIG_FILE c) as [ru c1].
  cbn [fst snd] in Hu, Hu1, Hc1. subst ru. unfold check_user_rate_limit.
  destruct (check_rate_limit_answers um uw user_id now (_user_rate_limits s) Hu1)
    as (allowed & wait & Hr & _).
  destruct (check_rate_limit (um, uw) user_id now (_user_rate_limits s)) as [ru du].
  cbn [fst] in Hr. subst ru. destruct allowed; [|cbn [fst]; eauto].
  destruct guild as [g|]; [|cbn [fst]; eauto].
  destruct (guild_limit_answer CONFIG_FILE c1 Hc1)
    as [([gm gw] & Hg & Hg1 & _) | (e & _ & Hfile & _)];
    [|rewrite Hfile in Htext; discriminate].
  destruct (Config.get_guild_command_rate_limit CONFIG_FILE c1) as [rg c2].
  cbn [fst snd] in Hg, Hg1. subst rg. unfold check_guild_rate_limit.
  cbn [_user_rate_limits _guild_rate_limits].
  destruct (check_rate_limit_answers gm gw g now (_guild_rate_limits s) Hg1)
    as (allowed & wait2 & Hr & _).
  destruct (check_rate_limit (gm, gw) g now (_guild_rate_limits s)) as [rg dg].
  cbn [fst] in Hr. subst rg. destruct allowed; cbn [fst]; eauto.
Qed.

(** X18. Take the opening checks of /list-tables, /my-tables and
    /show-tables at instants within the range of [datetime]. With a
    configuration file [json.load] does not fail on they give an answer;
    with one it fails on, as a file that is not UTF-8 text, and no user
    limit cached, the first getter raises and nothing is counted. A reported wait is never negative. A command the user limit
    refuses does not reach the guild check; in a direct message the guild
    check is not made. A command the guild limit refuses has already been
    counted against the user. A command that is allowed is counted, as the
    last stamp, against the user and against the guild. *)
Theorem admission_counts_before_the_guild_check
    (CONFIG_FILE : Disk.file) (user_id : Z) (guild : option Z) (now : Z)
    (c : Config.Caches) (s : Limits) :
  rate_caches_filled_by_getters c ->
  admission_in_range CONFIG_FILE user_id guild now c s ->
  let r := admission CONFIG_FILE user_id guild now (c, s) in
  let s' := snd (snd r) in
  (Disk.loads CONFIG_FILE = true -> exists answer, fst r = Some answer) /\
  (Disk.loads CONFIG_FILE = false ->
   Config._user_command_rate_limit_cache c = None ->
     r = (None, (c, s))) /\
  rate_caches_filled_by_getters (fst (snd r)) /\
  (forall wait, fst r = Some (UserLimited wait) ->
     0 <= wait /\ _guild_rate_limits s' = _guild_rate_limits s /\
     now ∉ drop (length (default [] (_user_rate_limits s !! user_id)))
             (default [] (_user_rate_limits s' !! user_id))) /\
  (guild = None ->
     _guild_rate_limits s' = _guild_rate_limits s /\
     forall wait, fst r <> Some (GuildBusy wait)) /\
  (forall wait, fst r = Some (GuildBusy wait) ->
     0 <= wait /\ last (default [] (_user_rate_limits s' !! user_id)) = Some now) /\
  (fst r = Some Allowed ->
     last (default [] (_user_rate_limits s' !! user_id)) = Some now /\
     forall guild_id_value, guild = Some guild_id_value ->
       last (default [] (_guild_rate_limits s' !! guild_id_value)) = Some now).
Proof.
  intros Hc _. cbv zeta.
  split; [intros Htext; now apply admission_answers|].
  unfold admission.
  destruct (user_limit_answer CONFIG_FILE c Hc)
    as [([um uw] & Hu & Hu1 & _ & Hc1 & _ & _ & Hread)
       | (e & Hraise & Hfile & Hnone)].
  2: { rewrite Hraise. cbn [fst snd].
       split; [reflexivity|]. split; [assumption|]. split; [discriminate|].
       split; [intros _; split; [reflexivity | discriminate]|].
       split; discriminate. }
  destruct (Config.get_user_command_rate_limit CONFIG_FILE c) as [ru c1].
  cbn [fst snd] in Hu, Hu1, Hc1. subst ru. split.
  { intros Hfile Hnone. destruct Hread; congruence. }
  unfold check_user_rate_limit.
  pose proof (check_rate_limit_records um uw user_id now (_user_rate_limits s) Hu1)
    as Huser. cbv zeta in Huser.
  destruct (check_rate_limit (um, uw) user_id now (_user_rate_limits s))
    as [ru du]. cbn [fst snd] in Huser.
  destruct Huser as [(wait & -> & Hwait & Hdu) | (-> & Hdu)].
  - cbn [fst snd _user_rate_limits _guild_rate_limits].
    split; [assumption|]. split; [|split; [|split]].
    + intros w [= <-]. split; [assumption|]. split; [reflexivity|].
      rewrite Hdu. cbn [default from_option Datatypes.id].
      destruct (prune_split (now - timedelta_seconds uw)
                  (default [] (_user_rate_limits s !! user_id)))
        as (expired & Heq & _).
      rewrite drop_ge; [apply not_elem_of_nil|].
      rewrite Heq at 2. rewrite length_app. lia.
    + intros _. split; [reflexivity | discriminate].
    + discriminate.
    + discriminate.
  - assert (Hlast : last (default [] (du !! user_id)) = Some now).
    { rewrite Hdu. cbn [default from_option Datatypes.id]. apply last_snoc. }
    destruct guild as [g|].
    + destruct (guild_limit_answer CONFIG_FILE c1 Hc1)
        as [([gm gw] & Hg & Hg1 & _ & Hc2 & _) | (e & Hraise & _)].
      2: { rewrite Hraise. cbn [fst snd _user_rate_limits _guild_rate_limits].
           split; [assumption|]. split; [discriminate|].
           split; [discriminate|]. split; discriminate. }
      destruct (Config.get_guild_command_rate_limit CONFIG_FILE c1) as [rg c2].
      cbn [fst snd] in Hg, Hg1, Hc2. subst rg.
      unfold check_guild_rate_limit. cbn [_user_rate_limits _guild_rate_limits].
      pose proof (check_rate_limit_records gm gw g now (_guild_rate_limits s) Hg1)
        as Hguild. cbv zeta in Hguild.
      destruct (check_rate_limit (gm, gw) g now (_guild_rate_limits s))
        as [rg dg]. cbn [fst snd] in Hguild.
      destruct Hguild as [(wait & -> & Hwait & Hdg) | (-> & Hdg)];
        cbn [fst snd _user_rate_limits _guild_rate_limits].
      * split; [assumption|].
        split; [discriminate|]. split; [discriminate|].
        split; [|discriminate]. intros w [= <-]. auto.
      * split; [assumption|].
        split; [discriminate|]. split; [discriminate|].
        split; [discriminate|]. intros _. split; [assumption|].
        intros g' [= <-]. rewrite Hdg. cbn [default from_option Datatypes.id].
        apply last_snoc.
    + cbn [fst snd _user_rate_limits _guild_rate_limits].
      split; [assumption|]. split; [discriminate|].
      split; [intros _; split; [reflexivity | discriminate]|].
      split; [discriminate|]. intros _. split; [assumption | discriminate].
Qed.

(* ===================================================================== *)
(** * The cooldown of /list-tables                                        *)
(* ===================================================================== *)

(** With a configuration file [json.load] does not fail on, the getters of
    the column widths answer. *)
Lemma list_widths_answer (CONFIG_FILE : Disk.file) (c : Config.Caches) :
  Disk.loads CONFIG_FILE = true ->
  exists widths c',
    Config.get_list_table_column_widths CONFIG_FILE c = (inr widths, c').
Proof.
  intros Htext. unfold Config.get_list_table_column_widths.
  destruct (Config._column_widths_cache c); [eauto|].
  destruct (load_config_cases CONFIG_FILE) as [(e & Hfile & _) | [_ [config ->]]];
    [rewrite Hfile in Htext; discriminate | eauto].
Qed.

Lemma my_widths_answer (CONFIG_FILE : Disk.file) (c : Config.Caches) :
  Disk.loads CONFIG_FILE = true ->
  exists widths c',
    Config.get_my_table_column_widths CONFIG_FILE c = (inr widths, c').
Proof.
  intros Htext. unfold Config.get_my_table_column_widths.
  destruct (Config._my_tables_widths_cache c); [eauto|].
  destruct (load_config_cases CONFIG_FILE) as [(e & Hfile & _) | [_ [config ->]]];
    [rewrite Hfile in Htext; discriminate | eauto].
Qed.

(** Reads the column widths of a listing, from a file that loads. *)
Ltac widths_read Htext :=
  match goal with
  | |- context [Config.get_list_table_column_widths ?file ?c] =>
      let widths := fresh "widths" in
      let c' := fresh "c'" in
      let Hwidths := fresh "Hwidths" in
      destruct (list_widths_answer file c Htext) as (widths & c' & Hwidths);
      rewrite Hwidths
  end.

(** The parts of the statement below that every answer without a posted
    listing settles alike, and those a posted listing settles. *)
Ltac nothing_posted :=
  split; [eauto|]; split; [reflexivity|]; split; [reflexivity|];
  split; [discriminate|]; split; [reflexivity|].

Ltac posted_here :=
  split; [eauto|]; split; [reflexivity|];
  split; [intros other Hother; now rewrite lookup_insert_ne by congruence|].

(** X19. Take /list-tables with a configuration file [json.load] does not
    fail on, at an instant within the range of [datetime], on a store of
    well-typed records. It gives an answer, never writes
    to the store, and records a run for the channel only when a listing was
    posted; the listing holds the active tables of the channel, at least
    one. With a listing posted in the channel less than a minute ago, a
    command the rate limits let through is throttled, with between 0 and 60
    seconds to wait; from one minute on it is throttled no more. The runs
    of other channels do not count. *)
Theorem listing_waits_a_minute_per_channel
    (CONFIG_FILE : Disk.file) (user_id : Z) (guild : option Z)
    (is_guild_channel : bool) (channel_id_value now : Z)
    (visible_in_dm : TableData -> bool) (sent : bool) (st : ListState) :
  rate_caches_filled_by_getters (caches st) ->
  Disk.loads CONFIG_FILE = true ->
  admission_in_range CONFIG_FILE user_id guild now (caches st) (limits st) ->
  let r := list_tables CONFIG_FILE user_id guild is_guild_channel channel_id_value now
             visible_in_dm sent st in
  (exists answer, fst r = Some answer) /\
  world (snd r) = world st /\
  (forall other, other <> channel_id_value ->
     _channel_rate_limits (snd r) !! other = _channel_rate_limits st !! other) /\
  (forall channel_tables, fst r = Some (ListPosted channel_tables) ->
     sent = true /\
     _channel_rate_limits (snd r) !! channel_id_value = Some now /\
     channel_tables <> ∅ /\
     (is_guild_channel = true ->
      forall table_id info, channel_tables !! table_id = Some info <->
        active_file (world st) !! table_id = Some info /\
        channel_id info = channel_id_value)) /\
  ((forall channel_tables, fst r <> Some (ListPosted channel_tables)) ->
     _channel_rate_limits (snd r) = _channel_rate_limits st) /\
  (forall last_run, _channel_rate_limits st !! channel_id_value = Some last_run ->
     last_run <= now ->
     (now - last_run < LIST_TABLES_COOLDOWN ->
        (exists why, fst r = Some (ListRefused why)) \/
        (exists remaining, fst r = Some (ListThrottled remaining) /\
           0 <= remaining <= 60)) /\
     (LIST_TABLES_COOLDOWN <= now - last_run ->
        forall remaining, fst r <> Some (ListThrottled remaining))) /\
  (_channel_rate_limits st !! channel_id_value = None ->
     forall remaining, fst r <> Some (ListThrottled remaining)).
Proof.
  intros Hc Htext _. cbv zeta. unfold list_tables.
  pose proof (admission_answers CONFIG_FILE user_id guild now
                (caches st) (limits st) Hc Htext) as [answer Hanswer].
  destruct (admission CONFIG_FILE user_id guild now (caches st, limits st))
    as [ra checked]. cbn [fst] in Hanswer. subst ra.
  cbn [_channel_rate_limits world caches limits].
  destruct answer as [wait | wait |].
  - cbn [fst snd _channel_rate_limits world].
    nothing_posted. split; [|discriminate].
    intros last_run _ _. split; [eauto | discriminate].
  - cbn [fst snd _channel_rate_limits world].
    nothing_posted. split; [|discriminate].
    intros last_run _ _. split; [eauto | discriminate].
  - destruct (_channel_rate_limits st !! channel_id_value) as [last_run|] eqn:Hlast.
    + destruct (now - last_run <? LIST_TABLES_COOLDOWN) eqn:Hcool.
      * cbn [fst snd _channel_rate_limits world].
        nothing_posted. split; [|discriminate].
        intros last [= <-] Hle. split.
        -- intros _. right. eexists. split; [reflexivity|].
           unfold LIST_TABLES_COOLDOWN in *. apply Z.ltb_lt in Hcool.
           apply int_total_seconds_below; lia.
        -- intros Hover. apply Z.ltb_lt in Hcool. lia.
      * apply Z.ltb_ge in Hcool.
        unfold load_active_tables, bind, load_tables, ret. cbn [fst snd].
        destruct is_guild_channel.
        -- destruct (decide (filter (fun item => channel_id (snd item) = channel_id_value)
                               (active_file (world st)) = ∅)) as [Hempty | Hfull].
           ++ cbn [fst snd _channel_rate_limits world].
              nothing_posted. split; [|discriminate].
              intros last [= <-] Hle. split; [lia | discriminate].
           ++ widths_read Htext; destruct sent; cbn [fst snd _channel_rate_limits world].
              ** posted_here.
                 split.
                 { intros tables [= <-]. split; [reflexivity|].
                   split; [apply lookup_insert_eq|]. split; [assumption|].
                   intros _ table_id info. apply map_lookup_filter_Some. }
                 split; [intros Hnot; now specialize (Hnot _ eq_refl)|].
                 split; [|discriminate].
                 intros last [= <-] Hle. split; [lia | discriminate].
              ** nothing_posted. split; [|discriminate].
                 intros last [= <-] Hle. split; [lia | discriminate].
        -- destruct (decide (filter (fun item => visible_in_dm (snd item) = true)
                               (active_file (world st)) = ∅)) as [Hempty | Hfull].
           ++ cbn [fst snd _channel_rate_limits world].
              nothing_posted. split; [|discriminate].
              intros last [= <-] Hle. split; [lia | discriminate].
           ++ widths_read Htext; destruct sent; cbn [fst snd _channel_rate_limits world].
              ** posted_here.
                 split.
                 { intros tables [= <-]. split; [reflexivity|].
                   split; [apply lookup_insert_eq|]. split; [assumption|].
                   discriminate. }
                 split; [intros Hnot; now specialize (Hnot _ eq_refl)|].
                 split; [|discriminate].
                 intros last [= <-] Hle. split; [lia | discriminate].
              ** nothing_posted. split; [|discriminate].
                 intros last [= <-] Hle. split; [lia | discriminate].
    + unfold load_active_tables, bind, load_tables, ret. cbn [fst snd].
      destruct is_guild_channel.
      * destruct (decide (filter (fun item => channel_id (snd item) = channel_id_value)
                            (active_file (world st)) = ∅)) as [Hempty | Hfull].
        -- cbn [fst snd _channel_rate_limits world].
           nothing_posted. split; discriminate.
        -- widths_read Htext; destruct sent; cbn [fst snd _channel_rate_limits world].
           ++ posted_here.
              split.
              { intros tables [= <-]. split; [reflexivity|].
                split; [apply lookup_insert_eq|]. split; [assumption|].
                intros _ table_id info. apply map_lookup_filter_Some. }
              split; [intros Hnot; now specialize (Hnot _ eq_refl)|].
              split; discriminate.
           ++ nothing_posted. split; discriminate.
      * destruct (decide (filter (fun item => visible_in_dm (snd item) = true)
                            (active_file (world st)) = ∅)) as [Hempty | Hfull].
        -- cbn [fst snd _channel_rate_limits world].
           nothing_posted. split; discriminate.
        -- widths_read Htext; destruct sent; cbn [fst snd _channel_rate_limits world].
           ++ posted_here.
              split.
              { intros tables [= <-]. split; [reflexivity|].
                split; [apply lookup_insert_eq|]. split; [assumption|].
                discriminate. }
              split; [intros Hnot; now specialize (Hnot _ eq_refl)|].
              split; discriminate.
           ++ nothing_posted. split; discriminate.
Qed.

(* ===================================================================== *)
(** * /my-tables                                                          *)
(* ===================================================================== *)

Lemma my_status_cases (user_id : Z) (info : TableData) (status : string) :
  my_status user_id info = Some status <->
  (creator_id info = user_id /\ status = "DM") \/
  (creator_id info <> user_id /\ user_id ∈ ids (players info) /\ status = "Player") \/
  (creator_id info <> user_id /\ (user_id ∉ ids (players info)) /\
   user_id ∈ ids (waitlist info) /\ status = "Waiting").
Proof.
  unfold my_status.
  destruct (Z.eqb_spec (creator_id info) user_id) as [Hc | Hc].
  { split; [intros [= <-]; auto|]. intros [[_ ->] | [[H _] | [H _]]]; congruence. }
  destruct (any_id user_id (players info)) eqn:Hp.
  { apply any_id_true in Hp.
    split; [intros [= <-]; auto|].
    intros [[H _] | [(_ & _ & ->) | (_ & H & _)]]; [congruence | reflexivity | tauto]. }
  apply any_id_false in Hp.
  destruct (any_id user_id (waitlist info)) eqn:Hw.
  { apply any_id_true in Hw.
    split; [intros [= <-]; auto 6|].
    intros [[H _] | [(_ & H & _) | (_ & _ & _ & ->)]]; [congruence | tauto | reflexivity]. }
  apply any_id_false in Hw.
  split; [discriminate|].
  intros [[H _] | [(_ & H & _) | (_ & _ & H & _)]]; [congruence | tauto | tauto].
Qed.

(** The tables [my_tables] collects before it looks at the guild. *)
Lemma relevant_lookup (user_id : Z) (active_tables : gmap string TableData)
    (table_id : string) (info : TableData) (status : string) :
  omap (fun info => match my_status user_id info with
                    | Some status => Some (info, status)
                    | None => None
                    end) active_tables !! table_id = Some (info, status)
  <-> active_tables !! table_id = Some info /\ my_status user_id info = Some status.
Proof.
  rewrite lookup_omap. destruct (active_tables !! table_id) as [t|]; cbn.
  - destruct (my_status user_id t) as [st|] eqn:Hst.
    + split; [intros [= <- <-]; auto|]. intros [[= <-] Heq]. congruence.
    + split; [discriminate|]. intros [[= <-] Heq]. congruence.
  - split; [discriminate | intros [Hn _]; discriminate].
Qed.

(** What [my_tables] shows once the opening checks are passed. *)
Lemma my_tables_relevant_shown
    (user_id : Z) (guild : option Z) (active_tables : gmap string TableData)
    (relevant : gmap string (TableData * string)) :
  my_tables_relevant user_id guild active_tables = MyTablesShown relevant ->
  relevant <> ∅ /\
  (forall table_id info status, relevant !! table_id = Some (info, status) ->
     active_tables !! table_id = Some info /\
     ((creator_id info = user_id /\ status = "DM") \/
      (creator_id info <> user_id /\ user_id ∈ ids (players info) /\
       status = "Player") \/
      (creator_id info <> user_id /\ (user_id ∉ ids (players info)) /\
       user_id ∈ ids (waitlist info) /\ status = "Waiting")) /\
     (forall guild_id_value, guild = Some guild_id_value ->
        guild_id info = guild_id_value)) /\
  (forall table_id other info info' status status',
     relevant !! table_id = Some (info, status) ->
     relevant !! other = Some (info', status') ->
     guild_id info = guild_id info') /\
  (forall table_id info status,
     active_tables !! table_id = Some info ->
     my_status user_id info = Some status ->
     (forall guild_id_value, guild = Some guild_id_value ->
        guild_id info = guild_id_value) ->
     relevant !! table_id = Some (info, status)).
Proof.
  unfold my_tables_relevant.
  set (collected := omap _ active_tables).
  assert (Hcollected : forall table_id info status,
            collected !! table_id = Some (info, status)
            <-> active_tables !! table_id = Some info /\
                my_status user_id info = Some status)
    by (intros; apply relevant_lookup).
  destruct guild as [g|].
  - destruct (decide (filter (fun item => guild_id (fst (snd item)) = g) collected = ∅))
      as [Hempty | Hfull]; [discriminate|].
    intros [= <-]. split; [assumption|]. split; [|split].
    + intros table_id info status Hin.
      apply map_lookup_filter_Some in Hin as [Hin Hg]. cbn [fst snd] in Hg.
      apply Hcollected in Hin as [Hactive Hstatus].
      split; [assumption|]. split; [now apply my_status_cases|].
      intros g' [= <-]. assumption.
    + intros table_id other info info' status status' H1 H2.
      apply map_lookup_filter_Some in H1 as [_ H1].
      apply map_lookup_filter_Some in H2 as [_ H2]. cbn [fst snd] in *. congruence.
    + intros table_id info status Hactive Hstatus Hg.
      apply map_lookup_filter_Some. split; [now apply Hcollected|].
      cbn [fst snd]. now apply Hg.
  - set (guild_ids := list_to_set _ : gset Z).
    assert (Hids : forall g, g ∈ guild_ids <->
              exists table_id info status,
                collected !! table_id = Some (info, status) /\ guild_id info = g).
    { intros g. subst guild_ids. rewrite elem_of_list_to_set, list_elem_of_fmap. split.
      - intros ([table_id [info status]] & -> & Hin).
        apply elem_of_map_to_list in Hin. eauto.
      - intros (table_id & info & status & Hin & <-).
        exists (table_id, (info, status)). split; [reflexivity|].
        now apply elem_of_map_to_list. }
    destruct (1 <? size guild_ids)%nat eqn:Hsize; [discriminate|].
    apply Nat.ltb_ge in Hsize.
    assert (Hone : forall g g', g ∈ guild_ids -> g' ∈ guild_ids -> g = g').
    { intros g g' Hg Hg'. destruct (decide (g = g')) as [|Hne]; [assumption|].
      exfalso.
      assert (Hsub : ({[g]} ∪ {[g']} : gset Z) ⊆ guild_ids).
      { intros x. rewrite elem_of_union, !elem_of_singleton. intros [-> | ->]; assumption. }
      apply subseteq_size in Hsub.
      rewrite size_union in Hsub
        by (intros x; rewrite !elem_of_singleton; congruence).
      rewrite !size_singleton in Hsub. lia. }
    assert (Hsame : forall table_id other info info' status status',
              collected !! table_id = Some (info, status) ->
              collected !! other = Some (info', status') ->
              guild_id info = guild_id info').
    { intros table_id other info info' status status' H1 H2.
      apply Hone; apply Hids; eauto. }
    assert (Hshown : forall shown : gmap string (TableData * string),
              (forall table_id entry, shown !! table_id = Some entry <->
                 collected !! table_id = Some entry) ->
              shown <> ∅ ->
              shown <> ∅ /\
              (forall table_id info status, shown !! table_id = Some (info, status) ->
                 active_tables !! table_id = Some info /\
                 ((creator_id info = user_id /\ status = "DM") \/
                  (creator_id info <> user_id /\ user_id ∈ ids (players info) /\
                   status = "Player") \/
                  (creator_id info <> user_id /\ (user_id ∉ ids (players info)) /\
                   user_id ∈ ids (waitlist info) /\ status = "Waiting")) /\
                 (forall guild_id_value, @None Z = Some guild_id_value ->
                    guild_id info = guild_id_value)) /\
              (forall table_id other info info' status status',
                 shown !! table_id = Some (info, status) ->
                 shown !! other = Some (info', status') ->
                 guild_id info = guild_id info') /\
              (forall table_id info status,
                 active_tables !! table_id = Some info ->
                 my_status user_id info = Some status ->
                 (forall guild_id_value, @None Z = Some guild_id_value ->
                    guild_id info = guild_id_value) ->
                 shown !! table_id = Some (info, status))).
    { intros shown Hsame_map Hfull. split; [assumption|]. split; [|split].
      - intros table_id info status Hin. apply Hsame_map, Hcollected in Hin as [Ha Hs].
        split; [assumption|]. split; [now apply my_status_cases | discriminate].
      - intros table_id other info info' status status' H1 H2.
        apply Hsame_map in H1, H2. eauto.
      - intros table_id info status Ha Hs _. apply Hsame_map, Hcollected. auto. }
    destruct (elements guild_ids) as [|target rest] eqn:Helements.
    + destruct (decide (collected = ∅)) as [|Hfull]; [discriminate|].
      intros [= <-]. apply Hshown; [tauto | assumption].
    + destruct (decide (filter (fun item => guild_id (fst (snd item)) = target) collected
                        = ∅)) as [|Hfull]; [discriminate|].
      intros [= <-]. apply Hshown; [|assumption].
      intros table_id [info status]. rewrite map_lookup_filter_Some. cbn [fst snd].
      split; [tauto|]. intros Hin. split; [assumption|].
      apply Hone.
      * apply Hids. eauto.
      * apply elem_of_elements. rewrite Helements. left.
Qed.

(** X20. What /my-tables shows is never empty, and holds only active tables
    the user runs, plays in or waits for, each with the status that says
    which: "DM" for the creator, else "Player" for somebody on the roster,
    else "Waiting". All of them belong to one guild. In a server these are
    exactly the user's tables of that guild; in a direct message they are
    all the user's tables, and tables on more than one server are not
    shown at all. *)
Theorem my_tables_shows_the_tables_of_one_guild
    (CONFIG_FILE : Disk.file) (user_id : Z) (guild : option Z) (now : Z)
    (st : Config.Caches * Limits) (w : World)
    (relevant : gmap string (TableData * string)) :
  fst (my_tables CONFIG_FILE user_id guild now st w) = Some (MyTablesShown relevant) ->
  relevant <> ∅ /\
  (forall table_id info status, relevant !! table_id = Some (info, status) ->
     active_file w !! table_id = Some info /\
     ((creator_id info = user_id /\ status = "DM") \/
      (creator_id info <> user_id /\ user_id ∈ ids (players info) /\
       status = "Player") \/
      (creator_id info <> user_id /\ (user_id ∉ ids (players info)) /\
       user_id ∈ ids (waitlist info) /\ status = "Waiting")) /\
     (forall guild_id_value, guild = Some guild_id_value ->
        guild_id info = guild_id_value)) /\
  (forall table_id other info info' status status',
     relevant !! table_id = Some (info, status) ->
     relevant !! other = Some (info', status') ->
     guild_id info = guild_id info') /\
  (forall table_id info status,
     active_file w !! table_id = Some info ->
     my_status user_id info = Some status ->
     (forall guild_id_value, guild = Some guild_id_value ->
        guild_id info = guild_id_value) ->
     relevant !! table_id = Some (info, status)).
Proof.
  unfold my_tables.
  destruct (admission CONFIG_FILE user_id guild now st) as [[[wait | wait |]|] st'];
    cbn [fst]; try discriminate.
  destruct (my_tables_relevant user_id guild (fst (load_active_tables w)))
    as [why | | | shown] eqn:Hshown; cbn [fst]; try discriminate.
  destruct (Config.get_my_table_column_widths CONFIG_FILE (fst st')) as [[e | widths] c'];
    cbn [fst]; [discriminate|].
  intros [= <-]. exact (my_tables_relevant_shown _ _ _ _ Hshown).
Qed.

(* ===================================================================== *)
(** * Cells, rows and labels                                              *)
(* ===================================================================== *)

Lemma append_cons (c : Ascii.ascii) (a b : string) :
  String.append (String c a) b = String c (String.append a b).
Proof. reflexivity. Qed.

Lemma len_nonneg (value : string) : 0 <= len value.
Proof. unfold len. lia. Qed.

Lemma len_cons (c : Ascii.ascii) (value : string) :
  len (String c value) = if is_continuation c then len value else len value + 1.
Proof. unfold len. cbn [code_points]. destruct (is_continuation c); lia. Qed.

Lemma len_append (a b : string) : len (String.append a b) = len a + len b.
Proof.
  induction a as [|c a IH].
  - reflexivity.
  - rewrite append_cons, !len_cons, IH. destruct (is_continuation c); lia.
Qed.

Lemma len_spaces (count : nat) : len (spaces count) = Z.of_nat count.
Proof.
  induction count as [|n IH]; [reflexivity|].
  cbn [spaces]. rewrite len_cons, IH.
  change (is_continuation (Ascii.ascii_of_nat 32)) with false. lia.
Qed.

Lemma append_empty (value : string) : String.append value "" = value.
Proof.
  induction value as [|c value IH]; [reflexivity|]. now rewrite append_cons, IH.
Qed.

(** Taking code points off the front leaves a prefix with that many of
    them, and a rest that begins a code point. *)
Lemma take_points_prefix (count : nat) (value : string) :
  exists rest,
    value = String.append (take_points count value) rest /\
    match rest with
    | EmptyString => True
    | String c _ => is_continuation c = false
    end.
Proof.
  revert count. induction value as [|c value IH]; intros count.
  - exists "". split; [reflexivity | exact I].
  - cbn [take_points]. destruct (is_continuation c) eqn:Hc.
    + destruct (IH count) as (rest & Heq & Hrest). exists rest.
      split; [|exact Hrest]. rewrite append_cons. now rewrite <- Heq.
    + destruct count as [|count].
      * exists (String c value). split; [reflexivity | exact Hc].
      * destruct (IH count) as (rest & Heq & Hrest). exists rest.
        split; [|exact Hrest]. rewrite append_cons. now rewrite <- Heq.
Qed.

Lemma len_take_points (count : nat) (value : string) :
  len (take_points count value) = Z.min (Z.of_nat count) (len value).
Proof.
  revert count. induction value as [|c value IH]; intros count.
  - cbn [take_points]. change (len "") with 0. lia.
  - cbn [take_points]. rewrite len_cons. destruct (is_continuation c) eqn:Hc.
    + rewrite len_cons, Hc. apply IH.
    + destruct count as [|count].
      * change (len "") with 0. pose proof (len_nonneg value). lia.
      * rewrite len_cons, Hc, IH. lia.
Qed.

Lemma len_slice_to (value : string) (stop : Z) :
  len (slice_to value stop)
  = if stop <? 0 then Z.max 0 (len value + stop) else Z.min stop (len value).
Proof.
  unfold slice_to. rewrite len_take_points. pose proof (len_nonneg value).
  destruct (stop <? 0) eqn:Hstop; lia.
Qed.

Lemma len_ljust (value : string) (width : Z) :
  len (ljust value width) = Z.max width (len value).
Proof.
  unfold ljust. rewrite len_append, len_spaces. pose proof (len_nonneg value). lia.
Qed.

Lemma len_format_cell (value : string) (width : Z) :
  0 <= width -> len (format_cell value width) = width.
Proof.
  intros Hwidth. unfold format_cell. pose proof (len_nonneg value) as Hlen.
  destruct (len value <=? width) eqn:Hfits.
  - rewrite len_ljust. lia.
  - destruct (width <=? 3) eqn:Hsmall.
    + rewrite len_slice_to. replace (width <? 0) with false by lia. lia.
    + rewrite len_ljust, len_append, len_slice_to.
      replace (width - 3 <? 0) with false by lia.
      change (len "...") with 3. lia.
Qed.

(** X21. [format_cell] returns exactly [width] code points, the bytes of
    the UTF-8 text that do not continue one, for every width that is not
    negative. A value that fits is followed by spaces. A longer
    one is cut after its first [width - 3] code points and followed by three
    dots, or cut after its first [width] code points when there is no room
    for the dots; the cut never falls inside a code point. With a negative
    width the value loses its last [-width] code points. *)
Theorem format_cell_fills_the_width (value : string) (width : Z) :
  (forall text : string,
     len text
     = Z.of_nat (length (List.filter
                           (fun byte => (Ascii.N_of_ascii byte <? 128)%N
                                        || (192 <=? Ascii.N_of_ascii byte)%N)
                           (String.list_ascii_of_string text)))) /\
  (0 <= width -> len (format_cell value width) = width) /\
  (len value <= width ->
     format_cell value width
     = String.append value (spaces (Z.to_nat (width - len value)))) /\
  (width < len value ->
     exists kept rest,
       value = String.append kept rest /\
       match rest with
       | EmptyString => True
       | String c _ => is_continuation c = false
       end /\
       (width < 0 -> format_cell value width = kept /\
                     len kept = Z.max 0 (len value + width)) /\
       (0 <= width <= 3 -> format_cell value width = kept /\ len kept = width) /\
       (3 < width -> format_cell value width = String.append kept "..." /\
                     len kept = width - 3)).
Proof.
  pose proof (len_nonneg value) as Hlen.
  split; [apply len_counts_code_points|].
  split; [apply len_format_cell|]. unfold format_cell. split.
  - intros Hfits. now replace (len value <=? width) with true by lia.
  - intros Hcut. replace (len value <=? width) with false by lia.
    set (stop := if width <=? 3 then width else width - 3).
    destruct (take_points_prefix
                (Z.to_nat (if stop <? 0 then Z.max 0 (len value + stop) else stop))
                value) as (rest & Heq & Hrest).
    exists (slice_to value stop), rest.
    split; [exact Heq|]. split; [exact Hrest|].
    subst stop. split; [|split].
    + intros Hneg. replace (width <=? 3) with true by lia.
      split; [reflexivity|]. rewrite len_slice_to.
      now replace (width <? 0) with true by lia.
    + intros Hsmall. replace (width <=? 3) with true by lia.
      split; [reflexivity|]. rewrite len_slice_to.
      replace (width <? 0) with false by lia. lia.
    + intros Hwide. replace (width <=? 3) with false by lia.
      assert (Hkept : len (slice_to value (width - 3)) = width - 3).
      { rewrite len_slice_to. replace (width - 3 <? 0) with false by lia. lia. }
      split; [|exact Hkept].
      unfold ljust. rewrite len_append, Hkept. change (len "...") with 3.
      replace (Z.to_nat (width - (width - 3 + 3))) with O by lia.
      cbn [spaces]. now rewrite append_empty.
Qed.

Lemma column_width_wide (widths : list (string * Z)) (key : string) (fallback : Z) :
  4 <= column_width widths key fallback.
Proof. unfold column_width. lia. Qed.

(** X22. Every line of a table in /list-tables is as long, in code points,
    as the four column widths and the three spaces between them, whatever
    the texts of its cells. The header is that long when the widths leave room for the
    titles: 6 characters for the system, 8 for the schedule and 7 for the
    players; a narrower column makes the header longer than the lines below
    it. With the default widths, header and lines are 81 characters
    long. *)
Theorem rows_are_as_long_as_the_widths
    (widths : list (string * Z)) (safe_system safe_schedule gm_display seats : string) :
  let system_width := column_width widths "system" 20 in
  let schedule_width := column_width widths "schedule" 24 in
  let gm_width := column_width widths "gm" 24 in
  let players_width := column_width widths "players" 10 in
  (forall text : string,
     len text
     = Z.of_nat (length (List.filter
                           (fun byte => (Ascii.N_of_ascii byte <? 128)%N
                                        || (192 <=? Ascii.N_of_ascii byte)%N)
                           (String.list_ascii_of_string text)))) /\
  len (list_row widths safe_system safe_schedule gm_display seats)
  = system_width + schedule_width + gm_width + players_width + 3 /\
  len (list_header widths)
  = Z.max 6 system_width + Z.max 8 schedule_width + gm_width
    + Z.max 7 players_width + 3 /\
  (len (list_header widths)
   = len (list_row widths safe_system safe_schedule gm_display seats)
   <-> 6 <= system_width /\ 8 <= schedule_width /\ 7 <= players_width) /\
  (len (list_header Config._DEFAULT_LIST_TABLE_WIDTHS) = 81 /\
   len (list_row Config._DEFAULT_LIST_TABLE_WIDTHS
          safe_system safe_schedule gm_display seats) = 81).
Proof.
  cbv zeta.
  assert (Hrow : forall widths,
            len (list_row widths safe_system safe_schedule gm_display seats)
            = column_width widths "system" 20 + column_width widths "schedule" 24
              + column_width widths "gm" 24 + column_width widths "players" 10 + 3).
  { intros ws. unfold list_row. cbv zeta. rewrite !len_append.
    rewrite !len_format_cell
      by (pose proof (column_width_wide ws "system" 20);
          pose proof (column_width_wide ws "schedule" 24);
          pose proof (column_width_wide ws "gm" 24);
          pose proof (column_width_wide ws "players" 10); lia).
    change (len " ") with 1. lia. }
  assert (Hheader : forall widths,
            len (list_header widths)
            = Z.max 6 (column_width widths "system" 20)
              + Z.max 8 (column_width widths "schedule" 24)
              + column_width widths "gm" 24
              + Z.max 7 (column_width widths "players" 10) + 3).
  { intros ws. unfold list_header. cbv zeta. rewrite !len_append, !len_ljust.
    change (len " ") with 1. change (len "System") with 6.
    change (len "Schedule") with 8. change (len "GM") with 2.
    change (len "Players") with 7.
    pose proof (column_width_wide ws "gm" 24). lia. }
  split; [apply len_counts_code_points|].
  split; [apply Hrow|]. split; [apply Hheader|]. split.
  - rewrite Hrow, Hheader.
    pose proof (column_width_wide widths "system" 20).
    pose proof (column_width_wide widths "schedule" 24).
    pose proof (column_width_wide widths "players" 10). lia.
  - rewrite Hrow, Hheader. split; reflexivity.
Qed.

(** Takes the matches on the configured widths apart, one key at a time. *)
Ltac split_overrides :=
  repeat match goal with
         | |- context [Config.positive_int ?candidate] =>
             let H := fresh "Hoverride" in
             destruct (Config.positive_int candidate) eqn:H;
             [apply positive_int_positive in H|]
         end.

Lemma list_widths_overridden (widths : list (string * Disk.pyval)) :
  let result :=
    Config.override_widths Config._DEFAULT_LIST_TABLE_WIDTHS widths
      Config._DEFAULT_LIST_TABLE_WIDTHS in
  map fst result = ["system"; "schedule"; "gm"; "players"] /\
  Forall (fun item => 0 < snd item) result /\
  forall key default_value,
    In (key, default_value) Config._DEFAULT_LIST_TABLE_WIDTHS ->
    Disk.dict_get key result
    = Some (default default_value (Config.positive_int (Disk.dict_get key widths))).
Proof.
  cbv zeta. unfold Config._DEFAULT_LIST_TABLE_WIDTHS.
  cbn [Config.override_widths]. split; [|split].
  - split_overrides; reflexivity.
  - split_overrides; cbn; repeat constructor; cbn; lia.
  - intros key default_value Hin. cbn [In] in Hin.
    destruct Hin as [[= <- <-] | [[= <- <-] | [[= <- <-] | [[= <- <-] | []]]]];
      split_overrides; reflexivity.
Qed.

Lemma my_widths_overridden (widths : list (string * Disk.pyval)) :
  let result :=
    Config.override_widths Config._DEFAULT_MY_TABLE_WIDTHS widths
      Config._DEFAULT_MY_TABLE_WIDTHS in
  map fst result = ["system"; "schedule"; "gm"; "players"; "status"] /\
  Forall (fun item => 0 < snd item) result /\
  forall key default_value,
    In (key, default_value) Config._DEFAULT_MY_TABLE_WIDTHS ->
    Disk.dict_get key result
    = Some (default default_value (Config.positive_int (Disk.dict_get key widths))).
Proof.
  cbv zeta. unfold Config._DEFAULT_MY_TABLE_WIDTHS.
  cbn [Config.override_widths]. split; [|split].
  - split_overrides; reflexivity.
  - split_overrides; cbn; repeat constructor; cbn; lia.
  - intros key default_value Hin. cbn [In] in Hin.
    destruct Hin
      as [[= <- <-] | [[= <- <-] | [[= <- <-] | [[= <- <-] | [[= <- <-] | []]]]]];
      split_overrides; reflexivity.
Qed.

(** X23. The column widths of /list-tables and /my-tables are read from the
    configuration file once. On a file [json.load] fails on with something
    else than a [JSONDecodeError], as a file that is not UTF-8 text, the
    getters raise the same and cache nothing. On every other file they
    come with all the keys of the defaults, in their order, and with
    positive values: a width that is configured as a positive integer
    replaces its default, anything else leaves the default in place, and
    without a dictionary of widths all defaults stand. The first answer is
    kept: later calls repeat it whatever the file has become. *)
Theorem column_widths_are_complete_and_positive
    (CONFIG_FILE changed_file : Disk.file) :
  let l := Config.get_list_table_column_widths CONFIG_FILE Config.no_caches in
  let m := Config.get_my_table_column_widths CONFIG_FILE Config.no_caches in
  (forall e, CONFIG_FILE = Disk.Unloadable e ->
     l = (inl (Disk.LoadError e), Config.no_caches) /\
     m = (inl (Disk.LoadError e), Config.no_caches)) /\
  (Disk.loads CONFIG_FILE = true ->
   exists config list_widths my_widths,
     Config._load_config CONFIG_FILE = inr config /\
     fst l = inr list_widths /\
     fst m = inr my_widths /\
     map fst list_widths = ["system"; "schedule"; "gm"; "players"] /\
     map fst my_widths = ["system"; "schedule"; "gm"; "players"; "status"] /\
     Forall (fun item => 0 < snd item) list_widths /\
     Forall (fun item => 0 < snd item) my_widths /\
     Config.get_list_table_column_widths changed_file (snd l)
     = (inr list_widths, snd l) /\
     Config.get_my_table_column_widths changed_file (snd m)
     = (inr my_widths, snd m) /\
     (forall cfg widths key default_value,
        Disk.dict_get "list_tables" config = Some (Disk.PyDict cfg) ->
        Disk.dict_get "column_widths" cfg = Some (Disk.PyDict widths) ->
        In (key, default_value) Config._DEFAULT_LIST_TABLE_WIDTHS ->
        Disk.dict_get key list_widths
        = Some (default default_value
                  (Config.positive_int (Disk.dict_get key widths)))) /\
     (forall cfg widths key default_value,
        Disk.dict_get "my_tables" config = Some (Disk.PyDict cfg) ->
        Disk.dict_get "column_widths" cfg = Some (Disk.PyDict widths) ->
        In (key, default_value) Config._DEFAULT_MY_TABLE_WIDTHS ->
        Disk.dict_get key my_widths
        = Some (default default_value
                  (Config.positive_int (Disk.dict_get key widths)))) /\
     ((forall cfg widths,
         Disk.dict_get "list_tables" config = Some (Disk.PyDict cfg) ->
         Disk.dict_get "column_widths" cfg <> Some (Disk.PyDict widths)) ->
        list_widths = Config._DEFAULT_LIST_TABLE_WIDTHS) /\
     ((forall cfg widths,
         Disk.dict_get "my_tables" config = Some (Disk.PyDict cfg) ->
         Disk.dict_get "column_widths" cfg <> Some (Disk.PyDict widths)) ->
        my_widths = Config._DEFAULT_MY_TABLE_WIDTHS)).
Proof.
  cbv zeta. split.
  { intros e ->. split; reflexivity. }
  intros Htext.
  destruct (load_config_cases CONFIG_FILE) as [(e & Hfile & _) | [_ [config Hload]]];
    [rewrite Hfile in Htext; discriminate|].
  assert (Hl : exists list_widths,
             Config.get_list_table_column_widths CONFIG_FILE Config.no_caches
             = (inr list_widths, Config.mkCaches (Some list_widths) None None None) /\
             (list_widths = Config._DEFAULT_LIST_TABLE_WIDTHS /\
              (forall cfg widths,
                 Disk.dict_get "list_tables" config = Some (Disk.PyDict cfg) ->
                 Disk.dict_get "column_widths" cfg <> Some (Disk.PyDict widths))
              \/ exists cfg widths,
                   Disk.dict_get "list_tables" config = Some (Disk.PyDict cfg) /\
                   Disk.dict_get "column_widths" cfg = Some (Disk.PyDict widths) /\
                   list_widths
                   = Config.override_widths Config._DEFAULT_LIST_TABLE_WIDTHS widths
                       Config._DEFAULT_LIST_TABLE_WIDTHS)).
  { unfold Config.get_list_table_column_widths.
    cbn [Config.no_caches Config._column_widths_cache Config._my_tables_widths_cache
           Config._user_command_rate_limit_cache
           Config._guild_command_rate_limit_cache].
    rewrite Hload. cbv zeta. eexists. split; [reflexivity|].
    destruct (Disk.dict_get "list_tables" config)
      as [[| | | | |cfg|]|]; try (left; split; [reflexivity | discriminate]).
    destruct (Disk.dict_get "column_widths" cfg) as [[| | | | |widths|]|] eqn:Hw;
      try (left; split; [reflexivity | intros cfg' widths' [= <-]; congruence]).
    right. eauto. }
  assert (Hm : exists my_widths,
             Config.get_my_table_column_widths CONFIG_FILE Config.no_caches
             = (inr my_widths, Config.mkCaches None (Some my_widths) None None) /\
             (my_widths = Config._DEFAULT_MY_TABLE_WIDTHS /\
              (forall cfg widths,
                 Disk.dict_get "my_tables" config = Some (Disk.PyDict cfg) ->
                 Disk.dict_get "column_widths" cfg <> Some (Disk.PyDict widths))
              \/ exists cfg widths,
                   Disk.dict_get "my_tables" config = Some (Disk.PyDict cfg) /\
                   Disk.dict_get "column_widths" cfg = Some (Disk.PyDict widths) /\
                   my_widths
                   = Config.override_widths Config._DEFAULT_MY_TABLE_WIDTHS widths
                       Config._DEFAULT_MY_TABLE_WIDTHS)).
  { unfold Config.get_my_table_column_widths.
    cbn [Config.no_caches Config._column_widths_cache Config._my_tables_widths_cache
           Config._user_command_rate_limit_cache
           Config._guild_command_rate_limit_cache].
    rewrite Hload. cbv zeta. eexists. split; [reflexivity|].
    destruct (Disk.dict_get "my_tables" config)
      as [[| | | | |cfg|]|]; try (left; split; [reflexivity | discriminate]).
    destruct (Disk.dict_get "column_widths" cfg) as [[| | | | |widths|]|] eqn:Hw;
      try (left; split; [reflexivity | intros cfg' widths' [= <-]; congruence]).
    right. eauto. }
  destruct Hl as (list_widths & -> & Hl). destruct Hm as (my_widths & -> & Hm).
  exists config, list_widths, my_widths. cbn [fst snd].
  split; [exact Hload|].
  do 2 (split; [reflexivity|]).
  split; [|split; [|split; [|split; [|split; [|split; [|split; [|split; [|split]]]]]]]].
  - destruct Hl as [[-> _] | (cfg & widths & _ & _ & ->)]; [reflexivity|].
    apply list_widths_overridden.
  - destruct Hm as [[-> _] | (cfg & widths & _ & _ & ->)]; [reflexivity|].
    apply my_widths_overridden.
  - destruct Hl as [[-> _] | (cfg & widths & _ & _ & ->)].
    + cbn. repeat constructor.
    + apply list_widths_overridden.
  - destruct Hm as [[-> _] | (cfg & widths & _ & _ & ->)].
    + cbn. repeat constructor.
    + apply my_widths_overridden.
  - reflexivity.
  - reflexivity.
  - intros cfg widths key default_value Hcfg Hwidths Hin.
    destruct Hl as [[_ Hnone] | (cfg' & widths' & Hcfg' & Hwidths' & ->)].
    + now destruct (Hnone cfg widths Hcfg).
    + assert (cfg' = cfg) by congruence. subst cfg'.
      assert (widths' = widths) by congruence. subst widths'.
      now apply list_widths_overridden.
  - intros cfg widths key default_value Hcfg Hwidths Hin.
    destruct Hm as [[_ Hnone] | (cfg' & widths' & Hcfg' & Hwidths' & ->)].
    + now destruct (Hnone cfg widths Hcfg).
    + assert (cfg' = cfg) by congruence. subst cfg'.
      assert (widths' = widths) by congruence. subst widths'.
      now apply my_widths_overridden.
  - intros Hnone. destruct Hl as [[-> _] | (cfg & widths & Hcfg & Hwidths & _)];
      [reflexivity|]. now destruct (Hnone cfg widths Hcfg).
  - intros Hnone. destruct Hm as [[-> _] | (cfg & widths & Hcfg & Hwidths & _)];
      [reflexivity|]. now destruct (Hnone cfg widths Hcfg).
Qed.

(* ===================================================================== *)
(** * Stripping and labels                                                *)
(* ===================================================================== *)

(** Reads a test on bytes that holds as equations and bounds. *)
Ltac bytes H :=
  repeat (rewrite Bool.orb_true_iff in H || rewrite Bool.andb_true_iff in H
          || rewrite N.leb_le in H || rewrite N.eqb_eq in H).

(** [after_space] takes off exactly the white space code points. *)
Lemma after_space_white_space (value rest : string) :
  after_space value = Some rest <->
  exists point, In point white_space /\ value = utf8 point +:+ rest.
Proof.
  split.
  - destruct value as [|c value]; [discriminate|].
    cbv beta iota zeta delta [after_space].
    pose proof (Ascii.ascii_N_embedding c) as Hc.
    destruct (((9 <=? Ascii.N_of_ascii c) && (Ascii.N_of_ascii c <=? 13)
               || (28 <=? Ascii.N_of_ascii c) && (Ascii.N_of_ascii c <=? 32))%N) eqn:H1.
    { intros [= <-]. bytes H1. exists (Ascii.N_of_ascii c). split.
      - assert (Hb : (Ascii.N_of_ascii c = 9 \/ Ascii.N_of_ascii c = 10 \/
                      Ascii.N_of_ascii c = 11 \/ Ascii.N_of_ascii c = 12 \/
                      Ascii.N_of_ascii c = 13 \/ Ascii.N_of_ascii c = 28 \/
                      Ascii.N_of_ascii c = 29 \/ Ascii.N_of_ascii c = 30 \/
                      Ascii.N_of_ascii c = 31 \/ Ascii.N_of_ascii c = 32)%N) by lia.
        unfold white_space. cbn [In]. intuition.
      - unfold utf8.
        destruct (N.ltb_spec (Ascii.N_of_ascii c) 128); [|lia]. now rewrite Hc. }
    destruct value as [|c1 value]; [discriminate|].
    pose proof (Ascii.ascii_N_embedding c1) as Hc1.
    destruct (((Ascii.N_of_ascii c =? 194)
               && ((Ascii.N_of_ascii c1 =? 133) || (Ascii.N_of_ascii c1 =? 160)))%N) eqn:H2.
    { intros [= <-]. bytes H2.
      assert (Hb : (Ascii.N_of_ascii c = 194 /\
                    (Ascii.N_of_ascii c1 = 133 \/ Ascii.N_of_ascii c1 = 160))%N) by lia.
      destruct Hb as [Hb [Hb1 | Hb1]]; rewrite Hb in Hc; rewrite Hb1 in Hc1;
        subst c c1; [exists 133%N | exists 160%N];
        (split; [unfold white_space; cbn [In]; tauto | reflexivity]). }
    destruct value as [|c2 value]; [discriminate|].
    pose proof (Ascii.ascii_N_embedding c2) as Hc2.
    intros Hrest.
    assert (Hb : rest = value /\
                 ((Ascii.N_of_ascii c = 225 /\ Ascii.N_of_ascii c1 = 154 /\
                   Ascii.N_of_ascii c2 = 128) \/
                  (Ascii.N_of_ascii c = 226 /\ Ascii.N_of_ascii c1 = 128 /\
                   (128 <= Ascii.N_of_ascii c2 <= 138 \/ Ascii.N_of_ascii c2 = 168 \/
                    Ascii.N_of_ascii c2 = 169 \/ Ascii.N_of_ascii c2 = 175)) \/
                  (Ascii.N_of_ascii c = 226 /\ Ascii.N_of_ascii c1 = 129 /\
                   Ascii.N_of_ascii c2 = 159) \/
                  (Ascii.N_of_ascii c = 227 /\ Ascii.N_of_ascii c1 = 128 /\
                   Ascii.N_of_ascii c2 = 128))%N).
    { repeat match type of Hrest with
             | (if ?test then _ else _) = _ =>
                 let Htest := fresh "Htest" in
                 destruct test eqn:Htest;
                 [injection Hrest as <-; bytes Htest; split; [reflexivity | lia]|]
             end.
      discriminate. }
    destruct Hb as [-> Hb].
    assert (Hpoint : exists point,
               In point white_space /\
               utf8 point = String c (String c1 (String c2 ""))).
    { destruct Hb as [(Hb & Hb1 & Hb2) | [(Hb & Hb1 & Hb2) | [(Hb & Hb1 & Hb2)
                                                                | (Hb & Hb1 & Hb2)]]];
        rewrite Hb in Hc; rewrite Hb1 in Hc1; subst c c1.
      - rewrite Hb2 in Hc2. subst c2. exists 5760%N.
        split; [unfold white_space; cbn [In]; tauto | reflexivity].
      - assert (Hb3 : (Ascii.N_of_ascii c2 = 128 \/ Ascii.N_of_ascii c2 = 129 \/
                       Ascii.N_of_ascii c2 = 130 \/ Ascii.N_of_ascii c2 = 131 \/
                       Ascii.N_of_ascii c2 = 132 \/ Ascii.N_of_ascii c2 = 133 \/
                       Ascii.N_of_ascii c2 = 134 \/ Ascii.N_of_ascii c2 = 135 \/
                       Ascii.N_of_ascii c2 = 136 \/ Ascii.N_of_ascii c2 = 137 \/
                       Ascii.N_of_ascii c2 = 138 \/ Ascii.N_of_ascii c2 = 168 \/
                       Ascii.N_of_ascii c2 = 169 \/ Ascii.N_of_ascii c2 = 175)%N) by lia.
        exists (8192 + (Ascii.N_of_ascii c2 - 128))%N.
        repeat (destruct Hb3 as [Hb3 | Hb3];
                [rewrite Hb3 in Hc2 |- *; subst c2;
                 split; [unfold white_space; cbn; tauto | reflexivity]|]).
        rewrite Hb3 in Hc2 |- *. subst c2.
        split; [unfold white_space; cbn; tauto | reflexivity].
      - rewrite Hb2 in Hc2. subst c2. exists 8287%N.
        split; [unfold white_space; cbn [In]; tauto | reflexivity].
      - rewrite Hb2 in Hc2. subst c2. exists 12288%N.
        split; [unfold white_space; cbn [In]; tauto | reflexivity]. }
    destruct Hpoint as (point & Hin & Hpoint). exists point.
    split; [exact Hin|]. now rewrite Hpoint.
  - intros (point & Hin & ->). unfold white_space in Hin. cbn [In] in Hin.
    repeat (destruct Hin as [<- | Hin]; [reflexivity|]). destruct Hin.
Qed.

(** The white space code point a text begins with, set apart. *)
Lemma after_space_split (value rest : string) :
  after_space value = Some rest ->
  exists space,
    value = space +:+ rest /\ after_space space = Some "" /\
    forall more, after_space (space +:+ more) = Some more.
Proof.
  destruct value as [|c value]; [discriminate|].
  cbv beta iota zeta delta [after_space].
  destruct (((9 <=? Ascii.N_of_ascii c) && (Ascii.N_of_ascii c <=? 13)
             || (28 <=? Ascii.N_of_ascii c) && (Ascii.N_of_ascii c <=? 32))%N) eqn:H1.
  { intros [= <-]. exists (String c ""). split; [reflexivity|].
    assert (Hsame : forall more, after_space (String c more) = Some more).
    { intros more. cbv beta iota zeta delta [after_space]. now rewrite H1. }
    split; [apply Hsame | intros more; apply Hsame]. }
  destruct value as [|c1 value]; [discriminate|].
  destruct (((Ascii.N_of_ascii c =? 194)
             && ((Ascii.N_of_ascii c1 =? 133) || (Ascii.N_of_ascii c1 =? 160)))%N) eqn:H2.
  { intros [= <-]. exists (String c (String c1 "")). split; [reflexivity|].
    assert (Hsame : forall more, after_space (String c (String c1 more)) = Some more).
    { intros more. cbv beta iota zeta delta [after_space]. now rewrite H1, H2. }
    split; [apply Hsame | intros more; apply Hsame]. }
  destruct value as [|c2 value]; [discriminate|].
  intros Hrest.
  assert (Hsame : forall more,
            after_space (String c (String c1 (String c2 more))) = Some more).
  { intros more. cbv beta iota zeta delta [after_space]. rewrite H1, H2.
    repeat match type of Hrest with
           | (if ?test then _ else _) = _ =>
               destruct test; [reflexivity|]
           end.
    discriminate. }
  assert (rest = value).
  { pose proof (Hsame value) as Hv. cbv beta iota zeta delta [after_space] in Hv.
    rewrite H1, H2 in Hv. congruence. }
  subst rest. exists (String c (String c1 (String c2 ""))).
  split; [reflexivity|]. split; [apply Hsame|]. intros more. apply Hsame.
Qed.

Lemma length_append (a b : string) :
  String.length (a +:+ b) = (String.length a + String.length b)%nat.
Proof.
  induction a as [|c a IH]; [reflexivity|].
  rewrite append_cons. cbn [String.length]. now rewrite IH.
Qed.

Lemma append_assoc (a b c : string) : (a +:+ b) +:+ c = a +:+ (b +:+ c).
Proof.
  induction a as [|x a IH]; [reflexivity|]. now rewrite !append_cons, IH.
Qed.

Lemma append_inv_head (a b c : string) : a +:+ b = a +:+ c -> b = c.
Proof.
  induction a as [|x a IH]; [auto|]. rewrite !append_cons. intros [= H]. auto.
Qed.

Lemma after_space_shorter (value rest : string) :
  after_space value = Some rest -> (String.length rest < String.length value)%nat.
Proof.
  intros Hrest. destruct (after_space_split _ _ Hrest) as (space & -> & Hspace & _).
  rewrite length_append. destruct space; [discriminate|]. cbn [String.length]. lia.
Qed.

Lemma lstrip_steps_enough (steps steps' : nat) (value : string) :
  (String.length value <= steps)%nat -> (String.length value <= steps')%nat ->
  lstrip_steps steps value = lstrip_steps steps' value.
Proof.
  revert steps' value. induction steps as [|steps IH]; intros steps' value H1 H2.
  - destruct value; [|cbn in H1; lia]. now destruct steps'.
  - destruct steps' as [|steps'].
    + destruct value; [reflexivity | cbn in H2; lia].
    + cbn [lstrip_steps]. destruct (after_space value) as [rest|] eqn:Hrest;
        [|reflexivity].
      apply after_space_shorter in Hrest. apply IH; lia.
Qed.

(** One step of [lstrip]. *)
Lemma lstrip_step (value : string) :
  lstrip value = match after_space value with
                 | Some rest => lstrip rest
                 | None => value
                 end.
Proof.
  unfold lstrip. destruct value as [|c value]; [reflexivity|].
  cbn [String.length lstrip_steps].
  destruct (after_space (String c value)) as [rest|] eqn:Hrest; [|reflexivity].
  apply after_space_shorter in Hrest. cbn [String.length] in Hrest.
  apply lstrip_steps_enough; lia.
Qed.

Lemma spaces_only_lstrip (value : string) : spaces_only value -> lstrip value = "".
Proof.
  induction 1 as [|value rest Hrest _ IH]; [reflexivity|].
  now rewrite lstrip_step, Hrest.
Qed.

(** [lstrip] takes white space off the front, up to a text that begins
    with none. *)
Lemma lstrip_split (value : string) :
  exists lead,
    value = lead +:+ lstrip value /\ spaces_only lead /\
    after_space (lstrip value) = None.
Proof.
  remember (String.length value) as n eqn:Hn. revert value Hn.
  induction n as [n IH] using lt_wf_ind. intros value ->.
  rewrite lstrip_step. destruct (after_space value) as [rest|] eqn:Hrest.
  - destruct (after_space_split _ _ Hrest) as (space & -> & Hspace & Hmore).
    destruct (IH (String.length rest) (after_space_shorter _ _ Hrest) rest eq_refl)
      as (lead & Hlead & Honly & Hstop).
    exists (space +:+ lead). split; [|split; [|exact Hstop]].
    + rewrite append_assoc. now rewrite <- Hlead.
    + apply (spaces_only_more _ lead); [apply Hmore | exact Honly].
  - exists "". split; [reflexivity|]. split; [constructor | exact Hrest].
Qed.

Lemma lstrip_empty_spaces_only (value : string) : lstrip value = "" -> spaces_only value.
Proof.
  intros Hempty. destruct (lstrip_split value) as (lead & Heq & Honly & _).
  rewrite Hempty, append_empty in Heq. now subst.
Qed.

(** [rstrip] takes white space off the end. *)
Lemma rstrip_split (value : string) :
  exists trail, value = rstrip value +:+ trail /\ spaces_only trail.
Proof.
  induction value as [|c value (trail & Heq & Honly)].
  - exists "". split; [reflexivity | constructor].
  - cbn [rstrip]. destruct (String.eqb_spec (lstrip (String c value)) "") as [He | Hne].
    + exists (String c value). split; [reflexivity|].
      now apply lstrip_empty_spaces_only.
    + exists trail. split; [|exact Honly]. rewrite append_cons. now rewrite <- Heq.
Qed.

(** What [rstrip] keeps is followed, at every point, by something else than
    white space. *)
Lemma rstrip_kept (value : string) :
  forall before rest trail,
    value = rstrip value +:+ trail ->
    rstrip value = before +:+ rest -> rest <> "" ->
    lstrip (rest +:+ trail) <> "".
Proof.
  induction value as [|c value IH]; intros before rest trail Heq Hcut Hrest.
  - cbn [rstrip] in Hcut. destruct before; [|discriminate].
    change ("" +:+ rest) with rest in Hcut. congruence.
  - cbn [rstrip] in Heq, Hcut.
    destruct (String.eqb_spec (lstrip (String c value)) "") as [He | Hne].
    + destruct before; [|discriminate].
      change ("" +:+ rest) with rest in Hcut. congruence.
    + rewrite append_cons in Heq. injection Heq as Heq.
      destruct before as [|b before].
      * change ("" +:+ rest) with rest in Hcut. subst rest.
        rewrite append_cons. now rewrite <- Heq.
      * rewrite append_cons in Hcut. injection Hcut as _ Hcut.
        exact (IH before rest trail Heq Hcut Hrest).
Qed.

(** The text between the white space at both ends. *)
Lemma strip_split (value : string) :
  exists lead trail,
    value = lead +:+ strip value +:+ trail /\
    spaces_only lead /\ spaces_only trail /\
    after_space (strip value) = None /\
    ~ ends_with_space (strip value).
Proof.
  unfold strip.
  destruct (lstrip_split value) as (lead & Hlead & Hlead_only & Hstop).
  destruct (rstrip_split (lstrip value)) as (trail & Htrail & Htrail_only).
  exists lead, trail. split; [|split; [exact Hlead_only|split; [exact Htrail_only|split]]].
  - now rewrite <- Htrail.
  - destruct (after_space (rstrip (lstrip value))) as [rest|] eqn:Hrest; [|reflexivity].
    destruct (after_space_split _ _ Hrest) as (space & Heq & _ & Hmore).
    rewrite Htrail, Heq, append_assoc, Hmore in Hstop. discriminate.
  - intros (before & space & Hcut & Hspace).
    apply (rstrip_kept (lstrip value) before space trail Htrail Hcut).
    + intros ->. discriminate.
    + apply spaces_only_lstrip.
      destruct (after_space_split _ _ Hspace) as (space' & Heq & _ & Hmore).
      rewrite append_empty in Heq. subst space'.
      apply (spaces_only_more _ trail); [apply Hmore | exact Htrail_only].
Qed.

(** X24. [_truncate_label] works on the value less the white space at its
    two ends, white space being the code points [str.isspace] holds for,
    and counts code points: the bytes of the UTF-8 text that do not
    continue one. With room for at least ten code points, as with the 100 of the
    calls in the views, the label is never empty and never longer than
    [max_length]: a value that is blank becomes "(untitled)"; one that fits
    is returned whole; a longer one is cut after [max_length - 3] code
    points, never inside one, and followed by three dots. *)
Theorem label_is_never_empty_nor_too_long (value : string) (max_length : Z) :
  10 <= max_length ->
  let label := _truncate_label value max_length in
  (forall text : string,
     len text
     = Z.of_nat (length (List.filter
                           (fun byte => (Ascii.N_of_ascii byte <? 128)%N
                                        || (192 <=? Ascii.N_of_ascii byte)%N)
                           (String.list_ascii_of_string text)))) /\
  (forall text rest : string,
     after_space text = Some rest <->
     exists point, In point white_space /\ text = utf8 point +:+ rest) /\
  label <> "" /\ len label <= max_length /\
  exists lead body trail,
    value = lead +:+ body +:+ trail /\
    spaces_only lead /\ spaces_only trail /\
    after_space body = None /\ ~ ends_with_space body /\
    (body = "" -> label = "(untitled)") /\
    (body <> "" -> len body <= max_length -> label = body) /\
    (max_length < len body ->
       exists kept rest,
         body = kept +:+ rest /\
         match rest with
         | EmptyString => True
         | String c _ => is_continuation c = false
         end /\
         len kept = max_length - 3 /\
         label = kept +:+ "...").
Proof.
  intros Hmax. cbv zeta.
  destruct (strip_split value) as (lead & trail & Heq & Hlead & Htrail & Hstart & Hend).
  assert (Hlabel : _truncate_label value max_length
                   = if len (strip value) <=? max_length
                     then (if String.eqb (strip value) "" then "(untitled)"
                           else strip value)
                     else slice_to (strip value) (max_length - 3) +:+ "...").
  { unfold _truncate_label. cbv zeta.
    destruct (len (strip value) <=? max_length); [reflexivity|].
    now replace (max_length <=? 3) with false by lia. }
  pose proof (len_nonneg (strip value)) as Hlen.
  assert (Hkept : len (slice_to (strip value) (max_length - 3)) = max_length - 3
                  \/ len (strip value) <= max_length).
  { rewrite len_slice_to. replace (max_length - 3 <? 0) with false by lia. lia. }
  split; [apply len_counts_code_points|].
  split; [apply after_space_white_space|].
  split; [|split].
  - rewrite Hlabel. destruct (len (strip value) <=? max_length).
    + destruct (String.eqb_spec (strip value) ""); [discriminate | assumption].
    + destruct (slice_to (strip value) (max_length - 3)); discriminate.
  - rewrite Hlabel. destruct (len (strip value) <=? max_length) eqn:Hfits.
    + destruct (String.eqb_spec (strip value) "").
      * change (len "(untitled)") with 10. lia.
      * lia.
    + rewrite len_append. change (len "...") with 3. lia.
  - exists lead, (strip value), trail.
    split; [exact Heq|]. split; [exact Hlead|]. split; [exact Htrail|].
    split; [exact Hstart|]. split; [exact Hend|]. rewrite Hlabel.
    split; [|split].
    + intros Hblank. rewrite Hblank. change (len "") with 0.
      now replace (0 <=? max_length) with true by lia.
    + intros Hfull Hfits. replace (len (strip value) <=? max_length) with true by lia.
      now destruct (String.eqb_spec (strip value) "").
    + intros Hlong. replace (len (strip value) <=? max_length) with false by lia.
      destruct (take_points_prefix (Z.to_nat (max_length - 3)) (strip value))
        as (rest & Hcut & Hrest).
      exists (slice_to (strip value) (max_length - 3)), rest.
      assert (Hslice : slice_to (strip value) (max_length - 3)
                       = take_points (Z.to_nat (max_length - 3)) (strip value)).
      { unfold slice_to. now replace (max_length - 3 <? 0) with false by lia. }
      split; [now rewrite Hslice|]. split; [exact Hrest|].
      split; [|reflexivity]. destruct Hkept; [assumption | lia].
Qed.

(* ===================================================================== *)
(** * Records of any shape through the active file                        *)
(* ===================================================================== *)

Section AnyRecords.

Context {V : Type}.

Lemma dict_get_set (k k' : string) (v : V) (d : list (string * V)) :
  Disk.dict_get k (Disk.dict_set k' v d)
  = if String.eqb k k' then Some v else Disk.dict_get k d.
Proof.
  induction d as [|[k0 v0] d IH]; cbn [Disk.dict_set Disk.dict_get].
  - reflexivity.
  - destruct (String.eqb_spec k' k0) as [<- | Hne]; cbn [Disk.dict_get].
    + now destruct (String.eqb k k').
    + rewrite IH. destruct (String.eqb_spec k k0) as [-> | Hne']; [|reflexivity].
      destruct (String.eqb_spec k0 k'); [congruence | reflexivity].
Qed.

Lemma dict_set_same (k : string) (v : V) (d : list (string * V)) :
  Disk.dict_get k d = Some v -> Disk.dict_set k v d = d.
Proof.
  induction d as [|[k0 v0] d IH]; cbn [Disk.dict_set Disk.dict_get]; [discriminate|].
  destruct (String.eqb k k0) eqn:Hk.
  - intros [= ->]. apply String.eqb_eq in Hk. now subst.
  - intros Hget. now rewrite IH.
Qed.

End AnyRecords.

Lemma dict_get_dumped (k : string) (entry : Disk.record) :
  Disk.dict_get k (dumped entry) = Disk.json_dump <$> Disk.dict_get k entry.
Proof.
  unfold dumped. induction entry as [|[k0 v0] entry IH]; [reflexivity|].
  cbn [map fst snd Disk.dict_get]. now destruct (String.eqb k k0).
Qed.

Lemma normalize_active_any (items : Disk.TablesDB) :
  forall acc : Disk.TablesDB,
    NoDup (map fst acc ++ map fst items) ->
    Disk.normalize_active items acc
    = acc ++ map (fun kv => (fst kv, Disk.dict_set "archive_reason" Disk.PyNone (snd kv)))
               items.
Proof.
  induction items as [|[k v] items IH]; intros acc Hnd.
  - simpl. now rewrite app_nil_r.
  - cbn [map fst snd Disk.normalize_active] in *.
    destruct (NoDup_snoc_keys acc k (Disk.dict_set "archive_reason" Disk.PyNone v)
                _ Hnd) as (Hk & _ & Hnd' & _).
    rewrite dict_set_fresh by assumption. rewrite IH by assumption.
    now rewrite <- app_assoc.
Qed.

Lemma write_items_cleared (items : Disk.TablesDB) :
  forall acc : list (string * Disk.pyval),
    NoDup (map fst acc ++ map fst items) ->
    Disk.write_items
      (map (fun kv => (fst kv, Disk.dict_set "archive_reason" Disk.PyNone (snd kv)))
         items) acc
    = acc ++ map (fun kv => (fst kv,
                             Disk.PyDict
                               (Disk.dict_set "archive_reason" Disk.PyNone (snd kv))))
               items.
Proof.
  induction items as [|[k v] items IH]; intros acc Hnd.
  - simpl. now rewrite app_nil_r.
  - cbn [map fst snd Disk.write_items] in *.
    destruct (NoDup_snoc_keys acc k
                (Disk.PyDict (Disk.dict_set "archive_reason" Disk.PyNone v))
                _ Hnd) as (Hk & _ & Hnd' & _).
    rewrite dict_get_set. cbn [String.eqb Ascii.eqb Bool.eqb].
    rewrite dict_set_fresh by assumption. rewrite IH by assumption.
    now rewrite <- app_assoc.
Qed.

Lemma kept_items_cleared (items : Disk.TablesDB) :
  Disk.kept_items
    (map (fun kv => (fst kv,
                     Disk.PyDict
                       (dumped (Disk.dict_set "archive_reason" Disk.PyNone (snd kv)))))
       items)
  = reloaded items.
Proof.
  unfold reloaded. induction items as [|[k v] items IH]; [reflexivity|].
  cbn [map fst snd Disk.kept_items]. unfold Disk.normalized_entry.
  assert (Hnull : Disk.dict_get "archive_reason"
                    (dumped (Disk.dict_set "archive_reason" Disk.PyNone v))
                  = Some Disk.PyNone).
  { rewrite dict_get_dumped, dict_get_set. reflexivity. }
  rewrite Hnull, (dict_set_same _ _ _ Hnull). f_equal. exact IH.
Qed.

(** X25. Whatever the active records hold, fields that are missing or not
    declared included, the active file that [save_tables] writes is read
    back with no exception and no warning: the same tables in the same
    order, each with [archive_reason] null and every other field as JSON
    keeps it. The keys of the collection are distinct, as those of a
    dictionary are. *)
Theorem active_file_always_loads (active archived : Disk.TablesDB) :
  NoDup (map fst active) ->
  let d := Disk.save_tables active archived in
  Disk._read_json (Disk.ACTIVE_DATA_FILE d) = ([], inr (reloaded active)) /\
  map fst (reloaded active) = map fst active /\
  (forall key entry, Disk.dict_get key active = Some entry ->
     exists entry',
       Disk.dict_get key (reloaded active) = Some entry' /\
       Disk.dict_get "archive_reason" entry' = Some Disk.PyNone /\
       forall field, field <> "archive_reason" ->
         Disk.dict_get field entry' = Disk.json_dump <$> Disk.dict_get field entry).
Proof.
  intros Hnd. cbv zeta. split; [|split].
  - unfold Disk.save_tables. cbn [Disk.ACTIVE_DATA_FILE]. unfold Disk._write_json.
    rewrite (normalize_active_any active []) by exact Hnd. cbn [app].
    rewrite (write_items_cleared active []) by exact Hnd. cbn [app].
    change (Disk.json_dump (Disk.PyDict ?l))
      with (Disk.PyDict (map (fun kv => (fst kv, Disk.json_dump (snd kv))) l)).
    rewrite map_map. cbn [fst snd Disk._read_json].
    change (fun x : string * Disk.record =>
              (fst x, Disk.json_dump
                        (Disk.PyDict
                           (Disk.dict_set "archive_reason" Disk.PyNone (snd x)))))
      with (fun x : string * Disk.record =>
              (fst x, Disk.PyDict
                        (dumped (Disk.dict_set "archive_reason" Disk.PyNone (snd x))))).
    rewrite (read_items_kept _ []).
    + cbn [app]. now rewrite kept_items_cleared.
    + cbn [app]. now rewrite map_map.
    + intros k entry Hin. apply list_elem_of_fmap in Hin as ([k0 v0] & Heq & _).
      cbn [fst snd] in Heq. assert (entry = dumped
        (Disk.dict_set "archive_reason" Disk.PyNone v0)) by congruence. subst entry.
      unfold Disk.normalized_entry.
      rewrite dict_get_dumped, dict_get_set. cbn. eauto.
  - unfold reloaded. now rewrite map_map.
  - intros key entry Hget. unfold reloaded.
    exists (dumped (Disk.dict_set "archive_reason" Disk.PyNone entry)).
    split; [|split].
    + clear Hnd. induction active as [|[k0 v0] active IH]; [discriminate|].
      cbn [map fst snd Disk.dict_get] in *.
      destruct (String.eqb key k0); [congruence | auto].
    + rewrite dict_get_dumped, dict_get_set. reflexivity.
    + intros field Hfield. rewrite dict_get_dumped, dict_get_set.
      apply String.eqb_neq in Hfield. now rewrite Hfield.
Qed.

(* ===================================================================== *)
(** * The join button                                                     *)
(* ===================================================================== *)

(** X26. On a view made with the capacity of its table, the join button
    tells where a join lands: under "Sign Up" a user who is not in the table
    gets a seat, under "Join Waitlist" a place on the waitlist. The label
    the join then leaves is "Sign Up" exactly when a seat is still free
    after it. *)
Theorem join_button_tells_where_a_join_lands
    (table_id : string) (uid : Z) (uname now : string) (resolve : Z -> option string)
    (w : World) (t : TableData) :
  active_file w !! table_id = Some t ->
  uid ∉ ids (players t) -> uid ∉ ids (waitlist t) ->
  let r := SignupView.join_callback table_id uid uname now resolve w in
  (join_btn_label (max_players t) t = "Sign Up" -> fst r = Seated) /\
  (join_btn_label (max_players t) t = "Join Waitlist" -> fst r = Waitlisted) /\
  exists t', active_file (snd r) !! table_id = Some t' /\
    max_players t' = max_players t /\
    (join_btn_label (max_players t) t' = "Sign Up"
     <-> Z.of_nat (length (players t)) + 1 < max_players t).
Proof.
  intros Hlook Hp Hw. cbv zeta.
  rewrite (join_callback_found _ _ _ _ _ _ _ Hlook).
  apply any_id_false in Hp. apply any_id_false in Hw. rewrite Hp, Hw.
  unfold join_btn_label. cbv zeta.
  destruct (Z.of_nat (length (players t)) >=? max_players t) eqn:Hfull;
    cbn [fst snd]; rewrite lookup_saved.
  - split; [discriminate|]. split; [reflexivity|].
    eexists. split; [reflexivity|]. split; [reflexivity|].
    cbn [players set_archive_reason SignupView._populate_display_names set_waitlist
           set_players].
    rewrite populate_length, Hfull.
    rewrite Z.geb_leb in Hfull. apply Z.leb_le in Hfull.
    split; [discriminate | lia].
  - split; [reflexivity|]. split; [discriminate|].
    eexists. split; [reflexivity|]. split; [reflexivity|].
    cbn [players set_archive_reason SignupView._populate_display_names set_waitlist
           set_players].
    rewrite populate_length, length_app. cbn [length].
    rewrite Z.geb_leb in Hfull. apply Z.leb_gt in Hfull.
    destruct (Z.of_nat (length (players t) + 1) >=? max_players t) eqn:Hnext;
      rewrite Z.geb_leb in Hnext;
      [apply Z.leb_le in Hnext | apply Z.leb_gt in Hnext].
    + split; [discriminate | lia].
    + split; [lia | reflexivity].
Qed.

(* ===================================================================== *)
(** * The further theorems at work on the sample data                     *)
(* ===================================================================== *)

Lemma roster_stays_within_capacity_witness :
  exists t,
    active_file (snd (run_events Sample.history Sample.created_world)) !! "table-1"
    = Some t /\
    Z.of_nat (length (players t)) <= max_players t.
Proof.
  assert (Hc : NewTableModal.on_submit 123 "Test System" "Soon" "Test" (Some 4)
                 "table-1" "2025-01-01T00:00:00+00:00" (Some 101112) (Posted 456 789)
                 Sample.empty_world = (Created, Sample.created_world)) by reflexivity.
  destruct (active_file (snd (run_events Sample.history Sample.created_world))
              !! "table-1") as [t|] eqn:Ht.
  - exists t. split; [reflexivity|].
    exact (proj1 (roster_stays_within_capacity _ _ _ _ _ _ _ _ _ _ _ _ _ Hc Ht)).
  - exfalso. vm_compute in Ht. discriminate.
Defined.

Lemma events_touch_one_table_witness :
  exists t',
    active_file
      (snd (run_event (Join "table-1" 3 "Carol" "2025-01-02T10:00:00+00:00"
                         Sample.no_names)
              Cases.two_tables_world)) !! "table-2" = Some t' /\
    players t' = [Sample.carol] /\ waitlist t' = [].
Proof.
  destruct (events_touch_one_table
              (Join "table-1" 3 "Carol" "2025-01-02T10:00:00+00:00" Sample.no_names)
              Cases.two_tables_world "table-2" Cases.far_table
              ltac:(discriminate) eq_refl) as (t' & Ht' & _ & Hp & Hw & _).
  exists t'. auto.
Defined.

Lemma join_then_leave_restores_witness :
  exists t2,
    active_file
      (snd (SignupView.leave_callback "table-1" 3 Sample.no_names
              (snd (SignupView.join_callback "table-1" 3 "Carol"
                      "2025-01-02T10:00:00+00:00" Sample.no_names Sample.full_world))))
      !! "table-1" = Some t2 /\
    map stamp (players t2) = map stamp [Sample.alice] /\
    map stamp (waitlist t2) = map stamp [Sample.bob].
Proof.
  destruct (join_then_leave_restores "table-1" 3 "Carol" "2025-01-02T10:00:00+00:00"
              Sample.no_names Sample.no_names Sample.full_world Sample.full_table
              eq_refl
              ltac:(intros Hin; apply list_elem_of_singleton in Hin; discriminate)
              ltac:(intros Hin; apply list_elem_of_singleton in Hin; discriminate)
              ltac:(right; simpl; lia))
    as (t2 & Ht2 & Hp & Hw & _).
  exists t2. auto.
Defined.

Lemma leave_frees_one_seat_witness :
  exists t',
    active_file (snd (SignupView.leave_callback "table-1" 2 Sample.no_names
                        Sample.trio_world)) !! "table-1" = Some t' /\
    (length (players t') + 1 = 3)%nat /\ waitlist t' = [].
Proof.
  assert (Hnd : NoDup (ids (players Sample.trio_table)))
    by (apply (bool_decide_unpack _); reflexivity).
  assert (Hin : 2 ∈ ids (players Sample.trio_table))
    by (apply (bool_decide_unpack _); reflexivity).
  destruct (leave_frees_one_seat "table-1" 2 Sample.no_names Sample.trio_world
              Sample.trio_table eq_refl Hnd Hin) as (t' & Ht' & Hempty & _).
  exists t'. split; [exact Ht'|]. exact (Hempty eq_refl).
Defined.

Lemma waitlist_stays_in_order_witness :
  nondecreasing (join_times Sample.history) /\
  exists t,
    active_file (snd (run_events Sample.history Sample.created_world)) !! "table-1"
    = Some t /\
    waitlist_sorted (waitlist t).
Proof.
  assert (Hc : NewTableModal.on_submit 123 "Test System" "Soon" "Test" (Some 4)
                 "table-1" "2025-01-01T00:00:00+00:00" (Some 101112) (Posted 456 789)
                 Sample.empty_world = (Created, Sample.created_world)) by reflexivity.
  assert (Hn : nondecreasing (join_times Sample.history))
    by (repeat constructor).
  split; [exact Hn|].
  destruct (active_file (snd (run_events Sample.history Sample.created_world))
              !! "table-1") as [t|] eqn:Ht.
  - exists t. split; [reflexivity|].
    exact (waitlist_stays_in_order _ _ _ _ _ _ _ _ _ _ _ _ _ Hc Hn Ht).
  - exfalso. vm_compute in Ht. discriminate.
Defined.

Lemma archived_tables_accept_nothing_witness :
  let w := snd (ArchiveView.select_callback 123 123 ["table-1"] (fun _ _ => false)
                  Sample.sample_world) in
  SignupView.join_callback "table-1" 1 "Alice" "2025-01-02T10:00:00+00:00"
    Sample.no_names w = (JoinNoTable, w).
Proof.
  destruct (archived_tables_accept_nothing 123 "table-1" [] (fun _ _ => false)
              Sample.sample_world Sample.sample_table ltac:(discriminate) eq_refl)
    as [_ H].
  destruct (H (or_introl eq_refl)) as (_ & Hjoin & _).
  exact (Hjoin 1 "Alice" "2025-01-02T10:00:00+00:00" Sample.no_names).
Defined.

Lemma unchanged_form_keeps_the_record_witness :
  EditTableView.select_callback 7 7 ["table-1"] Sample.full_world
  = (ModalOpened "table-1" Sample.full_table, Sample.full_world) /\
  fst (EditTableModal.on_submit "table-1" "Test System" "Soon" "Test" (Some 1)
         Sample.full_world) = Edited [].
Proof.
  destruct (unchanged_form_keeps_the_record 7 Cases.one_moderator Sample.full_world
              "table-1" Sample.full_table ltac:(discriminate) eq_refl eq_refl)
    as (_ & _ & _ & _ & Hopen & _ & _ & Hsame).
  split; [exact Hopen|].
  exact (proj1 (Hsame eq_refl ltac:(unfold within_capacity; simpl; lia))).
Defined.

(** Settles that a given instant has a given window on either side of it
    within the range of [datetime]. *)
Ltac fits := unfold window_fits, is_datetime; repeat split; vm_compute; discriminate.

(** Settles [admission_in_range] on given caches and stamps. *)
Ltac admission_fits :=
  let Hlimit := fresh "Hlimit" in
  split;
  [ intros ? Hlimit | intros ? ? _ Hlimit ];
  vm_compute in Hlimit; injection Hlimit as <-;
  (split; [fits | repeat (constructor; [fits|]); constructor]).

Lemma window_admits_at_most_max_commands_witness :
  let before := [Sample.morning; Sample.morning + 1000000] in
  let now := Sample.morning + 2000000 in
  Forall (window_fits 10) (before ++ [now]) /\
  exists wait,
    fst (check_rate_limit (2, 10) 1 now (snd (check_in_turn (2, 10) 1 before ∅)))
    = Some (false, wait) /\ 0 <= wait <= 10.
Proof.
  cbv zeta.
  assert (Hsorted : StronglySorted Z.le
                      ([Sample.morning; Sample.morning + 1000000]
                       ++ [Sample.morning + 2000000]))
    by (repeat constructor; unfold Sample.morning; lia).
  assert (Hfits : Forall (window_fits 10)
                    ([Sample.morning; Sample.morning + 1000000]
                     ++ [Sample.morning + 2000000]))
    by (repeat (constructor; [fits|]); constructor).
  assert (Hnew : default [] ((∅ : gmap Z (list Z)) !! 1) = []) by reflexivity.
  split; [exact Hfits|].
  destruct (window_admits_at_most_max_commands 2 10 1 ∅
              [Sample.morning; Sample.morning + 1000000] (Sample.morning + 2000000)
              ltac:(lia) ltac:(lia) Hnew Hsorted Hfits) as (_ & _ & _ & Hfull).
  apply Hfull. vm_compute. reflexivity.
Defined.

Lemma denied_checks_are_not_counted_witness :
  let after := snd (check_rate_limit (1, 10) 1 1000000 {[ 1 := [0] ]}) in
  after !! 1 = Some [0] /\
  check_rate_limit (1, 10) 1 2000000 after
  = check_rate_limit (1, 10) 1 2000000 {[ 1 := [0] ]}.
Proof.
  assert (Hdenied : fst (check_rate_limit (1, 10) 1 1000000 {[ 1 := [0] ]})
                    = Some (false, 9)) by (vm_compute; reflexivity).
  destruct (denied_checks_are_not_counted (1, 10) (1, 10) 1 1000000 2000000 2 9
              {[ 1 := [0] ]} Cases.no_stamps Hdenied ltac:(lia))
    as (Hkept & Hsame & _).
  split; [exact Hkept | exact Hsame].
Defined.

Lemma configured_limits_are_positive_and_kept_witness :
  rate_caches_filled_by_getters Config.no_caches /\
  fst (Config.get_user_command_rate_limit Cases.config_file Config.no_caches)
  = inr (2, 1) /\
  fst (Config.get_guild_command_rate_limit Cases.config_file Config.no_caches)
  = inr (12, 10) /\
  exists limit,
    fst (Config.get_user_command_rate_limit Cases.config_file Config.no_caches)
    = inr limit /\
    0 < fst limit /\ 0 < snd limit /\
    Config.get_user_command_rate_limit (Disk.Unloadable Disk.UnicodeDecodeError)
      (snd (Config.get_user_command_rate_limit Cases.config_file Config.no_caches))
    = (inr limit,
       snd (Config.get_user_command_rate_limit Cases.config_file Config.no_caches)).
Proof.
  assert (Hc : rate_caches_filled_by_getters Config.no_caches)
    by (split; intros limit Hl; discriminate).
  split; [exact Hc|].
  destruct (configured_limits_are_positive_and_kept Cases.config_file
              (Disk.Unloadable Disk.UnicodeDecodeError) Config.no_caches Hc)
    as (_ & Hkept & _).
  split; [reflexivity|]. split; [reflexivity|].
  apply Hkept. left. reflexivity.
Defined.

Lemma admission_counts_before_the_guild_check_witness :
  let now := Sample.morning in
  let r := admission Cases.config_file 1 (Some 7) now
             (Config.no_caches, Cases.no_stamps) in
  admission_in_range Cases.config_file 1 (Some 7) now Config.no_caches
    Cases.no_stamps /\
  fst r = Some Allowed /\
  last (default [] (_user_rate_limits (snd (snd r)) !! 1)) = Some now /\
  last (default [] (_guild_rate_limits (snd (snd r)) !! 7)) = Some now.
Proof.
  cbv zeta.
  assert (Hc : rate_caches_filled_by_getters Config.no_caches)
    by (split; intros limit Hl; discriminate).
  assert (Hrange : admission_in_range Cases.config_file 1 (Some 7) Sample.morning
                     Config.no_caches Cases.no_stamps) by admission_fits.
  split; [exact Hrange|].
  destruct (admission_counts_before_the_guild_check Cases.config_file 1 (Some 7)
              Sample.morning Config.no_caches Cases.no_stamps Hc Hrange)
    as (_ & _ & _ & _ & _ & _ & Hallowed).
  assert (Hr : fst (admission Cases.config_file 1 (Some 7) Sample.morning
                      (Config.no_caches, Cases.no_stamps)) = Some Allowed)
    by (vm_compute; reflexivity).
  split; [exact Hr|].
  destruct (Hallowed Hr) as [Huser Hguild].
  split; [exact Huser | exact (Hguild 7 eq_refl)].
Defined.

Lemma listing_waits_a_minute_per_channel_witness :
  let now := Sample.morning + 30000000 in
  let r := list_tables Disk.NoFile 1 (Some 101112) true 789 now
             (fun _ => false) true Cases.listed_state in
  admission_in_range Disk.NoFile 1 (Some 101112) now (caches Cases.listed_state)
    (limits Cases.listed_state) /\
  ((exists why, fst r = Some (ListRefused why)) \/
   (exists remaining, fst r = Some (ListThrottled remaining) /\ 0 <= remaining <= 60)).
Proof.
  cbv zeta.
  assert (Hc : rate_caches_filled_by_getters (caches Cases.listed_state))
    by (split; intros limit Hl; discriminate).
  assert (Hrange : admission_in_range Disk.NoFile 1 (Some 101112)
                     (Sample.morning + 30000000) (caches Cases.listed_state)
                     (limits Cases.listed_state)) by admission_fits.
  split; [exact Hrange|].
  destruct (listing_waits_a_minute_per_channel Disk.NoFile 1 (Some 101112) true 789
              (Sample.morning + 30000000) (fun _ => false) true Cases.listed_state
              Hc eq_refl Hrange)
    as (_ & _ & _ & _ & _ & Hcool & _).
  destruct (Hcool Sample.morning eq_refl ltac:(lia)) as [Hthrottled _].
  exact (Hthrottled ltac:(unfold LIST_TABLES_COOLDOWN; lia)).
Defined.

Lemma my_tables_shows_the_tables_of_one_guild_witness :
  fst (my_tables Disk.NoFile 2 (Some 101112) 0 (Config.no_caches, Cases.no_stamps)
         Cases.two_tables_world)
  = Some (MyTablesShown {[ "table-1" := (Sample.full_table, "Waiting") ]}) /\
  ({[ "table-1" := (Sample.full_table, "Waiting") ]}
     : gmap string (TableData * string)) <> ∅.
Proof.
  assert (Hshown : fst (my_tables Disk.NoFile 2 (Some 101112) 0
                          (Config.no_caches, Cases.no_stamps) Cases.two_tables_world)
                   = Some (MyTablesShown
                             {[ "table-1" := (Sample.full_table, "Waiting") ]}))
    by (vm_compute; reflexivity).
  split; [exact Hshown|].
  exact (proj1 (my_tables_shows_the_tables_of_one_guild Disk.NoFile 2 (Some 101112) 0
                  (Config.no_caches, Cases.no_stamps) Cases.two_tables_world _ Hshown)).
Defined.

Lemma label_is_never_empty_nor_too_long_witness :
  _truncate_label "  Curse of Strahd  " 100 = "Curse of Strahd" /\
  _truncate_label "  " 100 <> "" /\
  len (_truncate_label "  Curse of Strahd  " 100) <= 100.
Proof.
  destruct (label_is_never_empty_nor_too_long "  Curse of Strahd  " 100 ltac:(lia))
    as (_ & _ & _ & Hlen & _).
  destruct (label_is_never_empty_nor_too_long "  " 100 ltac:(lia))
    as (_ & _ & Hfull & _).
  split; [reflexivity|]. split; [exact Hfull | exact Hlen].
Defined.

Lemma active_file_always_loads_witness :
  Disk._read_json (Disk.ACTIVE_DATA_FILE (Disk.save_tables Cases.sparse_active []))
  = ([], inr [ ("table-1", [ ("system", Disk.PyStr "Test System");
                             ("archive_reason", Disk.PyNone) ]) ]).
Proof.
  assert (Hnd : NoDup (map fst Cases.sparse_active))
    by (apply (bool_decide_unpack _); reflexivity).
  exact (proj1 (active_file_always_loads Cases.sparse_active [] Hnd)).
Defined.

Lemma join_button_tells_where_a_join_lands_witness :
  join_btn_label (max_players Sample.full_table) Sample.full_table = "Join Waitlist" /\
  fst (SignupView.join_callback "table-1" 3 "Carol" "2025-01-02T10:00:00+00:00"
         Sample.no_names Sample.full_world) = Waitlisted.
Proof.
  destruct (join_button_tells_where_a_join_lands "table-1" 3 "Carol"
              "2025-01-02T10:00:00+00:00" Sample.no_names Sample.full_world
              Sample.full_table eq_refl
              ltac:(intros Hin; apply list_elem_of_singleton in Hin; discriminate)
              ltac:(intros Hin; apply list_elem_of_singleton in Hin; discriminate))
    as (_ & Hwait & _).
  split; [reflexivity | exact (Hwait eq_refl)].
Defined.

Lemma removal_archives_exactly_the_tables_of_the_place_witness :
  let r := TablePlannerBot.on_guild_channel_delete 790 Cases.two_tables_world in
  active_file (snd r) !! "table-2" = None /\
  archived_file (snd r) !! "table-2"
  = Some (set_archive_reason (Some KICK) Cases.far_table) /\
  exists t', active_file (snd r) !! "table-1" = Some t' /\
    (t' = Sample.full_table \/ t' = set_archive_reason None Sample.full_table).
Proof.
  destruct (removal_archives_exactly_the_tables_of_the_place 790 Cases.two_tables_world)
    as [(_ & _ & _ & Hgone & Hkept) _].
  destruct (Hgone "table-2" Cases.far_table eq_refl eq_refl) as [Ha Hr].
  split; [exact Ha|]. split; [exact Hr|].
  exact (Hkept "table-1" Sample.full_table eq_refl ltac:(discriminate)).
Defined.

Lemma setup_restores_the_reachable_tables_witness :
  let r := TablePlannerBot.setup_hook Cases.one_channel Cases.lost_world in
  ("table-1", 1) ∈ fst r /\
  active_file (snd r) !! "table-3" = None /\
  archived_file (snd r) !! "table-3"
  = Some (set_archive_reason (Some NO_ACCESS) Cases.lost_table).
Proof.
  destruct (setup_restores_the_reachable_tables Cases.one_channel Cases.lost_world)
    as (Hviews & _ & _ & _ & Hlost & _).
  split.
  - apply Hviews. exists Sample.full_table. repeat split; reflexivity.
  - exact (Hlost "table-3" Cases.lost_table eq_refl eq_refl).
Defined.

Lemma archive_offers_what_can_be_archived_witness :
  fst (ArchiveView.select_callback 7 7 ["table-1"] Cases.one_moderator Sample.full_world)
  = Archived MOD /\
  fst (archive_table 8 Cases.one_moderator Sample.full_world) = NoEligibleTables.
Proof.
  destruct (archive_offers_what_can_be_archived 7 Cases.one_moderator Sample.full_world)
    as (_ & _ & _ & Hoffered & _ & Hreason).
  destruct (archive_offers_what_can_be_archived 8 Cases.one_moderator Sample.full_world)
    as (_ & Hnone & _).
  split.
  - apply (Hreason "table-1" Sample.full_table ltac:(discriminate)).
    apply Hoffered. split; [reflexivity | right; reflexivity].
  - apply Hnone. intros tid t Hlook.
    destruct (decide (tid = "table-1")) as [-> | Hne].
    + assert (Hfull : active_file Sample.full_world !! "table-1"
                      = Some Sample.full_table) by reflexivity.
      rewrite Hfull in Hlook. injection Hlook as <-. reflexivity.
    + exfalso. unfold Sample.full_world in Hlook. cbn [active_file] in Hlook.
      rewrite lookup_singleton_ne in Hlook by congruence. discriminate.
Defined.
